(** * agentic-typer: the repair loop, the hook around its edits and its file schedule

    A shallow embedding of the TypeScript sources

    - [utils/project-errors.ts], [utils/typescript.ts], [utils/eslint.ts]
      (the diagnostic aggregator),
    - [utils/error-formatting.ts] (the report sent to the agent),
    - [utils/claude-code.ts] (classification of the agent's error messages),
    - [utils/file-modification-hook.ts] (the transpilation-comparison hook),
    - [utils/file-dependencies.ts], [utils/file-queue.ts] (the file schedule),
    - [agents/errors/fix-errors.ts], [agents/errors/fix-project-errors.ts]
      (the iteration controller and the orchestrator),

    followed by the properties proved about them.  Line numbers are those
    of the files as they come: the hook follows [claude-code.ts] in one file
    (l. 234-356), [part_003] holds [file-dependencies.ts], [typescript.ts]
    and [eslint.ts], [part_004] is [project-errors.ts] and [part_005] is
    [file-queue.ts].

    Conventions.  A JavaScript [number] that holds a count, a line or a column
    is a [Z]; a [string] is a [string]; [T | undefined] and [T | null] are
    [option T]; a [Map] with string keys that is only looked up is a
    [gmap string _]; a [Set] or [Map] whose iteration order is observable is
    a list in insertion order.  A function that may [throw] returns a
    [Completion]; a method that mutates [this] or the file system takes the
    state and returns the new one.  The TypeScript compiler, ESLint, the
    [diff] package, Node's [path] module and the agent SDK are external: their
    entry points are fields of the interfaces below. *)

From Stdlib Require Import ZArith QArith Lia List String Ascii DecimalString Permutation.
From stdpp Require Import base option list strings gmap.

Local Open Scope Z_scope.

(** ** JavaScript completions *)

Module Js.

(** The classes of [Error] the sources define ([claude-code.ts], l. 19-20)
    next to the built-in one. *)
Inductive ErrorClass : Set :=
  | PlainError
  | ClaudeSessionLimitError
  | ClaudePromptLimitError.

(** A thrown value: an [Error] of some class with its message, or a value
    that is not an [Error] at all ([catch (error: unknown)]). *)
Inductive Thrown : Set :=
  | ThrownError (cls : ErrorClass) (message : string)
  | ThrownOther.

Inductive Completion (A : Type) : Type :=
  | Return (a : A)
  | Throw (e : Thrown).

Arguments Return {A} a.
Arguments Throw {A} e.

Definition bind {A B} (c : Completion A) (k : A -> Completion B) : Completion B :=
  match c with
  | Return a => k a
  | Throw e => Throw e
  end.

(** [new Error(msg)] *)
Definition error (msg : string) : Thrown := ThrownError PlainError msg.

(** [xs.map(f)] where [f] may throw: the first throw aborts the map. *)
Fixpoint mapM {A B} (f : A -> Completion B) (xs : list A) : Completion (list B) :=
  match xs with
  | [] => Return []
  | x :: xs' =>
      bind (f x) (fun y => bind (mapM f xs') (fun ys => Return (y :: ys)))
  end.

Definition is_return {A} (c : Completion A) : bool :=
  match c with Return _ => true | Throw _ => false end.

(** [n.toString()] for an integral number. *)
Definition toString (n : Z) : string := NilZero.string_of_int (Z.to_int n).

(** [s.padStart(width, " ")] *)
Fixpoint spaces (n : nat) : string :=
  match n with
  | O => ""
  | S n' => String " " (spaces n')
  end.

Definition padStart (width : nat) (s : string) : string :=
  spaces (width - String.length s) +:+ s.

(** [s.startsWith(prefix)] *)
Definition startsWith (s pre : string) : bool := String.prefix pre s.

End Js.

Export Js.

(** Completions form a monad; stdpp's [x ← c; k] is its sequencing. *)
Global Instance completion_ret : MRet Completion := @Return.
Global Instance completion_bind : MBind Completion :=
  fun A B (k : A -> Completion B) (c : Completion A) => bind c k.

(** More of the [String] prototype, as the sources use it. *)
Module JsString.

(** [s.endsWith(suffix)] *)
Definition endsWith (s suf : string) : bool :=
  let n := String.length s in
  let k := String.length suf in
  (k <=? n)%nat && String.eqb (String.substring (n - k) k s) suf.

(** [s.includes(sub)] *)
Definition includes (s sub : string) : bool :=
  match String.index 0 sub s with
  | Some _ => true
  | None => false
  end.

(** [s.replace(pattern, replacement)] with a string pattern: only the first
    occurrence is replaced. *)
Definition replace (s pat rep : string) : string :=
  match String.index 0 pat s with
  | Some i =>
      String.substring 0 i s +:+ rep +:+
      String.substring (i + String.length pat)
        (String.length s - (i + String.length pat)) s
  | None => s
  end.

(** [s.split("\n")]: never empty, the pieces between the line feeds. *)
Fixpoint splitLines (s : string) : list string :=
  match s with
  | EmptyString => [""]
  | String c s' =>
      if Ascii.eqb c "010"%char then "" :: splitLines s'
      else match splitLines s' with
           | [] => [String c ""]
           | l :: ls => String c l :: ls
           end
  end.

(** [xs.join(sep)] *)
Fixpoint join (sep : string) (xs : list string) : string :=
  match xs with
  | [] => ""
  | [x] => x
  | x :: xs' => x +:+ sep +:+ join sep xs'
  end.

Definition newline : string := String "010"%char "".

End JsString.

(** ** The project record ([utils/project-workdir.ts]) *)

Inductive Language : Set := javascript | typescript.

#[global] Instance Language_eq_dec : EqDecision Language.
Proof. solve_decision. Defined.

(** The files of the working copy: path to content.  [readFile] of a path
    outside the map throws. *)
Abbreviation Disk := (gmap string string).

(** Node's [path] module. *)
Class NodePath := {
  path_join : string -> string -> string;
  path_dirname : string -> string;
  path_isAbsolute : string -> bool;
  path_resolve : string -> string -> string;
}.

Module Project.

Record ProjectData := {
  path : string;
  phase : Z;
  data_language : option Language;
}.

(** [get language()]: throws while the language is not set. *)
Definition language (p : ProjectData) : Completion Language :=
  match data_language p with
  | Some l => Return l
  | None => Throw (error "language is not set.")
  end.

Definition tsconfigPath `{NodePath} (p : ProjectData) : string :=
  path_join (path p) "tsconfig.json".

End Project.

Abbreviation Project := Project.ProjectData.

(** [readFile(path, "utf-8")] *)
Definition readFile (disk : Disk) (file : string) : Completion string :=
  match disk !! file with
  | Some content => Return content
  | None => Throw (error ("ENOENT: no such file or directory, open '" +:+ file +:+ "'"))
  end.

(** [writeFile(path, content, "utf-8")] *)
Definition writeFile (disk : Disk) (file content : string) : Disk :=
  <[file := content]> disk.

(** ** The TypeScript compiler API, as [utils/typescript.ts] uses it *)

Module Ts.

Inductive DiagnosticCategory : Set :=
  | Warning
  | Error
  | Suggestion
  | Message.

#[global] Instance DiagnosticCategory_eq_dec : EqDecision DiagnosticCategory.
Proof. solve_decision. Defined.

Record LineAndCharacter := { lc_line : Z; lc_character : Z }.

(** The compiler's own data: source files, programs, message chains. *)
Class TypeScriptTypes := {
  SourceFile : Type;
  Program : Type;
  DiagnosticMessage : Type;
  CompilerOptions : Type;
}.

(** [ts.Diagnostic], the fields the sources read.  [reportsUnnecessary] is
    read for its truthiness only. *)
Record Diagnostic `{TypeScriptTypes} := {
  category : DiagnosticCategory;
  code : Z;
  file : option SourceFile;
  start : option Z;
  messageText : DiagnosticMessage;
  reportsUnnecessary : bool;
}.

Class TypeScript `{TypeScriptTypes} := {
  fileName : SourceFile -> string;
  isDeclarationFile : SourceFile -> bool;
  getLineAndCharacterOfPosition : SourceFile -> Z -> LineAndCharacter;
  (** positions are zero-based lines and characters *)
  lineAndCharacter_zero_based : forall sf pos,
    0 <= lc_line (getLineAndCharacterOfPosition sf pos) /\
    0 <= lc_character (getLineAndCharacterOfPosition sf pos);
  flattenDiagnosticMessageText : DiagnosticMessage -> string -> string;
  (** the program the watcher holds for a tsconfig and a state of the disk *)
  createOrGetWatchProgram : Disk -> string -> Program;
  (** [createProgram] on the parsed config with overriding options *)
  createOneTimeProgram : Disk -> string -> CompilerOptions -> Completion Program;
  getSourceFile : Program -> string -> option SourceFile;
  getSourceFiles : Program -> list SourceFile;
  getPreEmitDiagnostics : Program -> option SourceFile -> list Diagnostic;
  (** [parseConfigFile] followed by [transpileModule] with
      [removeComments: true]: the output text for a source text and a file
      name under the project's tsconfig; throws when the config is unreadable *)
  transpileModule : Disk -> string -> string -> string -> Completion string;
}.

End Ts.

Import Ts.

Module Typescript.
Section WithCompiler.
Context `{NodePath} `{TypeScript}.

(** [filterErrors] (l. 200-205) *)
Definition filterErrors (diagnostics : list Diagnostic) : list Diagnostic :=
  List.filter
    (fun d => bool_decide (category d = Error) && negb (reportsUnnecessary d))
    diagnostics.

(** [getDiagnostics] (l. 189-198) *)
Definition getDiagnostics (program : Program) (file : option string)
  : Completion (list Diagnostic) :=
  match file with
  | None => Return (getPreEmitDiagnostics program None)
  | Some f =>
      match getSourceFile program f with
      | None => Throw (error ("File '" +:+ f +:+ "' not found in the program."))
      | Some sourceFile => Return (getPreEmitDiagnostics program (Some sourceFile))
      end
  end.

(** [getTsErrors] (l. 156-167) *)
Definition getTsErrors (disk : Disk) (project : Project)
    (file : option string) (options : option CompilerOptions)
  : Completion (list Diagnostic) :=
  let tsconfigPath := Project.tsconfigPath project in
  program ← match options with
            | None => Return (createOrGetWatchProgram disk tsconfigPath)
            | Some o => createOneTimeProgram disk tsconfigPath o
            end;
  diagnostics ← getDiagnostics program file;
  Return (filterErrors diagnostics).

(** [transpile] (l. 169-178) *)
Definition transpile (disk : Disk) (fileName : string) (project : Project)
  : Completion string :=
  sourceCode ← readFile disk fileName;
  transpileModule disk (Project.tsconfigPath project) sourceCode fileName.

End WithCompiler.
End Typescript.

(** ** ESLint, as [utils/eslint.ts] uses it *)

Module ESLint.

(** [Linter.LintMessage]: the fields copied by [getESLintErrorsForFile]. *)
Record LintMessage := {
  column : Z;
  line : Z;
  message : string;
  ruleId : option string;
  severity : Z;
}.

Record LintResult := {
  filePath : string;
  messages : list LintMessage;
}.

(** The severity of a rule: ["error"] is reported as 2, ["warn"] as 1. *)
Definition severity_warn : Z := 1.
Definition severity_error : Z := 2.

(** The options [configureESLint] passes to [new ESLint] (l. 243-261). *)
Record ESLintOptions `{TypeScriptTypes} := {
  allowInlineConfig : bool;
  cwd : string;
  overrideConfigFile : bool;
  rules : list (string * Z);
  programs : list Program;
}.

Class ESLintApi `{TypeScriptTypes} := {
  lintFiles : ESLintOptions -> Disk -> list string -> Completion (list LintResult);
}.

End ESLint.

Module Eslint.

Record ESLintError := {
  filePath : string;
  line : Z;
  column : Z;
  message : string;
  ruleId : option string;
  severity : Z;
}.

(** [utils/linting-rules.ts] *)
Definition LINTING_RULES : list (string * Z) :=
  [("@typescript-eslint/no-explicit-any", ESLint.severity_error)].

Section WithLinter.
Context `{NodePath} `{TypeScript} `{!ESLint.ESLintApi}.

Definition configureESLint (disk : Disk) (project : Project) : ESLint.ESLintOptions :=
  {| ESLint.allowInlineConfig := false;
     ESLint.cwd := path_dirname (Project.path project);
     ESLint.overrideConfigFile := true;
     ESLint.rules := LINTING_RULES;
     ESLint.programs := [createOrGetWatchProgram disk (Project.tsconfigPath project)] |}.

(** [getESLintErrorsForFile] (l. 263-284): every message of every result is
    copied, whatever its severity. *)
Definition getESLintErrorsForFile (eslint : ESLint.ESLintOptions) (disk : Disk)
    (file : string) : Completion (list ESLintError) :=
  results ← ESLint.lintFiles eslint disk [file];
  Return
    (List.concat
       (List.map
          (fun result =>
             List.map
               (fun m =>
                  {| column := ESLint.column m;
                     filePath := ESLint.filePath result;
                     line := ESLint.line m;
                     message := ESLint.message m;
                     ruleId := ESLint.ruleId m;
                     severity := ESLint.severity m |})
               (ESLint.messages result))
          results)).

(** [getProjectSourceFiles] (l. 302-311) *)
Definition getProjectSourceFiles (disk : Disk) (project : Project) : list string :=
  List.map fileName
    (List.filter
       (fun sf =>
          JsString.endsWith (fileName sf) ".ts" &&
          negb (JsString.includes (fileName sf) "node_modules"))
       (getSourceFiles (createOrGetWatchProgram disk (Project.tsconfigPath project)))).

(** [getAllESLintErrors] (l. 286-300); the progress output is not modelled. *)
Fixpoint lintAll (eslint : ESLint.ESLintOptions) (disk : Disk) (files : list string)
  : Completion (list ESLintError) :=
  match files with
  | [] => Return []
  | f :: files' =>
      errors ← getESLintErrorsForFile eslint disk f;
      rest ← lintAll eslint disk files';
      Return (errors ++ rest)
  end.

Definition getAllESLintErrors (eslint : ESLint.ESLintOptions) (disk : Disk)
    (project : Project) : Completion (list ESLintError) :=
  lintAll eslint disk (getProjectSourceFiles disk project).

(** [getESLintErrors] (l. 232-241) *)
Definition getESLintErrors (disk : Disk) (project : Project)
    (file : option string) : Completion (list ESLintError) :=
  let eslint := configureESLint disk project in
  match file with
  | Some f => getESLintErrorsForFile eslint disk f
  | None => getAllESLintErrors eslint disk project
  end.

End WithLinter.
End Eslint.

(** ** The diagnostic aggregator ([utils/project-errors.ts]) *)

Module ProjectErrors.

Inductive ErrorSource : Set := src_typescript | src_eslint.

#[global] Instance ErrorSource_eq_dec : EqDecision ErrorSource.
Proof. solve_decision. Defined.

(** [code: string | number | null] *)
Inductive ErrorCode : Set :=
  | CodeNumber (n : Z)
  | CodeString (s : string)
  | CodeNull.

Record ProjectError := {
  source : ErrorSource;
  filePath : string;
  line : Z;
  column : Z;
  message : string;
  code : ErrorCode;
}.

Section WithCheckers.
Context `{NodePath} `{TypeScript} `{!ESLint.ESLintApi}.

(** [convertTsDiagnostic] (l. 35-52) *)
Definition convertTsDiagnostic (diagnostic : Diagnostic) : Completion ProjectError :=
  match file diagnostic, start diagnostic with
  | Some f, Some st =>
      let lc := getLineAndCharacterOfPosition f st in
      Return
        {| code := CodeNumber (Ts.code diagnostic);
           column := lc_character lc + 1;
           filePath := fileName f;
           line := lc_line lc + 1;
           message := flattenDiagnosticMessageText (messageText diagnostic) JsString.newline;
           source := src_typescript |}
  | _, _ => Throw (error "Diagnostic must have file and start properties")
  end.

(** [convertESLintError] (l. 54-63) *)
Definition convertESLintError (e : Eslint.ESLintError) : ProjectError :=
  {| code := match Eslint.ruleId e with
             | Some r => CodeString r
             | None => CodeNull
             end;
     column := Eslint.column e;
     filePath := Eslint.filePath e;
     line := Eslint.line e;
     message := Eslint.message e;
     source := src_eslint |}.

(** [project.phase === 1 || project.language === "javascript"]: the getter
    is only reached, and can only throw, when the phase is not 1. *)
Definition skipsLinting (project : Project) : Completion bool :=
  if bool_decide (Project.phase project = 1) then Return true
  else
    l ← Project.language project;
    Return (bool_decide (l = javascript)).

(** [getErrors] (l. 19-33) *)
Definition getErrors (disk : Disk) (project : Project) (file : option string)
  : Completion (list ProjectError) :=
  tsErrors ← Typescript.getTsErrors disk project file None;
  projectErrors ← mapM convertTsDiagnostic tsErrors;
  skip ← skipsLinting project;
  if (skip : bool) then Return projectErrors
  else
    eslintErrors ← Eslint.getESLintErrors disk project file;
    Return (projectErrors ++ List.map convertESLintError eslintErrors).

End WithCheckers.

(** [groupErrorsByFile] (l. 72-80): a record keyed by path; its keys come
    back in insertion order (paths are not array indices). *)
Fixpoint insertGrouped (e : ProjectError) (groups : list (string * list ProjectError))
  : list (string * list ProjectError) :=
  match groups with
  | [] => [(filePath e, [e])]
  | (k, es) :: groups' =>
      if String.eqb k (filePath e) then (k, es ++ [e]) :: groups'
      else (k, es) :: insertGrouped e groups'
  end.

Definition groupErrorsByFile (errors : list ProjectError)
  : list (string * list ProjectError) :=
  List.fold_left (fun acc e => insertGrouped e acc) errors [].

Section WithCheckers.
Context `{NodePath} `{TypeScript} `{!ESLint.ESLintApi}.

(** [getErrorsPerFile] (l. 65-70) *)
Definition getErrorsPerFile (disk : Disk) (project : Project)
  : Completion (list (string * list ProjectError)) :=
  errors ← getErrors disk project None;
  Return (groupErrorsByFile errors).

End WithCheckers.

End ProjectErrors.

(** ** The report sent to the agent ([utils/error-formatting.ts]) *)

Module ErrorFormatting.
Import ProjectErrors.

Definition MAX_ERRORS_PER_BATCH : Z := 100.

Record ErrorsWithContext := {
  errors : list ProjectError;
  codeContext : string;
}.

(** [determineContextSize] (l. 26-30) *)
Definition determineContextSize (errorCount : Z) : Z :=
  if 50 <=? errorCount then 1
  else if 10 <=? errorCount then 2
  else 3.

(** [formatLine] (l. 70-78) *)
Definition formatLine (lineNumber : Z) (content : string) (isErrorLine : bool) : string :=
  let marker := if isErrorLine then ">" else " " in
  let lineNumStr := padStart 4 (toString lineNumber) in
  marker +:+ " " +:+ lineNumStr +:+ " | " +:+ content.

(** [lines[index]]: [undefined] below zero and past the end. *)
Definition at_index (lines : list string) (index : Z) : option string :=
  if index <? 0 then None else lines !! Z.to_nat index.

(** The indices [startLine, ..., endLine] of the [for] loop. *)
Definition indices (startLine endLine : Z) : list Z :=
  List.map (fun k => startLine + Z.of_nat k)
    (List.seq 0 (Z.to_nat (endLine - startLine + 1))).

(** [formatCodeContext] (l. 50-68) *)
Definition formatCodeContext (disk : Disk) (filePath : string)
    (errorLine contextSize : Z) : Completion string :=
  content ← readFile disk filePath;
  let lines := JsString.splitLines content in
  let startLine := errorLine - contextSize in
  let endLine := errorLine + contextSize in
  let formattedLines :=
    List.concat
      (List.map
         (fun index =>
            match at_index lines index with
            | Some content => [formatLine (index + 1) content (index =? errorLine)]
            | None => []
            end)
         (indices startLine endLine)) in
  Return (JsString.join JsString.newline formattedLines).

(** The [Map] of [groupErrorsByLocation]: keys in insertion order. *)
Abbreviation LocationMap := (list (string * ErrorsWithContext)).

Fixpoint map_get (m : LocationMap) (key : string) : option ErrorsWithContext :=
  match m with
  | [] => None
  | (k, v) :: m' => if String.eqb k key then Some v else map_get m' key
  end.

(** [existing.errors.push(error)] on the entry stored under [key] *)
Fixpoint map_push (m : LocationMap) (key : string) (error : ProjectError) : LocationMap :=
  match m with
  | [] => []
  | (k, v) :: m' =>
      if String.eqb k key
      then (k, {| errors := errors v ++ [error]; codeContext := codeContext v |}) :: m'
      else (k, v) :: map_push m' key error
  end.

(** One turn of the loop of [groupErrorsByLocation] (l. 37-46). *)
Definition groupStep (disk : Disk) (contextSize : Z) (errorsByLocation : LocationMap)
    (error : ProjectError) : Completion LocationMap :=
  let line := line error - 1 in
  let key := filePath error +:+ ":" +:+ toString line in
  match map_get errorsByLocation key with
  | Some _ => Return (map_push errorsByLocation key error)
  | None =>
      codeContext ← formatCodeContext disk (filePath error) line contextSize;
      Return (errorsByLocation ++ [(key, {| errors := [error]; codeContext := codeContext |})])
  end.

Fixpoint groupLoop (disk : Disk) (contextSize : Z) (errorsByLocation : LocationMap)
    (errors : list ProjectError) : Completion LocationMap :=
  match errors with
  | [] => Return errorsByLocation
  | error :: rest =>
      errorsByLocation' ← groupStep disk contextSize errorsByLocation error;
      groupLoop disk contextSize errorsByLocation' rest
  end.

(** [groupErrorsByLocation] (l. 32-48): only [errors.slice(0, 100)] is visited. *)
Definition groupErrorsByLocation (disk : Disk) (errors : list ProjectError)
    (contextSize : Z) : Completion LocationMap :=
  groupLoop disk contextSize [] (take (Z.to_nat MAX_ERRORS_PER_BATCH) errors).

Definition codeToString (c : ErrorCode) : string :=
  match c with
  | CodeNumber n => toString n
  | CodeString s => s
  | CodeNull => "null"
  end.

(** [formatErrors] (l. 92-103) *)
Definition formatError (project : Project) (error : ProjectError) : string :=
  let relativePath := JsString.replace (filePath error) (Project.path project +:+ "/") "" in
  let codePrefix := if bool_decide (source error = src_typescript) then "TS" else "" in
  let codeInfo := match code error with
                  | CodeNull => ""
                  | c => " (" +:+ codePrefix +:+ codeToString c +:+ ")"
                  end in
  relativePath +:+ ":" +:+ toString (line error) +:+ ":" +:+ toString (column error)
    +:+ " - " +:+ message error +:+ codeInfo.

Definition formatErrors (errors : list ProjectError) (project : Project) : string :=
  JsString.join JsString.newline (List.map (formatError project) errors).

(** [formatErrorGroups] (l. 80-90) *)
Definition formatErrorGroups (errorsByLocation : LocationMap) (project : Project) : string :=
  JsString.join (JsString.newline +:+ JsString.newline)
    (List.map
       (fun '(_, group) =>
          formatErrors (errors group) project +:+ JsString.newline +:+ codeContext group)
       errorsByLocation).

(** The header put before the groups when more than 100 errors exist. *)
Definition batchHeader (errorCount : Z) : string :=
  "There are " +:+ toString errorCount +:+ " errors in total, here are the first "
    +:+ toString MAX_ERRORS_PER_BATCH +:+ ":" +:+ JsString.newline +:+ JsString.newline.

(** [formatErrorsWithContext] (l. 12-24) *)
Definition formatErrorsWithContext (disk : Disk) (errors : list ProjectError)
    (project : Project) : Completion string :=
  let errorCount := Z.of_nat (length errors) in
  let contextSize := determineContextSize errorCount in
  errorsByLocation ← groupErrorsByLocation disk errors contextSize;
  let formattedErrors := formatErrorGroups errorsByLocation project in
  if MAX_ERRORS_PER_BATCH <? errorCount
  then Return (batchHeader errorCount +:+ formattedErrors)
  else Return formattedErrors.

End ErrorFormatting.

(** ** The transpilation-comparison hook ([utils/file-modification-hook.ts]) *)

(** The [diff] package. *)
Class DiffApi := {
  createPatch : string -> string -> string -> string -> string -> string;
}.

Module FileModificationHook.

(** [tool_input: unknown], decoded as far as [extractFilePath] looks at it:
    an object with a string [file_path], or anything else. *)
Inductive ToolInput : Set :=
  | WithFilePath (file_path : string)
  | OtherInput.

Inductive HookEventName : Set :=
  | PreToolUse
  | PostToolUse
  | OtherEvent.

Record HookInput := {
  hook_event_name : HookEventName;
  tool_name : string;
  tool_input : ToolInput;
}.

(** [HookJSONOutput]: [{}] or an additional context for the agent's next turn. *)
Inductive HookJSONOutput : Set :=
  | EmptyOutput
  | HookSpecificOutput (hookEventName : HookEventName) (additionalContext : string).

(** The module-level [const original = new Map<string, string>()] (l. 248)
    is one store shared by every hook state of the process; the counter is a
    field of each [FileModificationHookState].  [console] collects what
    [console.error] printed. *)
Record HookWorld := {
  original : gmap string string;
  behaviorModificationsDetected : Z;
  console : list string;
}.

Definition set_original (o : gmap string string) (w : HookWorld) : HookWorld :=
  {| original := o;
     behaviorModificationsDetected := behaviorModificationsDetected w;
     console := console w |}.

Definition count_modification (w : HookWorld) : HookWorld :=
  {| original := original w;
     behaviorModificationsDetected := behaviorModificationsDetected w + 1;
     console := console w |}.

Definition console_error (line : string) (w : HookWorld) : HookWorld :=
  {| original := original w;
     behaviorModificationsDetected := behaviorModificationsDetected w;
     console := console w ++ [line] |}.

(** [isFileModificationTool] (l. 353-356) *)
Definition isFileModificationTool (toolName : string) : bool :=
  bool_decide (toolName ∈ ["Edit"; "MultiEdit"]).

Section WithProject.
Context `{NodePath} `{TypeScript} `{DiffApi}.
Variable project : Project.
(** The working copy at the moment the hook runs. *)
Variable disk : Disk.

(** [extractFilePath] (l. 320-333) *)
Definition extractFilePath (toolInput : ToolInput) : Completion string :=
  match toolInput with
  | WithFilePath filePathValue =>
      Return (if path_isAbsolute filePathValue then filePathValue
              else path_resolve (Project.path project) filePathValue)
  | OtherInput => Throw (error "Invalid tool input: missing file_path")
  end.

(** [handlePreToolUseEvent] (l. 286-298) *)
Definition handlePreToolUseEvent (input : HookInput) (w : HookWorld)
  : Completion HookJSONOutput * HookWorld :=
  if negb (isFileModificationTool (tool_name input)) then (Return EmptyOutput, w)
  else
    match extractFilePath (tool_input input) with
    | Throw e => (Throw e, w)
    | Return filePath =>
        match original w !! filePath with
        | Some _ => (Return EmptyOutput, w)
        | None =>
            match Typescript.transpile disk filePath project with
            | Throw e => (Throw e, w)
            | Return transpiled =>
                (Return EmptyOutput, set_original (<[filePath := transpiled]> (original w)) w)
            end
        end
    end.

(** [detectRuntimeChange] (l. 335-350): [null] is [None]. *)
Definition detectRuntimeChange (w : HookWorld) (filePath : string)
  : Completion (option string) :=
  match original w !! filePath with
  | None => Throw (error ("Missing original code for " +:+ filePath))
  | Some originalCode =>
      currentCode ← Typescript.transpile disk filePath project;
      if String.eqb originalCode currentCode then Return None
      else Return (Some (createPatch filePath originalCode currentCode "original" "modified"))
  end.

(** The text handed back to the agent (l. 310-314). *)
Definition correctionDirective (filePath diff : string) : string :=
  "CRITICAL: You modified the runtime behavior in '" +:+ filePath +:+ "'."
    +:+ JsString.newline +:+ JsString.newline
    +:+ "You MUST NOT change any code logic." +:+ JsString.newline +:+ JsString.newline
    +:+ "Here is the diff showing the runtime changes you made:"
    +:+ JsString.newline +:+ JsString.newline +:+ "<diff>" +:+ JsString.newline
    +:+ diff +:+ "</diff>" +:+ JsString.newline +:+ JsString.newline
    +:+ "Revert ALL runtime changes immediately.".

(** [handlePostToolUseEvent] (l. 300-318) *)
Definition handlePostToolUseEvent (input : HookInput) (w : HookWorld)
  : Completion HookJSONOutput * HookWorld :=
  if negb (isFileModificationTool (tool_name input)) then (Return EmptyOutput, w)
  else
    match extractFilePath (tool_input input) with
    | Throw e => (Throw e, w)
    | Return filePath =>
        match detectRuntimeChange w filePath with
        | Throw e => (Throw e, w)
        | Return None => (Return EmptyOutput, w)
        | Return (Some diff) =>
            (Return (HookSpecificOutput PostToolUse (correctionDirective filePath diff)),
             count_modification w)
        end
    end.

(** [`${error}`] of a thrown [Error]: its name and message. *)
Definition errorToString (cls : ErrorClass) (message : string) : string :=
  "Error: " +:+ message.

(** The callback built by [createHook] (l. 263-284): whatever a handler
    throws is caught, printed and answered with [{}]. *)
Definition hook (input : HookInput) (w : HookWorld) : HookJSONOutput * HookWorld :=
  let '(c, w') :=
    match hook_event_name input with
    | PreToolUse => handlePreToolUseEvent input w
    | PostToolUse => handlePostToolUseEvent input w
    | OtherEvent => (Return EmptyOutput, w)
    end in
  match c with
  | Return out => (out, w')
  | Throw (ThrownError cls message) =>
      (EmptyOutput,
       console_error ("Error in file modification hook: " +:+ errorToString cls message) w')
  | Throw ThrownOther =>
      (EmptyOutput, console_error "Error in file modification hook: Unknown error" w')
  end.

End WithProject.

(** A run of the hook over successive events, each with the working copy
    found at that moment. *)
Fixpoint hooks `{NodePath} `{TypeScript} `{DiffApi} (project : Project)
    (events : list (HookInput * Disk)) (w : HookWorld)
  : list HookJSONOutput * HookWorld :=
  match events with
  | [] => ([], w)
  | (input, disk) :: events' =>
      let '(out, w') := hook project disk input w in
      let '(outs, w'') := hooks project events' w' in
      (out :: outs, w'')
  end.

End FileModificationHook.

(** ** Invoking the agent ([utils/claude-code.ts]) *)

Module ClaudeCode.

Record ClaudeResult := {
  costUsd : Q;
  durationSeconds : Q;
  result : string;
  sessionId : string;
  turns : Z;
}.

(** The one content block of an assistant message (l. 203-207). *)
Inductive AssistantMessageContent : Set :=
  | TextContent (text : string)
  | ThinkingContent (thinking : string)
  | ToolUseContent (name : string) (input : string).

Record SDKResultMessage := {
  success : bool;
  total_cost_usd : Q;
  duration_ms : Q;
  result_text : string;
  session_id : string;
  num_turns : Z;
}.

Inductive SDKMessage : Set :=
  | UserMessage
  | AssistantMessage (content : AssistantMessageContent)
  | ResultMessage (r : SDKResultMessage)
  | SystemMessage
  | UnsupportedMessage (type : string).

(** [Options], the fields [runClaudeCode] sets; the hooks are those of the
    controller's hook state. *)
Record Options := {
  cwd : string;
  permissionMode : string;
  resume : option string;
}.

(** [assistantMessageStartsWith] (l. 69-76) *)
Definition assistantMessageStartsWith (pre : string) (content : AssistantMessageContent) : bool :=
  match content with
  | TextContent text => startsWith text pre
  | _ => false
  end.

(** [isErrorAndMayContinue] (l. 51-67) *)
Definition isErrorAndMayContinue (message : AssistantMessageContent) : Completion bool :=
  if assistantMessageStartsWith "API Error: 400" message then Return true
  else if assistantMessageStartsWith "Session limit reached" message
  then Throw (ThrownError ClaudeSessionLimitError "Claude session limit reached")
  else if assistantMessageStartsWith "Weekly limit reached" message
  then Throw (ThrownError ClaudeSessionLimitError "Claude weekly limit reached")
  else if assistantMessageStartsWith "Usage limit reached" message
  then Throw (ThrownError ClaudeSessionLimitError "Claude usage limit reached")
  else if assistantMessageStartsWith "Prompt is too long" message
  then Throw (ThrownError ClaudePromptLimitError "Prompt is too long")
  else Return false.

(** [logMessage] (l. 91-114), as far as it can end the call: the text it
    prints is not modelled. *)
Definition logMessage (message : SDKMessage) : Completion unit :=
  match message with
  | UnsupportedMessage type =>
      if bool_decide (type ∈ ["stream_event"; "tool_progress"; "auth_status"])
      then Throw (error ("Message type " +:+ type +:+ " are not supported"))
      else Throw (error "Unknown message type")
  | _ => Return tt
  end.

(** What consuming the stream of one [query] comes to (the [for await]
    of l. 28-47): a thrown value, the first successful result together with
    the flag [shouldContinueAfterError], or the end of the stream. *)
Inductive StreamEnd : Type :=
  | Succeeded (r : ClaudeResult) (shouldContinueAfterError : bool)
  | Ended.

Fixpoint consume (verbose : bool) (shouldContinueAfterError : bool)
    (messages : list SDKMessage) : Completion StreamEnd :=
  match messages with
  | [] => Return Ended
  | message :: rest =>
      _ ← (if verbose then logMessage message else Return tt);
      flag ← match message with
             | AssistantMessage content =>
                 b ← isErrorAndMayContinue content;
                 Return (if (b : bool) then true else shouldContinueAfterError)
             | _ => Return shouldContinueAfterError
             end;
      match message with
      | ResultMessage r =>
          if success r
          then Return
                 (Succeeded
                    {| costUsd := total_cost_usd r;
                       durationSeconds := (duration_ms r / 1000)%Q;
                       result := result_text r;
                       sessionId := session_id r;
                       turns := num_turns r |}
                    flag)
          else consume verbose flag rest
      | _ => consume verbose flag rest
      end
  end.

End ClaudeCode.

(** The agent SDK: one [query] turns the state of the agent service, the
    working copy and the hook state into a stream of messages and their next
    states. *)
Class AgentSdk := {
  Agent : Type;
  query : Agent -> Disk -> FileModificationHook.HookWorld -> string -> ClaudeCode.Options ->
          list ClaudeCode.SDKMessage * (Agent * Disk * FileModificationHook.HookWorld);
}.

(** ** State of a run and its monad *)

Module Run.
Section WithSdk.
Context `{AgentSdk}.

Record World := {
  agent : Agent;
  disk : Disk;
  hookWorld : FileModificationHook.HookWorld;
  (** how many times [query] was called *)
  queries : nat;
  (** what [console.log] printed *)
  log : list string;
}.

(** A computation on the world that may throw; [None] when the budget of
    nested continuations is used up before it ends. *)
Definition M (A : Type) : Type := World -> option (Completion A * World).

Definition ret {A} (a : A) : M A := fun w => Some (Return a, w).

Definition throw {A} (e : Thrown) : M A := fun w => Some (Throw e, w).

Definition bindM {A B} (c : M A) (k : A -> M B) : M B :=
  fun w =>
    match c w with
    | None => None
    | Some (Return a, w') => k a w'
    | Some (Throw e, w') => Some (Throw e, w')
    end.

Definition catch {A} (c : M A) (h : Thrown -> M A) : M A :=
  fun w =>
    match c w with
    | None => None
    | Some (Return a, w') => Some (Return a, w')
    | Some (Throw e, w') => h e w'
    end.

Definition lift {A} (c : Completion A) : M A := fun w => Some (c, w).

Definition get_disk : M Disk := fun w => Some (Return (disk w), w).

Definition get_hookWorld : M FileModificationHook.HookWorld :=
  fun w => Some (Return (hookWorld w), w).

Definition put_disk (d : Disk) : M unit :=
  fun w =>
    Some (Return tt,
          {| agent := agent w; disk := d; hookWorld := hookWorld w;
             queries := queries w; log := log w |}).

Definition console_log (line : string) : M unit :=
  fun w =>
    Some (Return tt,
          {| agent := agent w; disk := disk w; hookWorld := hookWorld w;
             queries := queries w; log := log w ++ [line] |}).

(** One call of the SDK's [query]. *)
Definition run_query (prompt : string) (options : ClaudeCode.Options)
  : M (list ClaudeCode.SDKMessage) :=
  fun w =>
    let '(messages, (a, d, h)) := query (agent w) (disk w) (hookWorld w) prompt options in
    Some (Return messages,
          {| agent := a; disk := d; hookWorld := h;
             queries := S (queries w); log := log w |}).

End WithSdk.
End Run.

#[global] Instance run_ret `{AgentSdk} : MRet Run.M := @Run.ret _.
#[global] Instance run_bind `{AgentSdk} : MBind Run.M :=
  fun A B (k : A -> Run.M B) (c : Run.M A) => Run.bindM c k.

Module ClaudeCodeRun.
Import ClaudeCode.
Section WithSdk.
Context `{AgentSdk}.

(** [claudeCode] (l. 22-49) with [continueAfterError] (l. 78-89).  Each
    continuation is a further call of [claudeCode]; [fuel] bounds their
    nesting. *)
Fixpoint claudeCode (fuel : nat) (prompt : string) (options : Options) (verbose : bool)
  : Run.M ClaudeResult :=
  match fuel with
  | O => fun _ => None
  | S fuel' =>
      messages ← Run.run_query prompt options;
      outcome ← Run.lift (consume verbose false messages);
      match outcome with
      | Ended => Run.throw (error "Claude API query failed")
      | Succeeded intermediateResult false => Run.ret intermediateResult
      | Succeeded intermediateResult true =>
          _ ← Run.console_log "Claude API Error detected, continuing the session...";
          let newOptions :=
            {| cwd := cwd options;
               permissionMode := permissionMode options;
               resume := Some (sessionId intermediateResult) |} in
          continueResult ← claudeCode fuel' "Continue" newOptions verbose;
          Run.ret
            {| costUsd := (costUsd continueResult + costUsd intermediateResult)%Q;
               durationSeconds :=
                 (durationSeconds continueResult + durationSeconds intermediateResult)%Q;
               result := result continueResult;
               sessionId := sessionId continueResult;
               turns := turns continueResult |}
      end
  end.

End WithSdk.
End ClaudeCodeRun.

(** ** The iteration controller ([agents/errors/fix-errors.ts]) *)

(** The prompt files shipped next to the controller
    ([prompts/phase<n>-<language>.md]), by file name. *)
Class PromptFiles := {
  readPromptFile : string -> Completion string;
}.

Module FixErrors.
Import ProjectErrors.

Definition MAX_ITERATIONS_PER_100_ERRORS : Z := 5.

(** [calculateMaxIterations] (l. 192-195).  The count is an array length, so
    the product is an exact integer and [Math.floor] of the quotient is the
    integer quotient. *)
Definition calculateMaxIterations (initialErrorCount : Z) : Z :=
  if initialErrorCount <? 100 then MAX_ITERATIONS_PER_100_ERRORS
  else (initialErrorCount * MAX_ITERATIONS_PER_100_ERRORS) / 100.

Record Stats := {
  behaviorModificationsDetected : Z;
  costUsd : Q;
  initialErrorCount : Z;
  iterations : Z;
  remainingErrorCount : Z;
  timeSeconds : Q;
  turns : Z;
}.

Definition initialStats : Stats :=
  {| behaviorModificationsDetected := 0; costUsd := 0; initialErrorCount := 0;
     iterations := 0; remainingErrorCount := 0; timeSeconds := 0; turns := 0 |}.

(** The fields of a [FixErrorsAgent]; the hook state lives in the world. *)
Record FixErrorsAgent := {
  project : Project;
  filePath : option string;
  sessionId : option string;
  stats : Stats;
}.

Definition scope (a : FixErrorsAgent) : string :=
  match filePath a with
  | Some f => f
  | None => "the project"
  end.

Definition new (project : Project) (filePath : option string) : FixErrorsAgent :=
  {| project := project; filePath := filePath; sessionId := None; stats := initialStats |}.

Definition with_sessionId (s : option string) (a : FixErrorsAgent) : FixErrorsAgent :=
  {| project := project a; filePath := filePath a; sessionId := s; stats := stats a |}.

Definition with_stats (st : Stats) (a : FixErrorsAgent) : FixErrorsAgent :=
  {| project := project a; filePath := filePath a; sessionId := sessionId a; stats := st |}.

Definition set_initialErrorCount (n : Z) (st : Stats) : Stats :=
  {| behaviorModificationsDetected := behaviorModificationsDetected st;
     costUsd := costUsd st; initialErrorCount := n; iterations := iterations st;
     remainingErrorCount := remainingErrorCount st; timeSeconds := timeSeconds st;
     turns := turns st |}.

Definition set_iterations (n : Z) (st : Stats) : Stats :=
  {| behaviorModificationsDetected := behaviorModificationsDetected st;
     costUsd := costUsd st; initialErrorCount := initialErrorCount st; iterations := n;
     remainingErrorCount := remainingErrorCount st; timeSeconds := timeSeconds st;
     turns := turns st |}.

Definition set_remainingErrorCount (n : Z) (st : Stats) : Stats :=
  {| behaviorModificationsDetected := behaviorModificationsDetected st;
     costUsd := costUsd st; initialErrorCount := initialErrorCount st;
     iterations := iterations st; remainingErrorCount := n;
     timeSeconds := timeSeconds st; turns := turns st |}.

Section WithCollaborators.
Context `{NodePath} `{TypeScript} `{!ESLint.ESLintApi} `{AgentSdk} `{PromptFiles}.

(** The nesting allowed to the continuations of one invocation. *)
Variable fuel : nat.

(** [checkErrors] (l. 75-81) *)
Definition checkErrors (a : FixErrorsAgent) : Run.M (list ProjectError) :=
  d ← Run.get_disk;
  errors ← Run.lift (getErrors d (project a) (filePath a));
  _ ← (if bool_decide (length errors = 0%nat)
       then Run.console_log ("All errors in " +:+ scope a +:+ " have been fixed.")
       else Run.ret tt);
  Run.ret errors.

Definition languageName (l : Language) : string :=
  match l with
  | javascript => "javascript"
  | typescript => "typescript"
  end.

(** [loadPromptTemplate] (l. 128-132) *)
Definition loadPromptTemplate (a : FixErrorsAgent) (phase : Z) : Completion string :=
  l ← Project.language (project a);
  readPromptFile ("phase" +:+ toString phase +:+ "-" +:+ languageName l +:+ ".md").

Definition remainingErrorsPrompt (a : FixErrorsAgent) (formattedErrors : string) : string :=
  "Not all errors are fixed in " +:+ scope a +:+ ". Here are the remaining errors:"
    +:+ JsString.newline +:+ JsString.newline +:+ formattedErrors.

(** [buildPhase1Prompt] (l. 103-110) *)
Definition buildPhase1Prompt (a : FixErrorsAgent) (formattedErrors : string)
  : Completion string :=
  match sessionId a with
  | None =>
      promptTemplate ← loadPromptTemplate a 1;
      Return ("You are establishing a zero errors baseline for " +:+ scope a +:+ "."
                +:+ JsString.newline +:+ promptTemplate +:+ JsString.newline
                +:+ formattedErrors)
  | Some _ => Return (remainingErrorsPrompt a formattedErrors)
  end.

(** [buildPhase2Prompt] (l. 112-126) *)
Definition buildPhase2Prompt (a : FixErrorsAgent) (formattedErrors : string)
  : Completion string :=
  match filePath a, sessionId a with
  | Some _, None =>
      promptTemplate ← loadPromptTemplate a 2;
      Return ("You are improving TypeScript 'any' coverage for " +:+ scope a +:+ "."
                +:+ JsString.newline +:+ promptTemplate +:+ JsString.newline
                +:+ formattedErrors)
  | Some _, Some _ =>
      if bool_decide (iterations (stats a) mod MAX_ITERATIONS_PER_100_ERRORS = 2)
      then Return ("Not all errors are fixed in " +:+ scope a
                     +:+ ". Fix remaining errors by refining the type definitions you just created or addressing newly discovered issues. Here are the remaining errors:"
                     +:+ JsString.newline +:+ JsString.newline +:+ formattedErrors)
      else Return (remainingErrorsPrompt a formattedErrors)
  | None, None =>
      promptTemplate ← loadPromptTemplate a 1;
      Return ("You are resolving type errors which were caused by adding type annotations to the project. Review and fix the existing type annotations."
                +:+ JsString.newline +:+ promptTemplate +:+ JsString.newline
                +:+ formattedErrors)
  | None, Some _ => Return (remainingErrorsPrompt a formattedErrors)
  end.

(** [buildPrompt] (l. 93-101) *)
Definition buildPrompt (a : FixErrorsAgent) (formattedErrors : string) : Completion string :=
  if bool_decide (Project.phase (project a) = 1)
  then buildPhase1Prompt a formattedErrors
  else buildPhase2Prompt a formattedErrors.

(** [runClaudeCode] (l. 134-154) *)
Definition runClaudeCode (a : FixErrorsAgent) (prompt : string) : Run.M FixErrorsAgent :=
  let options :=
    {| ClaudeCode.cwd := Project.path (project a);
       ClaudeCode.permissionMode := "acceptEdits";
       ClaudeCode.resume := sessionId a |} in
  let verbose := bool_decide (Project.phase (project a) = 2) in
  r ← ClaudeCodeRun.claudeCode fuel prompt options verbose;
  hookState ← Run.get_hookWorld;
  Run.ret
    {| project := project a;
       filePath := filePath a;
       sessionId := Some (ClaudeCode.sessionId r);
       stats :=
         {| behaviorModificationsDetected :=
              FileModificationHook.behaviorModificationsDetected hookState;
            costUsd := (costUsd (stats a) + ClaudeCode.costUsd r)%Q;
            initialErrorCount := initialErrorCount (stats a);
            iterations := iterations (stats a);
            remainingErrorCount := remainingErrorCount (stats a);
            timeSeconds := timeSeconds (stats a);
            turns := turns (stats a) + ClaudeCode.turns r |} |}.

(** [handleClaudeError] (l. 156-165) *)
Definition handleClaudeError (a : FixErrorsAgent) (e : Thrown) : Run.M unit :=
  match e, filePath a with
  | ThrownError ClaudePromptLimitError _, Some f =>
      d ← Run.get_disk;
      fileContent ← Run.lift (readFile d f);
      let contentWithNoCheck := "// @ts-nocheck" +:+ JsString.newline +:+ fileContent in
      Run.put_disk (writeFile d f contentWithNoCheck)
  | _, _ => Run.throw e
  end.

(** [fixErrors] (l. 83-91) *)
Definition fixErrors (a : FixErrorsAgent) (errors : list ProjectError)
  : Run.M FixErrorsAgent :=
  d ← Run.get_disk;
  formattedErrors ← Run.lift (ErrorFormatting.formatErrorsWithContext d errors (project a));
  prompt ← Run.lift (buildPrompt a formattedErrors);
  Run.catch (runClaudeCode a prompt)
    (fun e => _ ← handleClaudeError a e; Run.ret a).

(** The [for] loop of [runFixingIterations] (l. 59-67): [remaining] turns
    are left, the next one is numbered [iteration].  The flag tells whether
    the loop was left by the [return] of l. 64. *)
Fixpoint iterate (remaining : nat) (iteration : Z) (a : FixErrorsAgent)
    (errors : list ProjectError) : Run.M (FixErrorsAgent * list ProjectError * bool) :=
  match remaining with
  | O => Run.ret (a, errors, false)
  | S remaining' =>
      let a1 := with_stats (set_iterations iteration (stats a)) a in
      a2 ← fixErrors a1 errors;
      errors' ← checkErrors a2;
      let a3 := with_stats (set_remainingErrorCount (Z.of_nat (length errors')) (stats a2)) a2 in
      if bool_decide (length errors' = 0%nat) then Run.ret (a3, errors', true)
      else
        let a4 := if bool_decide (iteration mod MAX_ITERATIONS_PER_100_ERRORS = 0)
                  then with_sessionId None a3 else a3 in
        iterate remaining' (iteration + 1) a4 errors'
  end.

(** [runFixingIterations] (l. 53-73) *)
Definition runFixingIterations (a : FixErrorsAgent) (initialErrors : list ProjectError)
  : Run.M FixErrorsAgent :=
  let count := Z.of_nat (length initialErrors) in
  let a0 := with_stats (set_initialErrorCount count (stats a)) a in
  let maxIterations := calculateMaxIterations count in
  '(a', errors, fixed) ← iterate (Z.to_nat maxIterations) 1 a0 initialErrors;
  if (fixed : bool) then Run.ret a'
  else
    _ ← Run.console_log
          ("Failed to fix all errors in " +:+ scope a' +:+ " after "
             +:+ toString maxIterations +:+ " iterations. "
             +:+ toString (Z.of_nat (length errors)) +:+ " error(s) remaining.");
    Run.ret a'.

(** [execute] (l. 46-50) *)
Definition execute (a : FixErrorsAgent) : Run.M FixErrorsAgent :=
  _ ← Run.console_log ("Fixing errors in " +:+ scope a +:+ "...");
  errors ← checkErrors a;
  if bool_decide (length errors = 0%nat) then Run.ret a
  else runFixingIterations a errors.

(** [FixErrorsAgent.run] (l. 38-44); the statistics file and the clock are
    not modelled, the agent's final [stats] are returned instead. *)
Definition run (project : Project) (filePath : option string) : Run.M Stats :=
  a ← execute (new project filePath);
  Run.ret (stats a).

End WithCollaborators.
End FixErrors.

(** ** JavaScript [Set]s of strings *)

(** A [Set<string>] iterates in insertion order: it is the list of its
    elements, each once. *)
Module JsSet.

Abbreviation t := (list string).

Definition has (s : t) (x : string) : bool := bool_decide (x ∈ s).

Definition add (s : t) (x : string) : t := if has s x then s else s ++ [x].

Definition delete (s : t) (x : string) : t :=
  List.filter (fun y => negb (String.eqb y x)) s.

(** [new Set(xs)] *)
Definition of_list (xs : list string) : t := List.fold_left add xs [].

(** [a.union(b)] *)
Definition union (a b : t) : t := List.fold_left add b a.

Definition size (s : t) : Z := Z.of_nat (length s).

End JsSet.

(** ** The dependency graph ([utils/file-dependencies.ts]) *)

(** The outcome of [extractFileDependencies] (l. 46-57) for one source file:
    the files its import, export and [require] specifiers resolve to,
    external libraries left out, in the order in which the visit first meets
    them. *)
Class ModuleResolution `{TypeScriptTypes} := {
  extractFileDependencies : Program -> SourceFile -> list string;
}.

Module FileDependencies.

(** [Map<string, Set<string>>] *)
Abbreviation DependencyGraph := (gmap string (list string)).

Section WithCompiler.
Context `{NodePath} `{TypeScript} `{!ModuleResolution}.

(** [getProjectSourceFiles] (l. 40-44) *)
Definition getProjectSourceFiles (program : Program) : list SourceFile :=
  List.filter (fun f => negb (isDeclarationFile f)) (getSourceFiles program).

(** [buildGraph] (l. 31-38) *)
Definition buildGraph (program : Program) : DependencyGraph :=
  List.fold_left
    (fun graph sourceFile =>
       <[fileName sourceFile := extractFileDependencies program sourceFile]> graph)
    (getProjectSourceFiles program) ∅.

(** [new DependencyGraph(tsconfigPath)] (l. 19-22) *)
Definition new (disk : Disk) (tsconfigPath : string) : DependencyGraph :=
  buildGraph (createOrGetWatchProgram disk tsconfigPath).

End WithCompiler.

(** [get] (l. 24-29) *)
Definition get (graph : DependencyGraph) (filePath : string) : Completion (list string) :=
  match graph !! filePath with
  | None => Throw (error ("No dependencies found for file: " +:+ filePath))
  | Some dependencies => Return dependencies
  end.

End FileDependencies.

(** ** The file schedule ([utils/file-queue.ts]) *)

Module FileQueue.

Record FileQueue := {
  dependencies : FileDependencies.DependencyGraph;
  unprocessedFiles : JsSet.t;
  processingFiles : JsSet.t;
}.

(** The constructor (l. 9-12), given the graph it builds. *)
Definition new (graph : FileDependencies.DependencyGraph) (files : list string) : FileQueue :=
  {| dependencies := graph;
     unprocessedFiles := JsSet.of_list files;
     processingFiles := [] |}.

(** A [number] that starts as [Number.POSITIVE_INFINITY]. *)
Inductive Num : Set :=
  | Finite (n : Z)
  | PositiveInfinity.

(** [deps < minDeps] *)
Definition lt_num (deps : Z) (minDeps : Num) : bool :=
  match minDeps with
  | Finite m => deps <? m
  | PositiveInfinity => true
  end.

(** [countUnprocessedDependencies] (l. 47-52) *)
Definition countUnprocessedDependencies (q : FileQueue) (filePath : string) : Completion Z :=
  fileDeps ← FileDependencies.get (dependencies q) filePath;
  Return
    (Z.of_nat
       (length
          (List.filter
             (fun dep => JsSet.has (JsSet.union (unprocessedFiles q) (processingFiles q)) dep)
             fileDeps))).

(** The loop of [selectFileWithLeastDependencies] (l. 36-42). *)
Fixpoint selectLoop (q : FileQueue) (files : list string)
    (bestFile : option string) (minDeps : Num) : Completion (option string) :=
  match files with
  | [] => Return bestFile
  | filePath :: rest =>
      deps ← countUnprocessedDependencies q filePath;
      if lt_num deps minDeps then selectLoop q rest (Some filePath) (Finite deps)
      else selectLoop q rest bestFile minDeps
  end.

(** [selectFileWithLeastDependencies] (l. 32-45) *)
Definition selectFileWithLeastDependencies (q : FileQueue) : Completion (option string) :=
  selectLoop q (unprocessedFiles q) None PositiveInfinity.

(** [shift] (l. 14-22) *)
Definition shift (q : FileQueue) : Completion (string * FileQueue) :=
  selected ← selectFileWithLeastDependencies q;
  match selected with
  | None => Throw (error "No more files to process")
  | Some file =>
      Return (file,
              {| dependencies := dependencies q;
                 unprocessedFiles := JsSet.delete (unprocessedFiles q) file;
                 processingFiles := JsSet.add (processingFiles q) file |})
  end.

(** [markAsProcessed] (l. 24-26) *)
Definition markAsProcessed (q : FileQueue) (filePath : string) : FileQueue :=
  {| dependencies := dependencies q;
     unprocessedFiles := unprocessedFiles q;
     processingFiles := JsSet.delete (processingFiles q) filePath |}.

(** [hasUnprocessedFiles] (l. 28-30) *)
Definition hasUnprocessedFiles (q : FileQueue) : bool :=
  0 <? JsSet.size (unprocessedFiles q).

End FileQueue.

(** ** The orchestrator ([agents/errors/fix-project-errors.ts]) *)

Module FixProjectErrors.

(** The workers of [fixErrorsInAllFiles] are cooperative tasks: each one
    calls [shift] when it starts, runs its controller, then calls
    [markAsProcessed] and, if a file is left, starts a successor.  What the
    controllers do to the working copy does not reach the queue (the
    dependency graph is built once), so the pool is modelled by its queue
    operations; in which order the running controllers end, and whether one
    ends by throwing, is given from outside. *)
Record Pool := {
  queue : FileQueue.FileQueue;
  (** the files of the running workers, oldest first *)
  running : list string;
  (** the files returned by [shift] so far *)
  order : list string;
  (** the first rejection among the workers' promises *)
  rejected : option Thrown;
}.

Definition reject (e : Thrown) (r : option Thrown) : option Thrown :=
  match r with
  | Some e0 => Some e0
  | None => Some e
  end.

(** The start of [processFileFromQueue] (l. 70): the worker takes a file,
    or its promise rejects with what [shift] threw. *)
Definition spawn (p : Pool) : Pool :=
  match FileQueue.shift (queue p) with
  | Return (file, q') =>
      {| queue := q'; running := running p ++ [file];
         order := order p ++ [file]; rejected := rejected p |}
  | Throw e =>
      {| queue := queue p; running := running p;
         order := order p; rejected := reject e (rejected p) |}
  end.

(** The rest of [processFileFromQueue] (l. 72-79) for the worker at
    position [i]: its controller ended, normally or by throwing [failure]. *)
Definition complete (p : Pool) (i : nat) (failure : option Thrown) : Pool :=
  match running p !! i with
  | None => p
  | Some file =>
      let running' := List.firstn i (running p) ++ List.skipn (S i) (running p) in
      match failure with
      | Some e =>
          {| queue := queue p; running := running';
             order := order p; rejected := reject e (rejected p) |}
      | None =>
          let q' := FileQueue.markAsProcessed (queue p) file in
          let p' := {| queue := q'; running := running';
                       order := order p; rejected := rejected p |} in
          if FileQueue.hasUnprocessedFiles q' then spawn p' else p'
      end
  end.

(** The remaining workers end one after the other without throwing. *)
Fixpoint drain (fuel : nat) (p : Pool) : Pool :=
  match fuel, running p with
  | S fuel', _ :: _ => drain fuel' (complete p 0 None)
  | _, _ => p
  end.

Definition maxConcurrency (project : Project) : Z :=
  if bool_decide (Project.phase project = 1) then 10 else 1.

(** [fixErrorsInAllFiles] (l. 51-64), given the graph the queue builds and
    the ends of the controllers: the pool when every worker has ended. *)
Definition fixErrorsInAllFiles (project : Project)
    (graph : FileDependencies.DependencyGraph) (files : list string)
    (ends : list (nat * option Thrown)) : Pool :=
  let fileQueue := FileQueue.new graph files in
  let agentCount := Z.min (maxConcurrency project) (Z.of_nat (length files)) in
  let started :=
    Nat.iter (Z.to_nat agentCount) spawn
      {| queue := fileQueue; running := []; order := []; rejected := None |} in
  let p := List.fold_left (fun p '(i, failure) => complete p i failure) ends started in
  drain (length files) p.

(** [Object.keys(errorsPerFile)] of [execute] (l. 33-34): the files that
    have an error, in the order of their first error. *)
Definition errorFiles (errors : list ProjectErrors.ProjectError) : list string :=
  List.map fst (ProjectErrors.groupErrorsByFile errors).

(** The per-file part of [execute] (l. 31-42): the files handed to the
    controllers, in the order in which [shift] returned them. *)
Definition schedule (project : Project) (graph : FileDependencies.DependencyGraph)
    (errors : list ProjectErrors.ProjectError) (ends : list (nat * option Thrown))
  : list string :=
  match errorFiles errors with
  | [] => []
  | files => order (fixErrorsInAllFiles project graph files ends)
  end.

End FixProjectErrors.

(** * Properties *)

(** ** Reasoning about runs *)

Section RunLemmas.
Context `{AgentSdk}.

Lemma bind_returns {A B} (c : Run.M A) (k : A -> Run.M B) w b w'' :
  (x ← c; k x) w = Some (Return b, w'') ->
  exists a w', c w = Some (Return a, w') /\ k a w' = Some (Return b, w'').
Proof.
  unfold mbind, run_bind, Run.bindM.
  destruct (c w) as [[[a|e] w']|]; intros Hk; try discriminate.
  exists a, w'. split; [reflexivity | exact Hk].
Qed.

Lemma catch_returns {A} (c : Run.M A) (h : Thrown -> Run.M A) w a w'' :
  Run.catch c h w = Some (Return a, w'') ->
  c w = Some (Return a, w'') \/
  exists e w', c w = Some (Throw e, w') /\ h e w' = Some (Return a, w'').
Proof.
  unfold Run.catch.
  destruct (c w) as [[[a0|e] w']|]; intros Hk; try discriminate.
  - left. exact Hk.
  - right. exists e, w'. split; [reflexivity | exact Hk].
Qed.

Lemma ret_returns {A} (a b : A) w w' :
  Run.ret a w = Some (Return b, w') -> a = b /\ w = w'.
Proof. unfold Run.ret. intros Hr. inversion Hr. split; reflexivity. Qed.

Lemma lift_returns {A} (c : Completion A) (b : A) w w' :
  Run.lift c w = Some (Return b, w') -> c = Return b /\ w = w'.
Proof. unfold Run.lift. intros Hr. inversion Hr. split; reflexivity. Qed.

End RunLemmas.

(** ** The iteration cap *)

Module IterationCap.
Import ProjectErrors FixErrors.

(** The cap in the words of the specification: 5 below 100 errors, the
    quotient rounded up from there on. *)
Definition spec_cap (count : Z) : Z :=
  if count <? 100 then 5 else - ((- (count * 5)) / 100).

Lemma cap_below_100 count : count < 100 -> calculateMaxIterations count = 5.
Proof.
  intros Hlt. unfold calculateMaxIterations.
  destruct (Z.ltb_spec count 100); [reflexivity | lia].
Qed.

Lemma cap_from_100 count :
  100 <= count ->
  calculateMaxIterations count * 100 <= count * 5 < (calculateMaxIterations count + 1) * 100.
Proof.
  intros Hge. unfold calculateMaxIterations, MAX_ITERATIONS_PER_100_ERRORS.
  destruct (Z.ltb_spec count 100); [lia |].
  pose proof (Z.div_mod (count * 5) 100 ltac:(lia)) as Hdm.
  pose proof (Z.mod_pos_bound (count * 5) 100 ltac:(lia)) as Hb.
  lia.
Qed.

Lemma cap_at_least_5 count : 5 <= calculateMaxIterations count.
Proof.
  unfold calculateMaxIterations, MAX_ITERATIONS_PER_100_ERRORS.
  destruct (Z.ltb_spec count 100); [lia |].
  apply Z.div_le_lower_bound; lia.
Qed.

(** Rounding down and rounding up agree exactly on the multiples of 20. *)
Lemma cap_vs_spec_cap count :
  100 <= count ->
  (count mod 20 = 0 -> calculateMaxIterations count = spec_cap count) /\
  (count mod 20 <> 0 -> calculateMaxIterations count = spec_cap count - 1).
Proof.
  intros Hge. unfold calculateMaxIterations, spec_cap, MAX_ITERATIONS_PER_100_ERRORS.
  destruct (Z.ltb_spec count 100); [lia |].
  pose proof (Z.div_mod count 20 ltac:(lia)) as Hc.
  pose proof (Z.mod_pos_bound count 20 ltac:(lia)) as Hcb.
  pose proof (Z.div_mod (count * 5) 100 ltac:(lia)) as Hdm.
  pose proof (Z.mod_pos_bound (count * 5) 100 ltac:(lia)) as Hb.
  pose proof (Z.div_mod (- (count * 5)) 100 ltac:(lia)) as Hdm'.
  pose proof (Z.mod_pos_bound (- (count * 5)) 100 ltac:(lia)) as Hb'.
  split; intros Hm; lia.
Qed.

End IterationCap.

Module ControllerLoop.
Import ProjectErrors FixErrors.
Section WithCollaborators.
Context `{NodePath} `{TypeScript} `{!ESLint.ESLintApi} `{AgentSdk} `{PromptFiles}.
Variable fuel : nat.

Lemma runClaudeCode_iterations a prompt w a' w' :
  runClaudeCode fuel a prompt w = Some (Return a', w') ->
  iterations (stats a') = iterations (stats a).
Proof.
  unfold runClaudeCode. intros Hrun.
  apply bind_returns in Hrun as (r & w1 & _ & Hrun).
  apply bind_returns in Hrun as (h & w2 & _ & Hrun).
  apply ret_returns in Hrun as [<- _]. reflexivity.
Qed.

Lemma fixErrors_iterations a errors w a' w' :
  fixErrors fuel a errors w = Some (Return a', w') ->
  iterations (stats a') = iterations (stats a).
Proof.
  unfold fixErrors. intros Hfix.
  apply bind_returns in Hfix as (d & w1 & _ & Hfix).
  apply bind_returns in Hfix as (formatted & w2 & _ & Hfix).
  apply bind_returns in Hfix as (prompt & w3 & _ & Hfix).
  apply catch_returns in Hfix as [Hrun | (e & w4 & _ & Hh)].
  - eapply runClaudeCode_iterations; eassumption.
  - apply bind_returns in Hh as (u & w5 & _ & Hret).
    apply ret_returns in Hret as [<- _]. reflexivity.
Qed.

(** What a completed loop leaves in the statistics: the number of the last
    turn taken, which is the last one allowed unless the errors were gone. *)
Lemma iterate_iterations remaining :
  forall iteration a errors w a' errors' fixed w',
    iterate fuel remaining iteration a errors w = Some (Return (a', errors', fixed), w') ->
    (remaining = O -> a' = a /\ fixed = false) /\
    (remaining <> O ->
       iteration <= iterations (stats a') <= iteration + Z.of_nat remaining - 1 /\
       (fixed = true -> remainingErrorCount (stats a') = 0) /\
       (fixed = false -> iterations (stats a') = iteration + Z.of_nat remaining - 1)).
Proof.
  induction remaining as [|remaining' IH]; intros iteration a errors w a' errors' fixed w' Hit.
  - simpl in Hit. apply ret_returns in Hit as [Heq _]. inversion Heq; subst.
    split; [intros _; split; reflexivity | intros Hne; contradiction].
  - split; [discriminate | intros _].
    simpl in Hit.
    apply bind_returns in Hit as (a2 & w1 & Hfix & Hit).
    apply bind_returns in Hit as (errs & w2 & _ & Hit).
    apply fixErrors_iterations in Hfix. simpl in Hfix.
    destruct (bool_decide (length errs = 0%nat)) eqn:Hzero.
    + apply ret_returns in Hit as [Heq _]. inversion Heq; subst. simpl.
      apply bool_decide_eq_true in Hzero. rewrite Hzero. simpl.
      repeat split; try lia; discriminate.
    + set (a3 := with_stats
                   (set_remainingErrorCount (Z.of_nat (length errs)) (stats a2)) a2) in Hit.
      set (a4 := if bool_decide (iteration mod MAX_ITERATIONS_PER_100_ERRORS = 0)
                 then with_sessionId None a3 else a3) in Hit.
      assert (Hit4 : iterations (stats a4) = iteration).
      { subst a4 a3.
        destruct (bool_decide (iteration mod MAX_ITERATIONS_PER_100_ERRORS = 0));
          simpl; exact Hfix. }
      clearbody a4.
      apply IH in Hit as [Hnone Hsome].
      destruct remaining' as [|remaining''].
      * specialize (Hnone eq_refl) as [-> ->].
        rewrite Hit4. repeat split; try lia; discriminate.
      * specialize (Hsome ltac:(discriminate)) as (Hbound & Hfixed & Hlast).
        repeat split; try lia; [exact Hfixed | intros Hf; rewrite (Hlast Hf); lia].
Qed.

Lemma runFixingIterations_iterations a initialErrors w a' w' :
  runFixingIterations fuel a initialErrors w = Some (Return a', w') ->
  let cap := calculateMaxIterations (Z.of_nat (length initialErrors)) in
  1 <= iterations (stats a') <= cap /\
  (remainingErrorCount (stats a') <> 0 -> iterations (stats a') = cap).
Proof.
  intros Hrun cap. unfold runFixingIterations in Hrun. fold cap in Hrun.
  apply bind_returns in Hrun as ([[a1 errors1] fixed] & w1 & Hit & Hrun).
  pose proof (IterationCap.cap_at_least_5 (Z.of_nat (length initialErrors))) as Hcap.
  apply iterate_iterations in Hit as [_ Hsome].
  specialize (Hsome ltac:(fold cap; lia)) as (Hbound & Hfixed & Hlast).
  rewrite Z2Nat.id in Hbound, Hlast by lia. fold cap in Hbound, Hlast.
  assert (Ha : a' = a1).
  { destruct fixed.
    - apply ret_returns in Hrun as [-> _]. reflexivity.
    - apply bind_returns in Hrun as (u & w2 & _ & Hret).
      apply ret_returns in Hret as [-> _]. reflexivity. }
  subst a'. split; [lia |].
  intros Hrem. destruct fixed.
  - exfalso. apply Hrem. apply Hfixed. reflexivity.
  - rewrite Hlast by reflexivity. lia.
Qed.

End WithCollaborators.
End ControllerLoop.

(** ** Concrete collaborators

    Small implementations of the external interfaces, on which the models
    can be run: paths are joined with a slash, a program is the list of its
    source files with the diagnostics a checker reports for a state of the
    disk, lowering keeps the source text, and the agent answers from a fixed
    table. *)

Module Demo.

#[local] Instance nodePath : NodePath :=
  {| path_join := fun a b => a +:+ "/" +:+ b;
     path_dirname := fun p => p;
     path_isAbsolute := fun p => startsWith p "/";
     path_resolve := fun base p => base +:+ "/" +:+ p |}.

(** A diagnostic as the demonstration checker reports it. *)
Record Reported := {
  r_category : DiagnosticCategory;
  r_code : Z;
  r_file : option string;
  r_start : option Z;
  r_text : string;
  r_unnecessary : bool;
}.

#[local] Instance types : TypeScriptTypes :=
  {| SourceFile := string;
     Program := list string * list Reported;
     DiagnosticMessage := string;
     CompilerOptions := unit |}.

Definition diagnostic_of (r : Reported) : Diagnostic :=
  {| category := r_category r; Ts.code := r_code r; file := r_file r;
     start := r_start r; messageText := r_text r;
     reportsUnnecessary := r_unnecessary r |}.

Definition in_scope (sf : option string) (r : Reported) : bool :=
  match sf, r_file r with
  | None, _ => true
  | Some f, Some g => String.eqb f g
  | Some _, None => false
  end.

(** A checker is the list of source files and the diagnostics it reports
    for a state of the disk. *)
Definition compiler (sources : list string) (check : Disk -> list Reported) : TypeScript.
Proof.
  refine
    {| fileName := fun sf : SourceFile => (sf : string);
       isDeclarationFile := fun sf : SourceFile => JsString.endsWith sf ".d.ts";
       getLineAndCharacterOfPosition := fun _ pos =>
         {| lc_line := 0; lc_character := Z.abs pos |};
       flattenDiagnosticMessageText := fun (m : DiagnosticMessage) _ => (m : string);
       createOrGetWatchProgram := fun disk _ => ((sources, check disk) : Program);
       createOneTimeProgram := fun disk _ _ => Return ((sources, check disk) : Program);
       getSourceFile := fun (p : Program) f =>
         if bool_decide (f ∈ fst p) then Some (f : SourceFile) else None;
       getSourceFiles := fun (p : Program) => (fst p : list SourceFile);
       getPreEmitDiagnostics := fun (p : Program) sf =>
         List.map diagnostic_of (List.filter (in_scope sf) (snd p));
       transpileModule := fun _ _ sourceCode _ => Return sourceCode |}.
  intros sf pos. simpl. split; [reflexivity | apply Z.abs_nonneg].
Defined.

(** A linter is the results it reports for a state of the disk and a list
    of files. *)
Definition linter (lint : Disk -> list string -> list ESLint.LintResult)
  : ESLint.ESLintApi :=
  {| ESLint.lintFiles := fun _ disk files => Return (lint disk files) |}.

(** An agent that counts its invocations, answers with the messages of a
    table and edits the working copy. *)
Definition sdk (answers : nat -> list ClaudeCode.SDKMessage) (edit : nat -> Disk -> Disk)
  : AgentSdk :=
  {| Agent := nat;
     query := fun n disk hookState _ _ => (answers n, (S n, edit n disk, hookState)) |}.

#[local] Instance prompts : PromptFiles :=
  {| readPromptFile := fun _ => Return "Fix the errors below." |}.

#[local] Instance diff : DiffApi :=
  {| createPatch := fun fileName oldStr newStr oldHeader newHeader =>
       "--- " +:+ fileName +:+ " " +:+ oldHeader +:+ JsString.newline
         +:+ "+++ " +:+ fileName +:+ " " +:+ newHeader +:+ JsString.newline
         +:+ "-" +:+ oldStr +:+ JsString.newline
         +:+ "+" +:+ newStr +:+ JsString.newline |}.

Definition project1 : Project :=
  {| Project.path := "/p"; Project.phase := 1; Project.data_language := Some javascript |}.

Definition project2 : Project :=
  {| Project.path := "/p"; Project.phase := 2; Project.data_language := Some typescript |}.

Definition successResult (session : string) : ClaudeCode.SDKMessage :=
  ClaudeCode.ResultMessage
    {| ClaudeCode.success := true; ClaudeCode.total_cost_usd := 1;
       ClaudeCode.duration_ms := 1000; ClaudeCode.result_text := "done";
       ClaudeCode.session_id := session; ClaudeCode.num_turns := 3 |}.

Definition emptyHooks : FileModificationHook.HookWorld :=
  {| FileModificationHook.original := ∅;
     FileModificationHook.behaviorModificationsDetected := 0;
     FileModificationHook.console := [] |}.

(** The checker of a project with one file, in error as long as the file
    reads ["bad"]. *)
Definition oneFileCheck (disk : Disk) : list Reported :=
  if bool_decide (disk !! "/p/a.js" = Some "bad")
  then [ {| r_category := Error; r_code := 7006;
            r_file := Some "/p/a.js"; r_start := Some 0;
            r_text := "Parameter 'x' implicitly has an 'any' type.";
            r_unnecessary := false |} ]
  else [].

Definition oneFileCompiler : TypeScript := compiler ["/p/a.js"] oneFileCheck.
Definition silentLinter : ESLint.ESLintApi := linter (fun _ _ => []).

(** The diagnostic of that file, as the aggregator returns it. *)
Definition oneFileErrors : list ProjectErrors.ProjectError :=
  [ {| ProjectErrors.source := ProjectErrors.src_typescript; ProjectErrors.filePath := "/p/a.js";
       ProjectErrors.line := 1; ProjectErrors.column := 1;
       ProjectErrors.message := "Parameter 'x' implicitly has an 'any' type.";
       ProjectErrors.code := ProjectErrors.CodeNumber 7006 |} ].

End Demo.

Module IterationCapClaim.
Import ProjectErrors FixErrors.

Section WithCollaborators.
Context `{NodePath} `{TypeScript} `{!ESLint.ESLintApi} `{AgentSdk} `{PromptFiles}.

(** C1 (amended): the iteration cap of a scope is 5 when the initial
    diagnostic count is below 100 and the quotient [count * 5 / 100] rounded
    down otherwise, so 40 initial errors give cap 5 and 250 give cap 12; a
    completed run of the controller's loop takes at least one and at most
    [cap] iterations, and exactly [cap] when diagnostics remain. *)
Theorem iteration_cap_rounds_down fuel a (errors : list ProjectError) w a' w' :
  runFixingIterations fuel a errors w = Some (Return a', w') ->
  let count := Z.of_nat (length errors) in
  let cap := calculateMaxIterations count in
  (count < 100 /\ cap = 5 \/
   100 <= count /\ cap * 100 <= count * 5 < (cap + 1) * 100) /\
  calculateMaxIterations 40 = 5 /\
  calculateMaxIterations 250 = 12 /\
  1 <= iterations (stats a') <= cap /\
  (remainingErrorCount (stats a') <> 0 -> iterations (stats a') = cap).
Proof.
  intros Hrun count cap.
  split; [| split; [reflexivity | split; [reflexivity |]]].
  - destruct (Z.lt_ge_cases count 100) as [Hlt | Hge].
    + left. split; [exact Hlt | apply IterationCap.cap_below_100; exact Hlt].
    + right. split; [exact Hge | apply IterationCap.cap_from_100; exact Hge].
  - eapply ControllerLoop.runFixingIterations_iterations. exact Hrun.
Qed.

End WithCollaborators.

#[local] Existing Instances Demo.nodePath Demo.types Demo.prompts.

#[local] Existing Instances Demo.oneFileCompiler Demo.silentLinter.

(** An agent whose every invocation rewrites the file to ["good"]. *)
#[local] Instance sdk : AgentSdk :=
  Demo.sdk (fun _ => [Demo.successResult "s1"]) (fun _ disk => <["/p/a.js" := "good"]> disk).

Definition world : Run.World :=
  {| Run.agent := (0%nat : Agent); Run.disk := {["/p/a.js" := "bad"]};
     Run.hookWorld := Demo.emptyHooks; Run.queries := 0; Run.log := [] |}.

Definition agent0 : FixErrorsAgent := FixErrors.new Demo.project1 (Some "/p/a.js").

(** The statistics the controller ends with on this project. *)
Definition finalStats : option Stats :=
  match runFixingIterations 1 agent0 Demo.oneFileErrors world with
  | Some (Return a', _) => Some (stats a')
  | _ => None
  end.

Example finalStats_value :
  (iterations <$> finalStats) = Some 1 /\ (remainingErrorCount <$> finalStats) = Some 0.
Proof. vm_compute. split; reflexivity. Qed.

(** C1 (as the specification words it, refuted): at 250 initial errors the
    controller's cap is 12, whereas the quotient rounded up is 13. *)
Lemma cap_250_is_not_rounded_up :
  calculateMaxIterations 250 = 12 /\
  IterationCap.spec_cap 250 = 13 /\
  calculateMaxIterations 250 <> IterationCap.spec_cap 250.
Proof. vm_compute. repeat split; discriminate. Qed.

Lemma iteration_cap_rounds_down_witness :
  exists a' w',
    runFixingIterations 1 agent0 Demo.oneFileErrors world = Some (Return a', w') /\
    1 <= iterations (stats a') <= 5.
Proof.
  destruct (runFixingIterations 1 agent0 Demo.oneFileErrors world) as [[[a'|e] w']|] eqn:Hrun;
    [| vm_compute in Hrun; discriminate | vm_compute in Hrun; discriminate].
  exists a', w'. split; [reflexivity |].
  exact (proj1 (proj2 (proj2 (proj2
           (iteration_cap_rounds_down 1 agent0 Demo.oneFileErrors world a' w' Hrun))))).
Defined.

End IterationCapClaim.

(** ** The diagnostic aggregator *)

Section MapM.
Context {A B : Type} (f : A -> Completion B).

Lemma mapM_returns xs ys :
  mapM f xs = Return ys <-> Forall2 (fun x y => f x = Return y) xs ys.
Proof.
  revert ys. induction xs as [|x xs IH]; intros ys; simpl.
  - split.
    + intros Hr. inversion Hr. constructor.
    + intros Hall. inversion Hall. reflexivity.
  - destruct (f x) as [y|e] eqn:Hfx; simpl.
    + destruct (mapM f xs) as [ys'|e] eqn:Hrest; simpl.
      * split.
        -- intros Hr. inversion Hr; subst. constructor; [exact Hfx | apply IH; reflexivity].
        -- intros Hall. inversion Hall as [|? y0 ? ys0 Hy Htl]; subst.
           rewrite Hfx in Hy. inversion Hy; subst.
           apply IH in Htl. inversion Htl. reflexivity.
      * split; [discriminate |].
        intros Hall. inversion Hall as [|? y0 ? ys0 Hy Htl]; subst.
        apply IH in Htl. discriminate.
    + split; [discriminate |].
      intros Hall. inversion Hall as [|? y0 ? ys0 Hy Htl]; subst.
      rewrite Hfx in Hy. discriminate.
Qed.

(** The map throws what the first failing element throws. *)
Lemma mapM_throws xs e :
  mapM f xs = Throw e <->
  exists pre x post,
    xs = pre ++ x :: post /\ f x = Throw e /\ Forall (fun y => is_return (f y) = true) pre.
Proof.
  split.
  - induction xs as [|x xs IH]; simpl; [discriminate |].
    destruct (f x) as [y|e0] eqn:Hfx; simpl.
    + destruct (mapM f xs) as [ys|e1]; simpl; [discriminate |].
      intros He.
      destruct (IH He) as (pre & x0 & post & -> & Hx0 & Hpre).
      exists (x :: pre), x0, post. repeat split; [exact Hx0 |].
      constructor; [rewrite Hfx; reflexivity | exact Hpre].
    + intros He. inversion He; subst.
      exists [], x, xs. repeat split; [exact Hfx | constructor].
  - intros (pre & x & post & -> & Hx & Hpre).
    induction pre as [|p pre IH]; simpl.
    + rewrite Hx. reflexivity.
    + inversion Hpre as [|? ? Hp Hrest]; subst.
      destruct (f p); [| discriminate]. simpl.
      rewrite (IH Hrest). reflexivity.
Qed.

End MapM.

Module Aggregator.
Import ProjectErrors.
Section WithCheckers.
Context `{NodePath} `{TypeScript} `{!ESLint.ESLintApi}.

(** A diagnostic the aggregator keeps: an error that its checker did not
    flag as unnecessary. *)
Definition kept (d : Diagnostic) : Prop :=
  category d = Error /\ reportsUnnecessary d = false.

(** A diagnostic that carries no source file or no start position. *)
Definition unlocated (d : Diagnostic) : Prop :=
  file d = None \/ start d = None.

Lemma elem_of_filterErrors d ds :
  d ∈ Typescript.filterErrors ds <-> d ∈ ds /\ kept d.
Proof.
  unfold Typescript.filterErrors, kept.
  rewrite !list_elem_of_In, List.filter_In, andb_true_iff, bool_decide_eq_true,
    negb_true_iff.
  reflexivity.
Qed.


Lemma convertTsDiagnostic_returns d e :
  convertTsDiagnostic d = Return e ->
  exists sf pos,
    file d = Some sf /\ start d = Some pos /\
    source e = src_typescript /\ filePath e = fileName sf /\
    line e = lc_line (getLineAndCharacterOfPosition sf pos) + 1 /\
    column e = lc_character (getLineAndCharacterOfPosition sf pos) + 1 /\
    1 <= line e /\ 1 <= column e.
Proof.
  unfold convertTsDiagnostic.
  destruct (file d) as [sf|], (start d) as [pos|]; try discriminate.
  intros Hr. inversion Hr; subst; simpl.
  exists sf, pos.
  pose proof (lineAndCharacter_zero_based sf pos) as [Hl Hc].
  repeat split; lia.
Qed.

Lemma convertTsDiagnostic_located d :
  ~ unlocated d -> is_return (convertTsDiagnostic d) = true.
Proof.
  unfold unlocated, convertTsDiagnostic.
  destruct (file d), (start d); intros Hn; try reflexivity; exfalso; apply Hn; auto.
Qed.

(** What the type checker reports for a scope, before the aggregator
    filters it. *)
Definition reported (disk : Disk) (project : Project) (file : option string)
  : Completion (list Diagnostic) :=
  Typescript.getDiagnostics
    (createOrGetWatchProgram disk (Project.tsconfigPath project)) file.

Lemma getErrors_unfold disk project file ds :
  reported disk project file = Return ds ->
  getErrors disk project file =
    (projectErrors ← mapM convertTsDiagnostic (Typescript.filterErrors ds);
     skip ← skipsLinting project;
     if (skip : bool) then Return projectErrors
     else
       eslintErrors ← Eslint.getESLintErrors disk project file;
       Return (projectErrors ++ List.map convertESLintError eslintErrors)).
Proof.
  unfold reported, getErrors, Typescript.getTsErrors. intros Hrep.
  cbn [mbind completion_bind bind]. rewrite Hrep. reflexivity.
Qed.

(** The type-checker part of a returned list and its linter part. *)
Lemma getErrors_returns disk project file ds errs :
  reported disk project file = Return ds ->
  getErrors disk project file = Return errs ->
  exists tsPart lintPart,
    errs = tsPart ++ lintPart /\
    Forall2 (fun d e => convertTsDiagnostic d = Return e) (Typescript.filterErrors ds) tsPart /\
    (lintPart = [] \/
     exists eslintErrors,
       Eslint.getESLintErrors disk project file = Return eslintErrors /\
       lintPart = List.map convertESLintError eslintErrors).
Proof.
  intros Hrep Hget. rewrite (getErrors_unfold _ _ _ _ Hrep) in Hget.
  destruct (mapM convertTsDiagnostic (Typescript.filterErrors ds)) as [ts|e] eqn:Hmap;
    [| discriminate].
  apply mapM_returns in Hmap. simpl in Hget.
  destruct (skipsLinting project) as [[|]|e]; simpl in Hget; try discriminate.
  - inversion Hget; subst. exists errs, []. rewrite app_nil_r. auto.
  - destruct (Eslint.getESLintErrors disk project file) as [ls|e] eqn:Hlint;
      simpl in Hget; [| discriminate].
    inversion Hget; subst. exists ts, (List.map convertESLintError ls).
    repeat split; [exact Hmap |]. right. exists ls. auto.
Qed.

End WithCheckers.
End Aggregator.

Module AggregatorClaims.
Import ProjectErrors Aggregator.

Section WithCheckers.
Context `{NodePath} `{TypeScript} `{!ESLint.ESLintApi}.


Lemma convert_all_returns (ds : list Diagnostic) :
  (forall d, d ∈ ds -> ~ unlocated d) ->
  exists es, mapM convertTsDiagnostic ds = Return es.
Proof.
  induction ds as [|d0 ds IH]; intros Hloc; simpl.
  - exists []. reflexivity.
  - pose proof (convertTsDiagnostic_located d0 (Hloc d0 ltac:(left))) as Hd0.
    destruct (convertTsDiagnostic d0) as [e0|]; [| discriminate]. simpl.
    destruct IH as [es ->]; [intros d Hin; apply Hloc; right; exact Hin |].
    exists (e0 :: es). reflexivity.
Qed.

(** Every type-checker entry of a returned list is the conversion of a
    diagnostic that passed [filterErrors]. *)
Lemma typescript_entries_are_kept disk project file ds errs e :
  reported disk project file = Return ds ->
  getErrors disk project file = Return errs ->
  e ∈ errs -> source e = src_typescript ->
  exists d, d ∈ ds /\ kept d /\ convertTsDiagnostic d = Return e.
Proof.
  intros Hrep Hget Hin Hsrc.
  destruct (getErrors_returns _ _ _ _ _ Hrep Hget) as (tsPart & lintPart & -> & Hts & Hlint).
  apply elem_of_app in Hin as [Hin | Hin].
  - destruct (proj1 (list_elem_of_lookup _ _) Hin) as [i Hi].
    destruct (Forall2_lookup_r _ _ _ _ _ Hts Hi) as (d & Hd & Hconv).
    exists d. apply list_elem_of_lookup_2 in Hd.
    apply elem_of_filterErrors in Hd as [Hd Hk]. auto.
  - exfalso. destruct Hlint as [-> | (ls & _ & ->)]; [inversion Hin |].
    apply list_elem_of_fmap in Hin as (l & -> & _). discriminate.
Qed.

(** A diagnostic that is filtered out is never converted: without a source
    file it does not make the baseline phase throw. *)
Lemma dropped_diagnostics_do_not_throw disk project scope ds :
  reported disk project scope = Return ds ->
  (forall d, d ∈ ds -> kept d -> ~ unlocated d) ->
  Project.phase project = 1 ->
  exists errs, getErrors disk project scope = Return errs.
Proof.
  intros Hrep Hloc Hphase.
  rewrite (getErrors_unfold _ _ _ _ Hrep).
  destruct (convert_all_returns (Typescript.filterErrors ds)) as [es ->].
  { intros d Hin. apply elem_of_filterErrors in Hin as [Hin Hk]. auto. }
  unfold skipsLinting. rewrite Hphase. simpl. exists es. reflexivity.
Qed.



End WithCheckers.

#[local] Existing Instances Demo.nodePath Demo.types.


(** The same without a file, but reported as a mere message. *)
Definition configNote : Demo.Reported :=
  {| Demo.r_category := Message; Demo.r_code := 6059; Demo.r_file := None;
     Demo.r_start := None; Demo.r_text := "'rootDir' is expected to contain all source files.";
     Demo.r_unnecessary := false |}.

Definition noLint : ESLint.ESLintApi := Demo.linter (fun _ _ => []).


(** A diagnostic without source file that is not of error category is
    dropped by [filterErrors] before the conversion. *)
Example unlocated_message_is_dropped :
  @reported _ _ (Demo.compiler ["/p/a.js"] (fun _ => [configNote])) ∅ Demo.project1 None
    = Return [Demo.diagnostic_of configNote] /\
  @Typescript.getTsErrors _ _ (Demo.compiler ["/p/a.js"] (fun _ => [configNote]))
    ∅ Demo.project1 None None = Return [] /\
  @getErrors _ _ (Demo.compiler ["/p/a.js"] (fun _ => [configNote])) noLint
    ∅ Demo.project1 None = Return [].
Proof. repeat split. Qed.

End AggregatorClaims.

Module SeverityClaim.
Import ProjectErrors Aggregator.

Section WithCheckers.
Context `{NodePath} `{TypeScript} `{!ESLint.ESLintApi}.

(** The invariant in the words of the specification: whatever the
    aggregator returns stems from an error-severity finding of its checker,
    one the type checker did not flag as unnecessary. *)
Definition surfaces_only_errors (ds : list Diagnostic) (lint : list Eslint.ESLintError)
    (errs : list ProjectError) : Prop :=
  forall e, e ∈ errs ->
    (exists d, d ∈ ds /\ kept d /\ convertTsDiagnostic d = Return e) \/
    (exists l, l ∈ lint /\ Eslint.severity l = ESLint.severity_error /\
               convertESLintError l = e).

(** With the linter silent the invariant holds: the type checker's
    findings go through [filterErrors]. *)
Lemma type_checker_findings_are_errors disk project scope ds errs :
  reported disk project scope = Return ds ->
  Eslint.getESLintErrors disk project scope = Return [] ->
  getErrors disk project scope = Return errs ->
  surfaces_only_errors ds [] errs.
Proof.
  intros Hrep Hlint Hget e Hin. left.
  destruct (getErrors_returns _ _ _ _ _ Hrep Hget) as (tsPart & lintPart & -> & Hts & Hl).
  assert (lintPart = []) as ->.
  { destruct Hl as [-> | (ls & Hls & ->)]; [reflexivity |].
    rewrite Hlint in Hls. inversion Hls. reflexivity. }
  rewrite app_nil_r in Hin.
  destruct (proj1 (list_elem_of_lookup _ _) Hin) as [i Hi].
  destruct (Forall2_lookup_r _ _ _ _ _ Hts Hi) as (d & Hd & Hconv).
  exists d. apply list_elem_of_lookup_2 in Hd.
  apply elem_of_filterErrors in Hd as [Hd Hk]. auto.
Qed.

End WithCheckers.

#[local] Existing Instances Demo.nodePath Demo.types.

(** ESLint's answer for a file it ignores: one message of severity 1,
    without rule and without position. *)
Definition ignoredFile : ESLint.LintResult :=
  {| ESLint.filePath := "/p/node_modules/dep/index.ts";
     ESLint.messages :=
       [ {| ESLint.column := 0; ESLint.line := 0;
            ESLint.message := "File ignored by default because it is located under the node_modules directory.";
            ESLint.ruleId := None;
            ESLint.severity := ESLint.severity_warn |} ] |}.

Definition silentCompiler : TypeScript := Demo.compiler ["/p/node_modules/dep/index.ts"] (fun _ => []).
Definition warningLinter : ESLint.ESLintApi := Demo.linter (fun _ _ => [ignoredFile]).

Definition surfacedWarning : ProjectError :=
  {| source := src_eslint; filePath := "/p/node_modules/dep/index.ts"; line := 0; column := 0;
     message := "File ignored by default because it is located under the node_modules directory.";
     code := CodeNull |}.

(** C8 (the code departs from it): in the full-coverage phase of a
    TypeScript project a lint message of severity 1 is returned by
    [getErrors] like an error; [getESLintErrorsForFile] copies the severity
    and nothing reads it. *)
Theorem lint_warning_is_surfaced :
  let scope := Some "/p/node_modules/dep/index.ts" in
  @getErrors _ _ silentCompiler warningLinter ∅ Demo.project2 scope
    = Return [surfacedWarning] /\
  (exists lint,
     @Eslint.getESLintErrors _ _ silentCompiler warningLinter ∅ Demo.project2 scope
       = Return lint /\
     Forall (fun l => Eslint.severity l = ESLint.severity_warn) lint /\
     ~ @surfaces_only_errors _ silentCompiler [] lint [surfacedWarning]).
Proof.
  split; [reflexivity |].
  eexists. split; [reflexivity |]. split.
  - repeat constructor.
  - intros Hclaim.
    destruct (Hclaim surfacedWarning ltac:(left)) as [(d & Hd & _) | (l & Hl & Hsev & _)].
    + inversion Hd.
    + apply list_elem_of_singleton in Hl. subst l. discriminate.
Qed.

End SeverityClaim.

(** ** The error report *)

Lemma append_assoc (a b c : string) : (a +:+ b) +:+ c = a +:+ (b +:+ c).
Proof.
  induction a as [|ch a IH]; [reflexivity |].
  change (String ch ((a +:+ b) +:+ c) = String ch (a +:+ (b +:+ c))).
  f_equal. exact IH.
Qed.

Module Report.
Import ProjectErrors ErrorFormatting.

(** The diagnostics a location map holds, group after group. *)
Definition grouped (m : LocationMap) : list ProjectError :=
  List.concat (List.map (fun kv => errors (snd kv)) m).

Lemma grouped_app m1 m2 : grouped (m1 ++ m2) = grouped m1 ++ grouped m2.
Proof. unfold grouped. rewrite List.map_app, List.concat_app. reflexivity. Qed.

Lemma grouped_push m key v e :
  map_get m key = Some v -> grouped (map_push m key e) ≡ₚ grouped m ++ [e].
Proof.
  induction m as [|[k v0] m IH]; simpl; [discriminate |].
  destruct (String.eqb k key); intros Hget.
  - unfold grouped; simpl. rewrite <- !app_assoc.
    apply Permutation_app_head. apply Permutation_app_comm.
  - unfold grouped in *; simpl. rewrite <- app_assoc.
    apply Permutation_app_head. apply IH. exact Hget.
Qed.

Lemma groupStep_grouped disk contextSize m e m' :
  groupStep disk contextSize m e = Return m' -> grouped m' ≡ₚ grouped m ++ [e].
Proof.
  unfold groupStep.
  destruct (map_get m _) as [v|] eqn:Hget.
  - intros Hr. inversion Hr; subst. eapply grouped_push. exact Hget.
  - destruct (formatCodeContext _ _ _ _) as [ctx|]; simpl; [| discriminate].
    intros Hr. inversion Hr; subst. rewrite grouped_app.
    unfold grouped at 2; simpl. reflexivity.
Qed.

Lemma groupLoop_grouped disk contextSize es :
  forall m m',
    groupLoop disk contextSize m es = Return m' -> grouped m' ≡ₚ grouped m ++ es.
Proof.
  induction es as [|e es IH]; intros m m'; simpl.
  - intros Hr. inversion Hr; subst. rewrite app_nil_r. reflexivity.
  - destruct (groupStep disk contextSize m e) as [m1|] eqn:Hstep; simpl; [| discriminate].
    intros Hloop. rewrite (IH _ _ Hloop), (groupStep_grouped _ _ _ _ _ Hstep).
    rewrite <- app_assoc. reflexivity.
Qed.

Lemma groupErrorsByLocation_take disk es contextSize :
  groupErrorsByLocation disk (take 100 es) contextSize
    = groupErrorsByLocation disk es contextSize.
Proof.
  unfold groupErrorsByLocation.
  change (Z.to_nat MAX_ERRORS_PER_BATCH) with 100%nat.
  rewrite take_take. reflexivity.
Qed.

(** C10: a report that is produced is built from the groups of
    [errors.slice(0, 100)] alone: these groups hold the first 100
    diagnostics and nothing else, the report is their formatting, preceded,
    when more than 100 diagnostics exist, by the header that states the
    total count; two lists of the same length that agree on their first 100
    entries give the same report. *)
Theorem report_is_limited_to_first_100 disk (es : list ProjectError) project report :
  formatErrorsWithContext disk es project = Return report ->
  (exists groups,
     groupErrorsByLocation disk es (determineContextSize (Z.of_nat (length es)))
       = Return groups /\
     grouped groups ≡ₚ take 100 es /\
     (length (grouped groups) <= 100)%nat /\
     report =
       (if 100 <? Z.of_nat (length es)
        then "There are " +:+ toString (Z.of_nat (length es))
               +:+ " errors in total, here are the first 100:"
               +:+ JsString.newline +:+ JsString.newline
               +:+ formatErrorGroups groups project
        else formatErrorGroups groups project)) /\
  (forall es' : list ProjectError,
     length es' = length es -> take 100 es' = take 100 es ->
     formatErrorsWithContext disk es' project = Return report).
Proof.
  intros Hfmt. split.
  - unfold formatErrorsWithContext in Hfmt.
    destruct (groupErrorsByLocation disk es _) as [groups|] eqn:Hgroups; simpl in Hfmt;
      [| discriminate].
    exists groups. split; [reflexivity |].
    assert (Hperm : grouped groups ≡ₚ take 100 es).
    { unfold groupErrorsByLocation in Hgroups.
      apply groupLoop_grouped in Hgroups. exact Hgroups. }
    split; [exact Hperm |]. split.
    + rewrite Hperm, length_take. lia.
    + change MAX_ERRORS_PER_BATCH with 100 in Hfmt.
      destruct (100 <? Z.of_nat (length es)); inversion Hfmt; subst.
      * unfold batchHeader. rewrite !append_assoc. reflexivity.
      * reflexivity.
  - intros es' Hlen Htake. rewrite <- Hfmt.
    unfold formatErrorsWithContext.
    rewrite <- (groupErrorsByLocation_take disk es'), <- (groupErrorsByLocation_take disk es).
    rewrite Hlen, Htake. reflexivity.
Qed.

End Report.

(** ** The file schedule *)

Module JsSetFacts.
Import JsSet.

Lemma has_true s x : has s x = true <-> x ∈ s.
Proof. unfold has. apply bool_decide_eq_true. Qed.

Lemma elem_of_add s x y : y ∈ add s x <-> y ∈ s \/ y = x.
Proof.
  unfold add. destruct (has s x) eqn:Hhas.
  - apply has_true in Hhas. split; [auto |]. intros [Hy | ->]; assumption.
  - rewrite elem_of_app, list_elem_of_singleton. reflexivity.
Qed.

Lemma elem_of_union a b y : y ∈ union a b <-> y ∈ a \/ y ∈ b.
Proof.
  unfold union. revert a. induction b as [|x b IH]; intros a; simpl.
  - split; [auto |]. intros [Hy | Hy]; [exact Hy | inversion Hy].
  - rewrite IH, elem_of_add, elem_of_cons. tauto.
Qed.

Lemma elem_of_delete s x y : y ∈ delete s x <-> y ∈ s /\ y <> x.
Proof.
  unfold delete. rewrite !list_elem_of_In, List.filter_In, negb_true_iff, String.eqb_neq.
  reflexivity.
Qed.

Lemma add_NoDup s x : NoDup s -> NoDup (add s x).
Proof.
  unfold add. destruct (has s x) eqn:Hhas; intros Hnd; [exact Hnd |].
  apply NoDup_app. split; [exact Hnd |]. split; [| apply NoDup_singleton].
  intros y Hy Hx. apply list_elem_of_singleton in Hx. subst y.
  apply has_true in Hy. congruence.
Qed.

Lemma of_list_NoDup xs : NoDup (of_list xs).
Proof.
  unfold of_list.
  assert (Hgen : forall acc, NoDup acc -> NoDup (List.fold_left add xs acc)).
  { induction xs as [|x xs IH]; intros acc Hacc; simpl; [exact Hacc |].
    apply IH. apply add_NoDup. exact Hacc. }
  apply Hgen. constructor.
Qed.

Lemma elem_of_of_list xs y : y ∈ of_list xs <-> y ∈ xs.
Proof.
  unfold of_list.
  assert (Hgen : forall acc, y ∈ List.fold_left add xs acc <-> y ∈ acc \/ y ∈ xs).
  { induction xs as [|x xs IH]; intros acc; simpl.
    - split; [auto |]. intros [Hy | Hy]; [exact Hy | inversion Hy].
    - rewrite IH, elem_of_add, elem_of_cons. tauto. }
  rewrite Hgen. split; [intros [Hy | Hy]; [inversion Hy | exact Hy] | auto].
Qed.

End JsSetFacts.

Module Schedule.
Import FileQueue.

(** In the words of the specification: how many of the dependencies of a
    file are still unprocessed or in progress. *)
Definition unresolved (q : FileQueue) (deps : list string) : Z :=
  Z.of_nat
    (length
       (List.filter
          (fun dep => bool_decide (dep ∈ unprocessedFiles q \/ dep ∈ processingFiles q))
          deps)).

Lemma countUnprocessedDependencies_indexed q f deps :
  dependencies q !! f = Some deps ->
  countUnprocessedDependencies q f = Return (unresolved q deps).
Proof.
  unfold countUnprocessedDependencies, FileDependencies.get, unresolved. intros ->.
  simpl. do 3 f_equal. apply List.filter_ext. intros dep.
  apply eq_true_iff_eq.
  rewrite JsSetFacts.has_true, JsSetFacts.elem_of_union, bool_decide_eq_true.
  reflexivity.
Qed.

(** The count of a file of the queue, 0 for a file the graph does not know
    (for which the source throws). *)
Definition count (q : FileQueue) (f : string) : Z :=
  match dependencies q !! f with
  | Some deps => unresolved q deps
  | None => 0
  end.

Definition indexed (q : FileQueue) (files : list string) : Prop :=
  forall f, f ∈ files -> is_Some (dependencies q !! f).

Lemma count_indexed q f files :
  indexed q files -> f ∈ files -> countUnprocessedDependencies q f = Return (count q f).
Proof.
  intros Hidx Hin. destruct (Hidx f Hin) as [deps Hdeps].
  unfold count. rewrite Hdeps. apply countUnprocessedDependencies_indexed. exact Hdeps.
Qed.

(** [b] is the first file of [seen] with the least count. *)
Definition first_least (q : FileQueue) (seen : list string) (b : string) : Prop :=
  exists before after,
    seen = before ++ b :: after /\
    (forall g, g ∈ before -> count q b < count q g) /\
    (forall g, g ∈ after -> count q b <= count q g).

(** The state of the selection loop after the files [seen]. *)
Definition selection (q : FileQueue) (seen : list string)
    (bestFile : option string) (minDeps : Num) : Prop :=
  match bestFile with
  | None => seen = [] /\ minDeps = PositiveInfinity
  | Some b => minDeps = Finite (count q b) /\ first_least q seen b
  end.

Lemma selection_step q seen bestFile minDeps f :
  selection q seen bestFile minDeps ->
  if lt_num (count q f) minDeps
  then selection q (seen ++ [f]) (Some f) (Finite (count q f))
  else selection q (seen ++ [f]) bestFile minDeps.
Proof.
  unfold selection. destruct bestFile as [b|].
  - intros (-> & before & after & -> & Hbefore & Hafter). simpl.
    destruct (Z.ltb_spec (count q f) (count q b)) as [Hlt | Hge].
    + split; [reflexivity |].
      exists (before ++ b :: after), []. split; [reflexivity |]. split.
      * intros g Hg. apply elem_of_app in Hg as [Hg | Hg].
        -- specialize (Hbefore g Hg). lia.
        -- apply elem_of_cons in Hg as [-> | Hg]; [lia |].
           specialize (Hafter g Hg). lia.
      * intros g Hg. inversion Hg.
    + split; [reflexivity |].
      exists before, (after ++ [f]). split; [rewrite <- app_assoc; reflexivity |].
      split; [exact Hbefore |].
      intros g Hg. apply elem_of_app in Hg as [Hg | Hg]; [auto |].
      apply list_elem_of_singleton in Hg. subst g. lia.
  - intros (-> & ->). simpl. split; [reflexivity |].
    exists [], []. split; [reflexivity |]. split; intros g Hg; inversion Hg.
Qed.

Lemma selectLoop_selection q files :
  forall seen bestFile minDeps,
    indexed q files ->
    selection q seen bestFile minDeps ->
    exists r minDeps',
      selectLoop q files bestFile minDeps = Return r /\
      selection q (seen ++ files) r minDeps'.
Proof.
  induction files as [|f files IH]; intros seen bestFile minDeps Hidx Hsel; simpl.
  - exists bestFile, minDeps. rewrite app_nil_r. auto.
  - rewrite (count_indexed q f (f :: files) Hidx ltac:(left)). simpl.
    pose proof (selection_step q seen bestFile minDeps f Hsel) as Hstep.
    assert (Hidx' : indexed q files) by (intros g Hg; apply Hidx; right; exact Hg).
    replace (seen ++ f :: files) with ((seen ++ [f]) ++ files)
      by (rewrite <- app_assoc; reflexivity).
    destruct (lt_num (count q f) minDeps); apply IH; assumption.
Qed.

End Schedule.

Module Scenario.

(** The three files of the end-to-end scenario: [b] imports [a], [c]
    imports [b]. *)
Definition fileA : string := "/p/a.js".
Definition fileB : string := "/p/b.js".
Definition fileC : string := "/p/c.js".

Definition graph : FileDependencies.DependencyGraph :=
  <[fileA := []]> (<[fileB := [fileA]]> (<[fileC := [fileB]]> ∅)).

End Scenario.

Module ScheduleClaims.
Import FileQueue Schedule Scenario.

(** C6: when every queued file is indexed in the dependency graph, [shift]
    throws exactly when no file is unprocessed; otherwise it returns an
    unprocessed file, moves it to the files in progress, and that file is
    the first one, in the iteration order of the set, whose number of
    dependencies still unprocessed or in progress is the least among the
    unprocessed files. *)
Theorem shift_returns_first_least (q : FileQueue) :
  indexed q (unprocessedFiles q) ->
  (unprocessedFiles q = [] /\ shift q = Throw (error "No more files to process")) \/
  (exists f q' deps before after,
     shift q = Return (f, q') /\
     unprocessedFiles q = before ++ f :: after /\
     dependencies q !! f = Some deps /\
     (forall g, g ∈ before ->
        exists gdeps, dependencies q !! g = Some gdeps /\
                      unresolved q deps < unresolved q gdeps) /\
     (forall g, g ∈ after ->
        exists gdeps, dependencies q !! g = Some gdeps /\
                      unresolved q deps <= unresolved q gdeps) /\
     dependencies q' = dependencies q /\
     unprocessedFiles q' = JsSet.delete (unprocessedFiles q) f /\
     processingFiles q' = JsSet.add (processingFiles q) f).
Proof.
  intros Hidx.
  destruct (selectLoop_selection q (unprocessedFiles q) [] None PositiveInfinity Hidx)
    as (r & minDeps' & Hloop & Hsel); [split; reflexivity |].
  simpl in Hsel. unfold shift, selectFileWithLeastDependencies. rewrite Hloop. simpl.
  destruct r as [f|].
  - right. destruct Hsel as (_ & before & after & Heq & Hbefore & Hafter).
    assert (Hf : f ∈ unprocessedFiles q)
      by (rewrite Heq; apply elem_of_app; right; left).
    destruct (Hidx f Hf) as [deps Hdeps].
    assert (Hcount : forall g, g ∈ unprocessedFiles q ->
              exists gdeps, dependencies q !! g = Some gdeps /\ count q g = unresolved q gdeps).
    { intros g Hg. destruct (Hidx g Hg) as [gdeps Hgdeps].
      exists gdeps. unfold count. rewrite Hgdeps. auto. }
    assert (Hcf : count q f = unresolved q deps) by (unfold count; rewrite Hdeps; reflexivity).
    eexists f, _, deps, before, after.
    split; [reflexivity |]. split; [exact Heq |]. split; [exact Hdeps |].
    split; [| split; [| repeat split]].
    + intros g Hg.
      destruct (Hcount g) as (gdeps & Hgdeps & Hcg);
        [rewrite Heq; apply elem_of_app; left; exact Hg |].
      exists gdeps. split; [exact Hgdeps |].
      rewrite <- Hcf, <- Hcg. apply Hbefore. exact Hg.
    + intros g Hg.
      destruct (Hcount g) as (gdeps & Hgdeps & Hcg);
        [rewrite Heq; apply elem_of_app; right; right; exact Hg |].
      exists gdeps. split; [exact Hgdeps |].
      rewrite <- Hcf, <- Hcg. apply Hafter. exact Hg.
  - left. destruct Hsel as [Hnil _]. split; [exact Hnil | reflexivity].
Qed.

Definition queue0 : FileQueue := FileQueue.new graph [fileC; fileB; fileA].

Example queue0_shift :
  match shift queue0 with
  | Return (f, q') => f = fileA /\ unprocessedFiles q' = [fileC; fileB]
  | Throw _ => False
  end.
Proof. vm_compute. split; reflexivity. Qed.

Lemma queue0_indexed : indexed queue0 (unprocessedFiles queue0).
Proof.
  intros f Hf.
  apply elem_of_cons in Hf as [-> | Hf]; [exists [fileB]; reflexivity |].
  apply elem_of_cons in Hf as [-> | Hf]; [exists [fileA]; reflexivity |].
  apply list_elem_of_singleton in Hf. subst f. exists []. reflexivity.
Defined.

Lemma shift_returns_first_least_witness :
  indexed queue0 (unprocessedFiles queue0) /\
  ((unprocessedFiles queue0 = [] /\
    shift queue0 = Throw (error "No more files to process")) \/
   (exists f q' deps before after,
      shift queue0 = Return (f, q') /\
      unprocessedFiles queue0 = before ++ f :: after /\
      dependencies queue0 !! f = Some deps /\
      (forall g, g ∈ before ->
         exists gdeps, dependencies queue0 !! g = Some gdeps /\
                       unresolved queue0 deps < unresolved queue0 gdeps) /\
      (forall g, g ∈ after ->
         exists gdeps, dependencies queue0 !! g = Some gdeps /\
                       unresolved queue0 deps <= unresolved queue0 gdeps) /\
      dependencies q' = dependencies queue0 /\
      unprocessedFiles q' = JsSet.delete (unprocessedFiles queue0) f /\
      processingFiles q' = JsSet.add (processingFiles queue0) f)).
Proof.
  split; [exact queue0_indexed | exact (shift_returns_first_least queue0 queue0_indexed)].
Defined.

End ScheduleClaims.

(** ** The orchestrator's schedule *)

Module OrchestratorClaims.
Import ProjectErrors FixProjectErrors Scenario.

Lemma add_cons k ks x :
  JsSet.add (k :: ks) x = if String.eqb k x then k :: ks else k :: JsSet.add ks x.
Proof.
  unfold JsSet.add, JsSet.has.
  destruct (String.eqb_spec k x) as [-> | Hne].
  - rewrite bool_decide_eq_true_2; [reflexivity | left].
  - destruct (bool_decide (x ∈ ks)) eqn:Hks.
    + rewrite bool_decide_eq_true_2; [reflexivity |].
      right. apply bool_decide_eq_true in Hks. exact Hks.
    + rewrite bool_decide_eq_false_2; [reflexivity |].
      apply bool_decide_eq_false in Hks.
      intros Hin. apply elem_of_cons in Hin as [-> | Hin]; [apply Hne; reflexivity | auto].
Qed.

Lemma keys_insertGrouped e groups :
  List.map fst (insertGrouped e groups) = JsSet.add (List.map fst groups) (filePath e).
Proof.
  induction groups as [|[k es] groups IH]; simpl; [reflexivity |].
  rewrite add_cons. destruct (String.eqb k (filePath e)); simpl; [reflexivity |].
  rewrite IH. reflexivity.
Qed.

(** The files handed to the queue are the files of the errors, each once,
    in the order of their first error. *)
Lemma errorFiles_of_list errors :
  errorFiles errors = JsSet.of_list (List.map filePath errors).
Proof.
  unfold errorFiles, groupErrorsByFile, JsSet.of_list.
  change (@nil string) with (List.map fst (@nil (string * list ProjectError))).
  generalize (@nil (string * list ProjectError)).
  induction errors as [|e errors IH]; intros acc; simpl; [reflexivity |].
  rewrite IH, keys_insertGrouped. reflexivity.
Qed.

(** Once no file is unprocessed, the order of the schedule is final. *)
Lemma complete_final p i failure :
  FileQueue.unprocessedFiles (queue p) = [] ->
  FileQueue.unprocessedFiles (queue (complete p i failure)) = [] /\
  order (complete p i failure) = order p.
Proof.
  intros Hnil. unfold complete.
  destruct (running p !! i) as [file|]; [| auto].
  destruct failure as [e|]; simpl; [auto |].
  unfold FileQueue.hasUnprocessedFiles. simpl. rewrite Hnil. simpl. auto.
Qed.

Lemma drain_final fuel :
  forall p,
    FileQueue.unprocessedFiles (queue p) = [] -> order (drain fuel p) = order p.
Proof.
  induction fuel as [|fuel IH]; intros p Hnil; simpl; [reflexivity |].
  destruct (running p) as [|f rest]; [reflexivity |].
  destruct (complete_final p 0 None Hnil) as [Hnil' Horder].
  rewrite IH; assumption.
Qed.

Lemma completions_final ends :
  forall p,
    FileQueue.unprocessedFiles (queue p) = [] ->
    let p' := List.fold_left (fun p '(i, failure) => complete p i failure) ends p in
    FileQueue.unprocessedFiles (queue p') = [] /\ order p' = order p.
Proof.
  induction ends as [|[i failure] ends IH]; intros p Hnil; simpl; [auto |].
  destruct (complete_final p i failure Hnil) as [Hnil' Horder].
  destruct (IH _ Hnil') as [Hnil'' Horder'].
  split; [exact Hnil'' | rewrite Horder'; exact Horder].
Qed.

(** The three orders in which two errors of [b] and one of [c] can come. *)
Lemma arrangements (l : list string) :
  l ≡ₚ [fileB; fileB; fileC] ->
  l = [fileB; fileB; fileC] \/ l = [fileB; fileC; fileB] \/ l = [fileC; fileB; fileB].
Proof.
  intros Hp. pose proof (Permutation_length Hp) as Hlen.
  destruct l as [|x [|y [|z [|]]]]; try discriminate.
  assert (Hin : forall u, In u [x; y; z] -> u = fileB \/ u = fileC).
  { intros u Hu. apply (Permutation_in _ Hp) in Hu.
    destruct Hu as [<- | [<- | [<- | []]]]; auto. }
  pose proof (proj1 (Permutation_count_occ string_dec _ _) Hp fileC) as Hcount.
  destruct (Hin x ltac:(simpl; auto)) as [-> | ->],
           (Hin y ltac:(simpl; auto)) as [-> | ->],
           (Hin z ltac:(simpl; auto)) as [-> | ->];
    vm_compute in Hcount; try discriminate; auto.
Qed.

(** The pool after the first [shift] of a single worker. *)
Definition afterFirst : Pool :=
  {| queue := {| FileQueue.dependencies := graph;
                 FileQueue.unprocessedFiles := [fileC];
                 FileQueue.processingFiles := [fileB] |};
     running := [fileB]; order := [fileB]; rejected := None |}.

Lemma serial_completions ends :
  Forall (fun e : nat * option Thrown => snd e = None) ends ->
  let p := List.fold_left (fun p '(i, failure) => complete p i failure) ends afterFirst in
  p = afterFirst \/
  (FileQueue.unprocessedFiles (queue p) = [] /\ order p = [fileB; fileC]).
Proof.
  intros Hends. simpl.
  induction Hends as [|[i failure] ends Hnone Hends IH]; simpl; [left; reflexivity |].
  simpl in Hnone. subst failure.
  destruct i as [|i].
  - right.
    assert (Hstep : FileQueue.unprocessedFiles (queue (complete afterFirst 0 None)) = [] /\
                    order (complete afterFirst 0 None) = [fileB; fileC])
      by (vm_compute; split; reflexivity).
    destruct Hstep as [Hnil Horder].
    destruct (completions_final ends _ Hnil) as [Hnil' Horder'].
    split; [exact Hnil' | rewrite Horder'; exact Horder].
  - replace (complete afterFirst (S i) None) with afterFirst; [exact IH |].
    unfold complete. simpl. destruct i; reflexivity.
Qed.

Lemma schedule_of_files project files ends :
  files = [fileB; fileC] \/ files = [fileC; fileB] ->
  Forall (fun e : nat * option Thrown => snd e = None) ends ->
  order (fixErrorsInAllFiles project graph files ends) = [fileB; fileC].
Proof.
  intros Hfiles Hends. unfold fixErrorsInAllFiles, maxConcurrency.
  destruct (bool_decide (Project.phase project = 1)).
  - (* two workers start at once *)
    set (started := Nat.iter _ spawn _).
    assert (Hstarted : FileQueue.unprocessedFiles (queue started) = [] /\
                       order started = [fileB; fileC])
      by (destruct Hfiles as [-> | ->]; vm_compute; split; reflexivity).
    destruct Hstarted as [Hnil Horder].
    destruct (completions_final ends _ Hnil) as [Hnil' Horder'].
    rewrite drain_final by exact Hnil'. rewrite Horder'. exact Horder.
  - (* one worker at a time *)
    set (started := Nat.iter _ spawn _).
    assert (Hstarted : started = afterFirst)
      by (destruct Hfiles as [-> | ->]; vm_compute; reflexivity).
    assert (Hlen : length files = 2%nat) by (destruct Hfiles as [-> | ->]; reflexivity).
    rewrite Hstarted, Hlen.
    destruct (serial_completions ends Hends) as [-> | [Hnil Horder]].
    + vm_compute. reflexivity.
    + rewrite drain_final by exact Hnil. exact Horder.
Qed.

Definition errorIn (file : string) : ProjectError :=
  {| source := src_typescript; filePath := file; line := 1; column := 1;
     message := "Parameter 'x' implicitly has an 'any' type."; code := CodeNumber 7006 |}.

(** C3 (as worded, refuted): with two errors in [b] and one in [c] the
    schedule is [b], [c]; the error-free [a] is not part of it. *)
Lemma schedule_does_not_start_with_a :
  schedule Demo.project2 graph [errorIn fileB; errorIn fileB; errorIn fileC] []
    = [fileB; fileC] /\
  schedule Demo.project2 graph [errorIn fileB; errorIn fileB; errorIn fileC] []
    <> [fileA; fileB; fileC].
Proof. vm_compute. split; [reflexivity | discriminate]. Qed.

(** A queue over all three files would hand them out as [a], [b], [c]. *)
Example queue_over_all_files :
  order (fixErrorsInAllFiles Demo.project2 graph [fileC; fileB; fileA] [])
    = [fileA; fileB; fileC].
Proof. vm_compute. reflexivity. Qed.

(** C3 (amended): in the project where [a] is free of errors, [b] imports
    [a] and has 2 errors and [c] imports [b] and has 1 error, only the files
    with errors are scheduled: whatever the order of the diagnostics, the
    phase and the order in which the controllers end (none of them
    throwing), [shift] returns [b] first, then [c], and never [a]. *)
Theorem schedule_of_scenario project (errors : list ProjectError)
    (ends : list (nat * option Thrown)) :
  List.map filePath errors ≡ₚ [fileB; fileB; fileC] ->
  Forall (fun e => snd e = None) ends ->
  schedule project graph errors ends = [fileB; fileC] /\
  fileA ∉ schedule project graph errors ends.
Proof.
  intros Hperm Hends.
  assert (Hfiles : errorFiles errors = [fileB; fileC] \/ errorFiles errors = [fileC; fileB]).
  { rewrite errorFiles_of_list.
    destruct (arrangements _ Hperm) as [-> | [-> | ->]]; vm_compute; auto. }
  assert (Hsched : schedule project graph errors ends = [fileB; fileC]).
  { unfold schedule.
    destruct (errorFiles errors) as [|f files] eqn:Hef.
    - destruct Hfiles; discriminate.
    - apply schedule_of_files; assumption. }
  split; [exact Hsched |].
  rewrite Hsched. intros Hin.
  apply elem_of_cons in Hin as [Heq | Hin]; [discriminate |].
  apply list_elem_of_singleton in Hin. discriminate.
Qed.

Lemma schedule_of_scenario_witness :
  schedule Demo.project1 graph [errorIn fileC; errorIn fileB; errorIn fileB] [(1%nat, None)]
    = [fileB; fileC].
Proof.
  apply (schedule_of_scenario Demo.project1
           [errorIn fileC; errorIn fileB; errorIn fileB] [(1%nat, None)]).
  - exact (Permutation_cons_append [fileB; fileB] fileC).
  - repeat constructor.
Defined.

End OrchestratorClaims.

(** ** The hook around the edits *)

Module HookFacts.
Import FileModificationHook.

Section WithProject.
Context `{NodePath} `{TypeScript} `{DiffApi}.
Variable project : Project.

(** A pre-edit or post-edit observation of [filePath]: the event of an
    editing tool whose input names that file. *)
Definition observes (event : HookEventName) (input : HookInput) (filePath : string) : Prop :=
  hook_event_name input = event /\
  isFileModificationTool (tool_name input) = true /\
  extractFilePath project (tool_input input) = Return filePath.

Lemma pre_first disk input w filePath transpiled :
  observes PreToolUse input filePath ->
  original w !! filePath = None ->
  Typescript.transpile disk filePath project = Return transpiled ->
  hook project disk input w =
    (EmptyOutput, set_original (<[filePath := transpiled]> (original w)) w).
Proof.
  intros (Hev & Htool & Hpath) Hnone Htr.
  unfold hook, handlePreToolUseEvent. rewrite Hev, Htool, Hpath, Hnone, Htr. reflexivity.
Qed.

Lemma pre_again disk input w filePath snapshot :
  observes PreToolUse input filePath ->
  original w !! filePath = Some snapshot ->
  hook project disk input w = (EmptyOutput, w).
Proof.
  intros (Hev & Htool & Hpath) Hsome.
  unfold hook, handlePreToolUseEvent. rewrite Hev, Htool, Hpath, Hsome. reflexivity.
Qed.

(** When the lowering of the first observation fails nothing is stored. *)
Lemma pre_first_failing disk input w filePath e :
  observes PreToolUse input filePath ->
  original w !! filePath = None ->
  Typescript.transpile disk filePath project = Throw e ->
  original (snd (hook project disk input w)) = original w.
Proof.
  intros (Hev & Htool & Hpath) Hnone Htr.
  unfold hook, handlePreToolUseEvent. rewrite Hev, Htool, Hpath, Hnone, Htr.
  destruct e; reflexivity.
Qed.

(** No event of the hook, whatever its kind, tool or file, replaces a
    snapshot that is stored. *)
Lemma hook_keeps_snapshot disk input w filePath snapshot :
  original w !! filePath = Some snapshot ->
  original (snd (hook project disk input w)) !! filePath = Some snapshot.
Proof.
  intros Hsome. unfold hook.
  destruct (hook_event_name input).
  - unfold handlePreToolUseEvent.
    destruct (negb (isFileModificationTool (tool_name input))); [exact Hsome |].
    destruct (extractFilePath project (tool_input input)) as [f|[cls msg|]];
      [| exact Hsome | exact Hsome].
    destruct (original w !! f) eqn:Hf; [exact Hsome |].
    destruct (Typescript.transpile disk f project) as [t|[cls msg|]];
      [| exact Hsome | exact Hsome].
    simpl. rewrite lookup_insert_ne; [exact Hsome | congruence].
  - unfold handlePostToolUseEvent.
    destruct (negb (isFileModificationTool (tool_name input))); [exact Hsome |].
    destruct (extractFilePath project (tool_input input)) as [f|[cls msg|]];
      [| exact Hsome | exact Hsome].
    destruct (detectRuntimeChange project disk w f) as [[d|]|[cls msg|]]; exact Hsome.
  - exact Hsome.
Qed.

Lemma hooks_keep_snapshot events :
  forall w filePath snapshot,
    original w !! filePath = Some snapshot ->
    original (snd (hooks project events w)) !! filePath = Some snapshot.
Proof.
  induction events as [|[input disk] events IH]; intros w filePath snapshot Hsome; simpl.
  - exact Hsome.
  - pose proof (hook_keeps_snapshot disk input w filePath snapshot Hsome) as Hstep.
    destruct (hook project disk input w) as [out w1]. simpl in Hstep.
    specialize (IH w1 filePath snapshot Hstep).
    destruct (hooks project events w1) as [outs w2]. exact IH.
Qed.

Lemma post_unchanged disk input w filePath snapshot :
  observes PostToolUse input filePath ->
  original w !! filePath = Some snapshot ->
  Typescript.transpile disk filePath project = Return snapshot ->
  hook project disk input w = (EmptyOutput, w).
Proof.
  intros (Hev & Htool & Hpath) Hsome Htr.
  unfold hook, handlePostToolUseEvent, detectRuntimeChange.
  rewrite Hev, Htool, Hpath, Hsome, Htr. simpl.
  rewrite String.eqb_refl. reflexivity.
Qed.


Lemma post_repeated disk input w filePath snapshot n :
  observes PostToolUse input filePath ->
  original w !! filePath = Some snapshot ->
  Typescript.transpile disk filePath project = Return snapshot ->
  hooks project (repeat (input, disk) n) w = (repeat EmptyOutput n, w).
Proof.
  intros Hobs Hsome Htr. induction n as [|n IH]; simpl; [reflexivity |].
  rewrite (post_unchanged disk input w filePath snapshot Hobs Hsome Htr), IH.
  reflexivity.
Qed.

(** A file that is not edited after its snapshot was taken is never
    reported: the pre-edit observation followed by any number of post-edit
    observations on the same working copy. *)
Lemma unedited_file_is_never_reported disk pre post w filePath transpiled n :
  observes PreToolUse pre filePath ->
  observes PostToolUse post filePath ->
  original w !! filePath = None ->
  Typescript.transpile disk filePath project = Return transpiled ->
  let '(outs, w') := hooks project ((pre, disk) :: repeat (post, disk) n) w in
  outs = repeat EmptyOutput (S n) /\
  behaviorModificationsDetected w' = behaviorModificationsDetected w.
Proof.
  intros Hpre Hpost Hnone Htr. simpl.
  rewrite (pre_first disk pre w filePath transpiled Hpre Hnone Htr).
  rewrite (post_repeated disk post _ filePath transpiled n Hpost); [| | exact Htr].
  - split; reflexivity.
  - simpl. apply lookup_insert_eq.
Qed.

Lemma post_missing disk input w filePath :
  observes PostToolUse input filePath ->
  original w !! filePath = None ->
  detectRuntimeChange project disk w filePath
    = Throw (error ("Missing original code for " +:+ filePath)) /\
  hook project disk input w =
    (EmptyOutput,
     console_error
       ("Error in file modification hook: Error: Missing original code for " +:+ filePath) w).
Proof.
  intros (Hev & Htool & Hpath) Hnone.
  unfold hook, handlePostToolUseEvent, detectRuntimeChange.
  rewrite Hev, Htool, Hpath, Hnone. split; reflexivity.
Qed.

End WithProject.
End HookFacts.

Module HookClaims.
Import FileModificationHook HookFacts.


Section WithProject.
Context `{NodePath} `{TypeScript} `{DiffApi}.
Variable project : Project.

(** C2 (amended): a post-edit observation that finds no snapshot for the
    edited file makes [detectRuntimeChange] throw, and the hook catches it:
    the error is printed, the hook answers with the empty output, the
    violation counter and the snapshots are unchanged, and nothing
    propagates to the run. *)
Theorem missing_snapshot_is_logged_and_skipped disk input w filePath :
  observes project PostToolUse input filePath ->
  original w !! filePath = None ->
  detectRuntimeChange project disk w filePath
    = Throw (error ("Missing original code for " +:+ filePath)) /\
  exists w',
    hook project disk input w = (EmptyOutput, w') /\
    console w' =
      console w ++
      ["Error in file modification hook: Error: Missing original code for " +:+ filePath] /\
    behaviorModificationsDetected w' = behaviorModificationsDetected w /\
    original w' = original w.
Proof.
  intros Hobs Hnone.
  destruct (post_missing project disk input w filePath Hobs Hnone) as [Hthrow Hhook].
  split; [exact Hthrow |].
  eexists. split; [exact Hhook |]. repeat split.
Qed.


(** C5: the first pre-edit observation of a file (one whose lowering
    succeeds) stores the lowering of the file as it is then; every later
    pre-edit observation of the file leaves the store as it is; and after
    any further events of the hook, on whatever working copies, the
    snapshot is still the lowering taken at the first observation. *)
Theorem pre_edit_observation_idempotent disk input w filePath transpiled :
  observes project PreToolUse input filePath ->
  original w !! filePath = None ->
  Typescript.transpile disk filePath project = Return transpiled ->
  exists w1,
    hook project disk input w = (EmptyOutput, w1) /\
    original w1 = <[filePath := transpiled]> (original w) /\
    (forall disk' input' w2,
       observes project PreToolUse input' filePath ->
       original w2 !! filePath = Some transpiled ->
       hook project disk' input' w2 = (EmptyOutput, w2)) /\
    (forall events,
       original (snd (hooks project events w1)) !! filePath = Some transpiled).
Proof.
  intros Hobs Hnone Htr.
  exists (set_original (<[filePath := transpiled]> (original w)) w).
  split; [eapply pre_first; eassumption |].
  split; [reflexivity |]. split.
  - intros disk' input' w2 Hobs' Hsome. eapply pre_again; eassumption.
  - intros events. apply hooks_keep_snapshot. simpl. apply lookup_insert_eq.
Qed.

End WithProject.

#[local] Existing Instances Demo.nodePath Demo.types Demo.diff.
#[local] Instance compiler : TypeScript := Demo.compiler ["/p/a.js"] (fun _ => []).

Definition editA : HookEventName -> HookInput :=
  fun event =>
    {| hook_event_name := event; tool_name := "Edit"; tool_input := WithFilePath "a.js" |}.

Definition diskBefore : Disk := {["/p/a.js" := "f(x)"]}.
Definition diskAfter : Disk := {["/p/a.js" := "g(x)"]}.

Definition snapshotTaken : HookWorld :=
  {| original := {["/p/a.js" := "f(x)"]}; behaviorModificationsDetected := 0; console := [] |}.

Lemma observes_editA event : observes Demo.project1 event (editA event) "/p/a.js".
Proof. repeat split. Defined.

Lemma transpile_before : Typescript.transpile diskBefore "/p/a.js" Demo.project1 = Return "f(x)".
Proof. vm_compute. reflexivity. Defined.


(** C2 (as worded, refuted): the post-edit observation of a file without
    snapshot ends with the empty output and a printed line; no error leaves
    the hook. *)
Lemma missing_snapshot_does_not_abort :
  handlePostToolUseEvent Demo.project1 diskAfter (editA PostToolUse) Demo.emptyHooks
    = (Throw (error "Missing original code for /p/a.js"), Demo.emptyHooks) /\
  hook Demo.project1 diskAfter (editA PostToolUse) Demo.emptyHooks
    = (EmptyOutput,
       {| original := ∅; behaviorModificationsDetected := 0;
          console :=
            ["Error in file modification hook: Error: Missing original code for /p/a.js"] |}).
Proof. split; reflexivity. Qed.

Lemma missing_snapshot_is_logged_and_skipped_witness :
  exists w',
    hook Demo.project1 diskAfter (editA PostToolUse) Demo.emptyHooks = (EmptyOutput, w') /\
    behaviorModificationsDetected w' = 0.
Proof.
  destruct (missing_snapshot_is_logged_and_skipped Demo.project1 diskAfter
              (editA PostToolUse) Demo.emptyHooks "/p/a.js"
              (observes_editA PostToolUse) eq_refl)
    as (_ & w' & Hhook & _ & Hcount & _).
  exists w'. split; [exact Hhook | exact Hcount].
Defined.


Lemma pre_edit_observation_idempotent_witness :
  exists w1,
    hook Demo.project1 diskBefore (editA PreToolUse) Demo.emptyHooks = (EmptyOutput, w1) /\
    original
      (snd (hooks Demo.project1
              [(editA PostToolUse, diskAfter); (editA PreToolUse, diskAfter)] w1)) !! "/p/a.js"
      = Some "f(x)".
Proof.
  destruct (pre_edit_observation_idempotent Demo.project1 diskBefore (editA PreToolUse)
              Demo.emptyHooks "/p/a.js" "f(x)" (observes_editA PreToolUse) eq_refl
              transpile_before)
    as (w1 & Hhook & _ & _ & Hkept).
  exists w1. split; [exact Hhook | apply Hkept].
Defined.

End HookClaims.

(** ** Errors of the agent *)

Module AgentErrors.
Import ClaudeCode.

(** Two prefixes that differ in their first character exclude each other. *)
Lemma startsWith_other_head text c p c' p' :
  startsWith text (String c p) = true -> c <> c' ->
  startsWith text (String c' p') = false.
Proof.
  unfold startsWith. destruct text as [|d text]; cbn [String.prefix]; [discriminate |].
  destruct (ascii_dec c d) as [<- | Hne]; [| discriminate].
  intros _ Hcc'. destruct (ascii_dec c' c) as [-> | _]; [contradiction | reflexivity].
Qed.

Lemma prompt_limit_message text :
  startsWith text "Prompt is too long" = true ->
  isErrorAndMayContinue (TextContent text)
    = Throw (ThrownError ClaudePromptLimitError "Prompt is too long").
Proof.
  intros Hp. unfold isErrorAndMayContinue, assistantMessageStartsWith.
  rewrite (startsWith_other_head _ _ _ "A" "PI Error: 400" Hp) by discriminate.
  rewrite (startsWith_other_head _ _ _ "S" "ession limit reached" Hp) by discriminate.
  rewrite (startsWith_other_head _ _ _ "W" "eekly limit reached" Hp) by discriminate.
  rewrite (startsWith_other_head _ _ _ "U" "sage limit reached" Hp) by discriminate.
  rewrite Hp. reflexivity.
Qed.

Lemma session_limit_message text :
  startsWith text "Session limit reached" = true \/
  startsWith text "Weekly limit reached" = true \/
  startsWith text "Usage limit reached" = true ->
  exists msg,
    isErrorAndMayContinue (TextContent text) = Throw (ThrownError ClaudeSessionLimitError msg).
Proof.
  unfold isErrorAndMayContinue, assistantMessageStartsWith.
  intros [Hp | [Hp | Hp]].
  - rewrite (startsWith_other_head _ _ _ "A" "PI Error: 400" Hp) by discriminate.
    rewrite Hp. eexists. reflexivity.
  - rewrite (startsWith_other_head _ _ _ "A" "PI Error: 400" Hp) by discriminate.
    rewrite (startsWith_other_head _ _ _ "S" "ession limit reached" Hp) by discriminate.
    rewrite Hp. eexists. reflexivity.
  - rewrite (startsWith_other_head _ _ _ "A" "PI Error: 400" Hp) by discriminate.
    rewrite (startsWith_other_head _ _ _ "S" "ession limit reached" Hp) by discriminate.
    rewrite (startsWith_other_head _ _ _ "W" "eekly limit reached" Hp) by discriminate.
    rewrite Hp. eexists. reflexivity.
Qed.

(** A stream that opens with an assistant message on which
    [isErrorAndMayContinue] throws ends the invocation with that error. *)
Lemma consume_throws verbose content rest e :
  isErrorAndMayContinue content = Throw e ->
  consume verbose false (AssistantMessage content :: rest) = Throw e.
Proof.
  intros Hthrow. simpl. rewrite Hthrow.
  destruct verbose; reflexivity.
Qed.

Section WithSdk.
Context `{AgentSdk}.

(** The world after one call of [query]. *)
Definition queried (w : Run.World) (prompt : string) (options : Options) : Run.World :=
  let '(_, (a, d, h)) :=
    query (Run.agent w) (Run.disk w) (Run.hookWorld w) prompt options in
  {| Run.agent := a; Run.disk := d; Run.hookWorld := h;
     Run.queries := S (Run.queries w); Run.log := Run.log w |}.

Lemma claudeCode_throws fuel prompt options verbose w e :
  consume verbose false
    (fst (query (Run.agent w) (Run.disk w) (Run.hookWorld w) prompt options)) = Throw e ->
  ClaudeCodeRun.claudeCode (S fuel) prompt options verbose w
    = Some (Throw e, queried w prompt options).
Proof.
  intros Hthrow. unfold queried. simpl.
  unfold mbind, run_bind, Run.bindM, Run.run_query, Run.lift.
  destruct (query _ _ _ prompt options) as [messages [[a d] h]]. simpl in *.
  rewrite Hthrow. reflexivity.
Qed.

End WithSdk.
End AgentErrors.

Module SuppressionClaim.
Import ProjectErrors FixErrors.

Section WithCollaborators.
Context `{NodePath} `{TypeScript} `{!ESLint.ESLintApi} `{AgentSdk} `{PromptFiles}.

(** The world in which [file] was rewritten to [content]. *)
Definition rewritten (w : Run.World) (file content : string) : Run.World :=
  {| Run.agent := Run.agent w; Run.disk := <[file := content]> (Run.disk w);
     Run.hookWorld := Run.hookWorld w; Run.queries := Run.queries w;
     Run.log := Run.log w |}.

Definition isPromptLimit (e : Thrown) : bool :=
  match e with
  | ThrownError ClaudePromptLimitError _ => true
  | _ => false
  end.

Lemma handleClaudeError_suppresses a e w f content :
  isPromptLimit e = true ->
  FixErrors.filePath a = Some f ->
  Run.disk w !! f = Some content ->
  handleClaudeError a e w
    = Some (Return tt, rewritten w f ("// @ts-nocheck" +:+ JsString.newline +:+ content)).
Proof.
  intros He Hf Hcontent. unfold handleClaudeError.
  destruct e as [[| |] msg|]; try discriminate. rewrite Hf.
  unfold mbind, run_bind, Run.bindM, Run.get_disk, Run.lift, readFile, Run.put_disk,
    writeFile, rewritten.
  rewrite Hcontent. reflexivity.
Qed.

Lemma handleClaudeError_rethrows a e w :
  isPromptLimit e = false \/ FixErrors.filePath a = None ->
  handleClaudeError a e w = Some (Throw e, w).
Proof.
  unfold handleClaudeError.
  destruct e as [[| |] msg|]; intros [He | Hf]; try discriminate; try reflexivity;
    destruct (FixErrors.filePath a); try discriminate; reflexivity.
Qed.

Lemma fixErrors_unfold fuel a errors w formatted prompt :
  ErrorFormatting.formatErrorsWithContext (Run.disk w) errors (project a) = Return formatted ->
  buildPrompt a formatted = Return prompt ->
  fixErrors fuel a errors w =
    Run.catch (runClaudeCode fuel a prompt) (fun e => _ ← handleClaudeError a e; Run.ret a) w.
Proof.
  intros Hfmt Hprompt. unfold fixErrors.
  unfold mbind at 1 2 3, run_bind, Run.bindM, Run.get_disk, Run.lift.
  rewrite Hfmt, Hprompt. reflexivity.
Qed.

(** A throw of a turn leaves the loop, and the controller, as it is. *)
Lemma iterate_propagates fuel n iteration a errors w e w' :
  fixErrors fuel (with_stats (set_iterations iteration (stats a)) a) errors w
    = Some (Throw e, w') ->
  iterate fuel (S n) iteration a errors w = Some (Throw e, w').
Proof.
  intros Hfix. cbn [iterate]. unfold mbind at 1, run_bind, Run.bindM.
  rewrite Hfix. reflexivity.
Qed.

Lemma runFixingIterations_propagates fuel a errors w e w' :
  let a0 := with_stats (set_initialErrorCount (Z.of_nat (length errors)) (stats a)) a in
  fixErrors fuel (with_stats (set_iterations 1 (stats a0)) a0) errors w
    = Some (Throw e, w') ->
  runFixingIterations fuel a errors w = Some (Throw e, w').
Proof.
  intros a0 Hfix. unfold runFixingIterations.
  pose proof (IterationCap.cap_at_least_5 (Z.of_nat (length errors))) as Hcap.
  destruct (Z.to_nat (calculateMaxIterations (Z.of_nat (length errors)))) as [|n] eqn:Hn;
    [lia |].
  unfold mbind at 1, run_bind, Run.bindM.
  fold a0. rewrite (iterate_propagates fuel n 1 a0 errors w e w' Hfix). reflexivity.
Qed.

(** C7: when the invocation of the agent made by [fixErrors] ends with an
    error, then, if the error is the prompt-limit error and the scope is a
    single file (that can be read), the file is rewritten to
    ["// @ts-nocheck"], a line feed and its previous content, [fixErrors]
    returns normally and no further [query] is made; in every other case,
    a session-limit error and a prompt-limit error of the whole-project
    scope included, [fixErrors] throws that same error and changes
    nothing.  An assistant message that starts with ["Prompt is too long"]
    makes the invocation throw the prompt-limit error, one that starts
    with ["Session limit reached"], ["Weekly limit reached"] or
    ["Usage limit reached"] the session-limit error. *)
Theorem suppression_fallback fuel a (errors : list ProjectError) w formatted prompt e wq :
  ErrorFormatting.formatErrorsWithContext (Run.disk w) errors (project a) = Return formatted ->
  buildPrompt a formatted = Return prompt ->
  runClaudeCode fuel a prompt w = Some (Throw e, wq) ->
  (forall f content,
     isPromptLimit e = true -> FixErrors.filePath a = Some f -> Run.disk wq !! f = Some content ->
     fixErrors fuel a errors w
       = Some (Return a, rewritten wq f ("// @ts-nocheck" +:+ JsString.newline +:+ content)) /\
     Run.queries (rewritten wq f ("// @ts-nocheck" +:+ JsString.newline +:+ content))
       = Run.queries wq) /\
  (isPromptLimit e = false \/ FixErrors.filePath a = None ->
   fixErrors fuel a errors w = Some (Throw e, wq)) /\
  (forall text verbose rest,
     startsWith text "Prompt is too long" = true ->
     ClaudeCode.consume verbose false
       (ClaudeCode.AssistantMessage (ClaudeCode.TextContent text) :: rest)
     = Throw (ThrownError ClaudePromptLimitError "Prompt is too long")) /\
  (forall text verbose rest,
     startsWith text "Session limit reached" = true \/
     startsWith text "Weekly limit reached" = true \/
     startsWith text "Usage limit reached" = true ->
     exists msg,
       ClaudeCode.consume verbose false
         (ClaudeCode.AssistantMessage (ClaudeCode.TextContent text) :: rest)
       = Throw (ThrownError ClaudeSessionLimitError msg)).
Proof.
  intros Hfmt Hprompt Hrun.
  pose proof (fixErrors_unfold fuel a errors w formatted prompt Hfmt Hprompt) as Hfix.
  unfold Run.catch in Hfix. rewrite Hrun in Hfix.
  split; [| split; [| split]].
  - intros f content He Hf Hcontent. split; [| reflexivity].
    rewrite Hfix. unfold mbind, run_bind, Run.bindM.
    rewrite (handleClaudeError_suppresses a e wq f content He Hf Hcontent). reflexivity.
  - intros Hother. rewrite Hfix. unfold mbind, run_bind, Run.bindM.
    rewrite (handleClaudeError_rethrows a e wq Hother). reflexivity.
  - intros text verbose rest Hp.
    apply AgentErrors.consume_throws, AgentErrors.prompt_limit_message. exact Hp.
  - intros text verbose rest Hp.
    destruct (AgentErrors.session_limit_message text Hp) as [msg Hmsg].
    exists msg. apply AgentErrors.consume_throws. exact Hmsg.
Qed.

End WithCollaborators.

#[local] Existing Instances Demo.nodePath Demo.types Demo.prompts
  Demo.oneFileCompiler Demo.silentLinter.

(** An agent that answers every prompt with the prompt-limit message. *)
#[local] Instance sdk : AgentSdk :=
  Demo.sdk
    (fun _ => [ClaudeCode.AssistantMessage (ClaudeCode.TextContent "Prompt is too long")])
    (fun _ disk => disk).

Definition world : Run.World :=
  {| Run.agent := (0%nat : Agent); Run.disk := {["/p/a.js" := "bad"]};
     Run.hookWorld := Demo.emptyHooks; Run.queries := 0; Run.log := [] |}.

Definition agent0 : FixErrorsAgent := FixErrors.new Demo.project1 (Some "/p/a.js").

Definition formatted0 : string :=
  Eval vm_compute in
    match ErrorFormatting.formatErrorsWithContext (Run.disk world)
            Demo.oneFileErrors Demo.project1 with
    | Return s => s
    | Throw _ => ""
    end.

Definition prompt0 : string :=
  Eval vm_compute in
    match buildPrompt agent0 formatted0 with
    | Return s => s
    | Throw _ => ""
    end.

Definition afterQuery : Run.World :=
  {| Run.agent := (1%nat : Agent); Run.disk := {["/p/a.js" := "bad"]};
     Run.hookWorld := Demo.emptyHooks; Run.queries := 1; Run.log := [] |}.

Lemma suppression_fallback_witness :
  fixErrors 1 agent0 Demo.oneFileErrors world
    = Some (Return agent0,
            rewritten afterQuery "/p/a.js" ("// @ts-nocheck" +:+ JsString.newline +:+ "bad")).
Proof.
  refine (proj1 (proj1 (suppression_fallback 1 agent0 Demo.oneFileErrors world
                          formatted0 prompt0
                          (ThrownError ClaudePromptLimitError "Prompt is too long")
                          afterQuery _ _ _)
                   "/p/a.js" "bad" eq_refl eq_refl _)).
  - vm_compute. reflexivity.
  - vm_compute. reflexivity.
  - vm_compute. reflexivity.
  - vm_compute. reflexivity.
Defined.

End SuppressionClaim.

Module ReportExample.
Import ProjectErrors ErrorFormatting.

(** 101 diagnostics on the first line of one file; the last one differs. *)
Definition diagnosticAt (code : Z) : ProjectError :=
  {| source := src_typescript; filePath := "/p/a.js"; line := 1; column := 1;
     message := "Parameter 'x' implicitly has an 'any' type."; code := CodeNumber code |}.

Definition diagnostics : list ProjectError :=
  repeat (diagnosticAt 7006) 100 ++ [diagnosticAt 2322].

Definition disk : Disk := {["/p/a.js" := "function f(x) {}"]}.

Definition report : string :=
  Eval vm_compute in
    match formatErrorsWithContext disk diagnostics Demo.project1 with
    | Return s => s
    | Throw _ => ""
    end.

Example report_header :
  startsWith report "There are 101 errors in total, here are the first 100:" = true /\
  JsString.includes report "TS7006" = true /\
  JsString.includes report "TS2322" = false.
Proof. vm_compute. repeat split. Qed.

Lemma report_is_limited_to_first_100_witness :
  formatErrorsWithContext disk diagnostics Demo.project1 = Return report /\
  formatErrorsWithContext disk (repeat (diagnosticAt 7006) 101) Demo.project1 = Return report.
Proof.
  assert (Hreport : formatErrorsWithContext disk diagnostics Demo.project1 = Return report)
    by (vm_compute; reflexivity).
  split; [exact Hreport |].
  apply (proj2 (Report.report_is_limited_to_first_100 disk diagnostics Demo.project1
                  report Hreport)); reflexivity.
Defined.

End ReportExample.

(** * Further properties of the sources *)

(** ** Grouping the diagnostics by file ([project-errors.ts], l. 65-129) *)

Module ErrorsPerFile.
Import ProjectErrors.

(** [countErrors] (l. 92-107): the pair [(totalTsErrors, totalEslintErrors)]. *)
Definition countErrors (errorsPerFile : list (string * list ProjectError)) : Z * Z :=
  List.fold_left
    (fun totals errors =>
       List.fold_left
         (fun '(totalTsErrors, totalEslintErrors) error =>
            if bool_decide (source error = src_typescript)
            then (totalTsErrors + 1, totalEslintErrors)
            else (totalTsErrors, totalEslintErrors + 1))
         errors totals)
    (List.map snd errorsPerFile) (0, 0).

(** [buildHeader] (l. 109-120) *)
Definition buildHeader (totalTsErrors totalEslintErrors fileCount : Z) : string :=
  let totalErrors := totalTsErrors + totalEslintErrors in
  let result :=
    "Found " +:+ toString totalErrors +:+ " errors in " +:+ toString fileCount +:+ " files" in
  let result :=
    if 0 <? totalEslintErrors
    then result +:+ " (" +:+ toString totalTsErrors +:+ " TS, "
           +:+ toString totalEslintErrors +:+ " ESLint)"
    else result in
  result +:+ "." +:+ JsString.newline +:+ JsString.newline +:+ "Errors  Files"
    +:+ JsString.newline.

(** [buildFileList] (l. 122-129) *)
Definition buildFileList (errorsPerFile : list (string * list ProjectError)) : string :=
  List.fold_left
    (fun result '(fileName, errors) =>
       result +:+ padStart 6 (toString (Z.of_nat (length errors))) +:+ "  " +:+ fileName
         +:+ JsString.newline)
    errorsPerFile "".

(** [formatErrorsPerFile] (l. 82-90) *)
Definition formatErrorsPerFile (errorsPerFile : list (string * list ProjectError)) : string :=
  let '(totalTsErrors, totalEslintErrors) := countErrors errorsPerFile in
  let fileCount := Z.of_nat (length errorsPerFile) in
  buildHeader totalTsErrors totalEslintErrors fileCount +:+ buildFileList errorsPerFile.

(** The diagnostics of one file, in the order of the list. *)
Definition ofFile (k : string) (errors : list ProjectError) : list ProjectError :=
  List.filter (fun e => String.eqb (filePath e) k) errors.

Lemma ofFile_app k xs ys : ofFile k (xs ++ ys) = ofFile k xs ++ ofFile k ys.
Proof. unfold ofFile. apply List.filter_app. Qed.

Lemma ofFile_none k errors :
  (forall e, e ∈ errors -> filePath e <> k) -> ofFile k errors = [].
Proof.
  induction errors as [|e errors IH]; intros Hne; simpl; [reflexivity |].
  destruct (String.eqb_spec (filePath e) k) as [Heq | _].
  - exfalso. exact (Hne e ltac:(left) Heq).
  - apply IH. intros x Hx. apply Hne. right. exact Hx.
Qed.

(** Inserting one diagnostic into the groups of the diagnostics [seen]. *)
Lemma insertGrouped_groups e seen ks :
  NoDup ks ->
  (filePath e ∉ ks -> ofFile (filePath e) seen = []) ->
  insertGrouped e (List.map (fun k => (k, ofFile k seen)) ks)
    = List.map (fun k => (k, ofFile k (seen ++ [e]))) (JsSet.add ks (filePath e)).
Proof.
  induction ks as [|k ks IH]; intros Hnd Hfresh.
  - simpl. rewrite ofFile_app, Hfresh by (intros Hin; inversion Hin).
    unfold ofFile at 1. simpl. rewrite String.eqb_refl. reflexivity.
  - cbn [List.map insertGrouped]. rewrite OrchestratorClaims.add_cons.
    apply NoDup_cons in Hnd as [Hk Hnd].
    destruct (String.eqb_spec k (filePath e)) as [Heq | Hne].
    + cbn [List.map]. rewrite ofFile_app. subst k.
      unfold ofFile at 3. simpl. rewrite String.eqb_refl. f_equal.
      apply List.map_ext_in. intros k' Hk'. f_equal.
      rewrite ofFile_app. unfold ofFile at 3. simpl.
      destruct (String.eqb_spec (filePath e) k') as [Heq | _].
      * exfalso. apply Hk. rewrite Heq. apply list_elem_of_In. exact Hk'.
      * rewrite app_nil_r. reflexivity.
    + cbn [List.map]. f_equal.
      * f_equal. rewrite ofFile_app. unfold ofFile at 3. simpl.
        destruct (String.eqb_spec (filePath e) k) as [Heq | _]; [congruence |].
        rewrite app_nil_r. reflexivity.
      * apply IH; [exact Hnd |].
        intros Hin. apply Hfresh. intros Hin'.
        apply elem_of_cons in Hin' as [Heq | Hin']; [congruence | auto].
Qed.

Lemma ofFile_unseen (errors : list ProjectError) k :
  k ∉ JsSet.of_list (List.map filePath errors) -> ofFile k errors = [].
Proof.
  intros Hk. apply ofFile_none. intros e He Heq. apply Hk.
  apply JsSetFacts.elem_of_of_list. subst k.
  apply list_elem_of_fmap. exists e. auto.
Qed.

Lemma of_list_snoc xs x : JsSet.of_list (xs ++ [x]) = JsSet.add (JsSet.of_list xs) x.
Proof. unfold JsSet.of_list. rewrite List.fold_left_app. reflexivity. Qed.

(** X1: [groupErrorsByFile] returns one entry per file, in the order of the
    first diagnostic of each file, and the entry of a file holds exactly the
    diagnostics of that file, in their order: no diagnostic is lost,
    duplicated or moved to another file. *)
Theorem groupErrorsByFile_partition (errors : list ProjectError) :
  groupErrorsByFile errors
    = List.map (fun k => (k, ofFile k errors)) (JsSet.of_list (List.map filePath errors)) /\
  NoDup (List.map fst (groupErrorsByFile errors)) /\
  (forall k es, (k, es) ∈ groupErrorsByFile errors -> es <> []).
Proof.
  assert (Hclosed : groupErrorsByFile errors
            = List.map (fun k => (k, ofFile k errors))
                (JsSet.of_list (List.map filePath errors))).
  { unfold groupErrorsByFile.
    assert (Hgen : forall rest seen,
              List.fold_left (fun acc e => insertGrouped e acc) rest
                (List.map (fun k => (k, ofFile k seen))
                   (JsSet.of_list (List.map filePath seen)))
              = List.map (fun k => (k, ofFile k (seen ++ rest)))
                  (JsSet.of_list (List.map filePath (seen ++ rest)))).
    { induction rest as [|e rest IH]; intros seen; simpl.
      - rewrite app_nil_r. reflexivity.
      - rewrite insertGrouped_groups;
          [| apply JsSetFacts.of_list_NoDup | apply ofFile_unseen].
        rewrite <- of_list_snoc.
        replace (List.map filePath seen ++ [filePath e])
          with (List.map filePath (seen ++ [e])) by (rewrite List.map_app; reflexivity).
        rewrite IH, <- app_assoc. reflexivity. }
    exact (Hgen errors []). }
  split; [exact Hclosed |]. rewrite Hclosed. split.
  - rewrite List.map_map. simpl. rewrite List.map_id. apply JsSetFacts.of_list_NoDup.
  - intros k es Hin.
    apply list_elem_of_fmap in Hin as (k' & [= -> ->] & Hk'). intros Hnil.
    apply JsSetFacts.elem_of_of_list, list_elem_of_fmap in Hk' as (e & -> & He).
    assert (Hmem : e ∈ ofFile (filePath e) errors).
    { unfold ofFile. apply list_elem_of_In, List.filter_In.
      split; [apply list_elem_of_In; exact He | apply String.eqb_refl]. }
    rewrite Hnil in Hmem. inversion Hmem.
Qed.

End ErrorsPerFile.

Module ErrorsPerFileSummary.
Import ProjectErrors ErrorsPerFile.

Definition isTs (e : ProjectError) : bool := bool_decide (source e = src_typescript).

(** How many diagnostics of a list stem from the type checker, and how
    many from the linter. *)
Definition tsCount (errors : list ProjectError) : Z :=
  Z.of_nat (length (List.filter isTs errors)).
Definition lintCount (errors : list ProjectError) : Z :=
  Z.of_nat (length (List.filter (fun e => negb (isTs e)) errors)).

Lemma counts_app xs ys :
  tsCount (xs ++ ys) = tsCount xs + tsCount ys /\
  lintCount (xs ++ ys) = lintCount xs + lintCount ys.
Proof.
  unfold tsCount, lintCount. rewrite !List.filter_app, !length_app. lia.
Qed.

Lemma counts_total errors : tsCount errors + lintCount errors = Z.of_nat (length errors).
Proof.
  unfold tsCount, lintCount. induction errors as [|e errors IH]; simpl; [reflexivity |].
  destruct (isTs e); simpl; lia.
Qed.

Lemma count_one_file errors a b :
  List.fold_left
    (fun '(totalTsErrors, totalEslintErrors) error =>
       if bool_decide (source error = src_typescript)
       then (totalTsErrors + 1, totalEslintErrors)
       else (totalTsErrors, totalEslintErrors + 1))
    errors (a, b)
  = (a + tsCount errors, b + lintCount errors).
Proof.
  revert a b. induction errors as [|e errors IH]; intros a b; simpl.
  - f_equal; unfold tsCount, lintCount; simpl; lia.
  - destruct (counts_app [e] errors) as [Hts Hlint].
    change (e :: errors) with ([e] ++ errors). rewrite Hts, Hlint.
    unfold tsCount at 1, lintCount at 1, isTs. simpl.
    destruct (bool_decide (source e = src_typescript)); simpl; rewrite IH; f_equal; lia.
Qed.

Lemma countErrors_flat groups :
  countErrors groups
    = (tsCount (List.concat (List.map snd groups)),
       lintCount (List.concat (List.map snd groups))).
Proof.
  unfold countErrors.
  assert (Hgen : forall gs a b,
            List.fold_left
              (fun totals errors =>
                 List.fold_left
                   (fun '(totalTsErrors, totalEslintErrors) error =>
                      if bool_decide (source error = src_typescript)
                      then (totalTsErrors + 1, totalEslintErrors)
                      else (totalTsErrors, totalEslintErrors + 1))
                   errors totals)
              gs (a, b)
            = (a + tsCount (List.concat gs), b + lintCount (List.concat gs))).
  { induction gs as [|g gs IH]; intros a b; simpl.
    - f_equal; unfold tsCount, lintCount; simpl; lia.
    - rewrite count_one_file, IH.
      destruct (counts_app g (List.concat gs)) as [-> ->]. f_equal; lia. }
  rewrite Hgen. reflexivity.
Qed.

Lemma insertGrouped_counts e groups :
  tsCount (List.concat (List.map snd (insertGrouped e groups)))
    = tsCount (List.concat (List.map snd groups)) + tsCount [e] /\
  lintCount (List.concat (List.map snd (insertGrouped e groups)))
    = lintCount (List.concat (List.map snd groups)) + lintCount [e].
Proof.
  induction groups as [|[k es] groups IH]; simpl.
  - split; reflexivity.
  - destruct (String.eqb k (filePath e)); simpl.
    + destruct (counts_app (es ++ [e]) (List.concat (List.map snd groups))) as [-> ->].
      destruct (counts_app es [e]) as [-> ->].
      destruct (counts_app es (List.concat (List.map snd groups))) as [-> ->].
      lia.
    + destruct (counts_app es (List.concat (List.map snd (insertGrouped e groups))))
        as [-> ->].
      destruct (counts_app es (List.concat (List.map snd groups))) as [-> ->].
      destruct IH as [-> ->]. lia.
Qed.

Lemma groupErrorsByFile_counts errors :
  tsCount (List.concat (List.map snd (groupErrorsByFile errors))) = tsCount errors /\
  lintCount (List.concat (List.map snd (groupErrorsByFile errors))) = lintCount errors.
Proof.
  unfold groupErrorsByFile.
  assert (Hgen : forall rest acc,
            tsCount (List.concat (List.map snd
                       (List.fold_left (fun acc e => insertGrouped e acc) rest acc)))
              = tsCount (List.concat (List.map snd acc)) + tsCount rest /\
            lintCount (List.concat (List.map snd
                         (List.fold_left (fun acc e => insertGrouped e acc) rest acc)))
              = lintCount (List.concat (List.map snd acc)) + lintCount rest).
  { induction rest as [|e rest IH]; intros acc; simpl.
    - unfold tsCount, lintCount. simpl. lia.
    - destruct (IH (insertGrouped e acc)) as [-> ->].
      destruct (insertGrouped_counts e acc) as [-> ->].
      destruct (counts_app [e] rest) as [Hts Hlint].
      change (e :: rest) with ([e] ++ rest). rewrite Hts, Hlint. lia. }
  destruct (Hgen errors []) as [Hts Hlint]. rewrite Hts, Hlint.
  unfold tsCount, lintCount. simpl. lia.
Qed.

(** X2: The summary that [formatErrorsPerFile] prints for the grouped
    diagnostics counts every diagnostic once: its totals are the numbers of
    type-checker and of linter diagnostics of the whole list, which add up
    to the length of the list, and its file count is the number of distinct
    files. *)
Theorem formatErrorsPerFile_counts (errors : list ProjectError) :
  countErrors (groupErrorsByFile errors) = (tsCount errors, lintCount errors) /\
  tsCount errors + lintCount errors = Z.of_nat (length errors) /\
  formatErrorsPerFile (groupErrorsByFile errors)
    = buildHeader (tsCount errors) (lintCount errors)
        (Z.of_nat (length (JsSet.of_list (List.map filePath errors))))
      +:+ buildFileList (groupErrorsByFile errors).
Proof.
  assert (Hcount : countErrors (groupErrorsByFile errors) = (tsCount errors, lintCount errors)).
  { rewrite countErrors_flat. destruct (groupErrorsByFile_counts errors) as [-> ->].
    reflexivity. }
  split; [exact Hcount |]. split; [apply counts_total |].
  unfold formatErrorsPerFile. rewrite Hcount.
  destruct (groupErrorsByFile_partition errors) as [Hclosed _].
  rewrite Hclosed at 1. rewrite length_map. reflexivity.
Qed.

Example formatErrorsPerFile_example :
  formatErrorsPerFile
    (groupErrorsByFile
       [OrchestratorClaims.errorIn "/p/b.js"; OrchestratorClaims.errorIn "/p/c.js";
        OrchestratorClaims.errorIn "/p/b.js"])
  = "Found 3 errors in 2 files." +:+ JsString.newline +:+ JsString.newline
      +:+ "Errors  Files" +:+ JsString.newline
      +:+ "     2  /p/b.js" +:+ JsString.newline
      +:+ "     1  /p/c.js" +:+ JsString.newline.
Proof. vm_compute. reflexivity. Qed.

End ErrorsPerFileSummary.

(** ** Which checkers the aggregator consults ([project-errors.ts], l. 19-33) *)

Module AggregatorPaths.
Import ProjectErrors Aggregator.

Section WithCompiler.
Context `{NodePath} `{TypeScript}.

(** X3: In the baseline phase, and for a JavaScript project in any phase, the
    linter is never consulted: whatever the linter would answer (or throw),
    [getErrors] gives the same result, and every diagnostic it returns stems
    from the type checker. *)
Theorem getErrors_without_linter (linter1 linter2 : ESLint.ESLintApi) disk project scope :
  Project.phase project = 1 \/ Project.data_language project = Some javascript ->
  @getErrors _ _ _ linter1 disk project scope = @getErrors _ _ _ linter2 disk project scope /\
  (forall errs e,
     @getErrors _ _ _ linter1 disk project scope = Return errs ->
     e ∈ errs -> source e = src_typescript).
Proof.
  intros Hskip.
  assert (Hs : skipsLinting project = Return true).
  { unfold skipsLinting, Project.language.
    destruct Hskip as [Hp | Hl].
    - rewrite bool_decide_eq_true_2 by exact Hp. reflexivity.
    - destruct (bool_decide (Project.phase project = 1)); [reflexivity |].
      rewrite Hl. reflexivity. }
  assert (Hform : forall linter : ESLint.ESLintApi,
            @getErrors _ _ _ linter disk project scope =
            (tsErrors ← Typescript.getTsErrors disk project scope None;
             mapM convertTsDiagnostic tsErrors)).
  { intros linter. unfold getErrors.
    destruct (Typescript.getTsErrors disk project scope None) as [ts|]; [| reflexivity].
    cbn [mbind completion_bind bind].
    destruct (mapM convertTsDiagnostic ts) as [es|]; [| reflexivity].
    cbn [bind]. rewrite Hs. reflexivity. }
  split; [rewrite (Hform linter1), (Hform linter2); reflexivity |].
  intros errs e Hget Hin. rewrite Hform in Hget.
  destruct (Typescript.getTsErrors disk project scope None) as [ts|]; [| discriminate].
  cbn [mbind completion_bind bind] in Hget. apply mapM_returns in Hget.
  destruct (proj1 (list_elem_of_lookup _ _) Hin) as [i Hi].
  destruct (Forall2_lookup_r _ _ _ _ _ Hget Hi) as (d & _ & Hconv).
  apply convertTsDiagnostic_returns in Hconv as (sf & pos & _ & _ & Hsrc & _).
  exact Hsrc.
Qed.

Context `{!ESLint.ESLintApi}.

(** X4: A file scope that the program does not contain makes [getErrors] throw
    before any diagnostic is computed or the linter is run. *)
Theorem getErrors_unknown_scope disk project f :
  getSourceFile (createOrGetWatchProgram disk (Project.tsconfigPath project)) f = None ->
  getErrors disk project (Some f)
    = Throw (error ("File '" +:+ f +:+ "' not found in the program.")).
Proof.
  intros Hnone. unfold getErrors, Typescript.getTsErrors, Typescript.getDiagnostics.
  cbn [mbind completion_bind bind]. rewrite Hnone. reflexivity.
Qed.

(** X5: Past the baseline phase a project whose language was never identified
    cannot be checked: once the type checker's diagnostics are converted,
    [getErrors] throws the getter's error instead of returning them. *)
Theorem getErrors_language_not_set disk project scope tsErrors converted :
  Typescript.getTsErrors disk project scope None = Return tsErrors ->
  mapM convertTsDiagnostic tsErrors = Return converted ->
  Project.phase project <> 1 ->
  Project.data_language project = None ->
  getErrors disk project scope = Throw (error "language is not set.").
Proof.
  intros Hts Hconv Hphase Hlang. unfold getErrors. rewrite Hts.
  cbn [mbind completion_bind bind]. rewrite Hconv. cbn [bind].
  unfold skipsLinting, Project.language.
  rewrite bool_decide_eq_false_2 by exact Hphase. rewrite Hlang. reflexivity.
Qed.

End WithCompiler.

#[local] Existing Instances Demo.nodePath Demo.types.

(** A linter that cannot run. *)
Definition brokenLinter : ESLint.ESLintApi :=
  {| ESLint.lintFiles := fun _ _ _ => Throw (error "ESLint is not installed") |}.

Lemma getErrors_without_linter_witness :
  @getErrors _ _ Demo.oneFileCompiler brokenLinter {["/p/a.js" := "bad"]} Demo.project1 None
    = @getErrors _ _ Demo.oneFileCompiler Demo.silentLinter
        {["/p/a.js" := "bad"]} Demo.project1 None.
Proof.
  exact (proj1 (@getErrors_without_linter _ _ Demo.oneFileCompiler brokenLinter
                  Demo.silentLinter {["/p/a.js" := "bad"]} Demo.project1 None
                  (or_introl eq_refl))).
Defined.

Lemma getErrors_unknown_scope_witness :
  @getErrors _ _ Demo.oneFileCompiler Demo.silentLinter ∅ Demo.project1 (Some "/p/zz.js")
    = Throw (error "File '/p/zz.js' not found in the program.").
Proof.
  apply (@getErrors_unknown_scope _ _ Demo.oneFileCompiler Demo.silentLinter).
  reflexivity.
Defined.

Definition projectWithoutLanguage : Project :=
  {| Project.path := "/p"; Project.phase := 2; Project.data_language := None |}.

Lemma getErrors_language_not_set_witness :
  @getErrors _ _ Demo.oneFileCompiler Demo.silentLinter ∅ projectWithoutLanguage None
    = Throw (error "language is not set.").
Proof.
  apply (@getErrors_language_not_set _ _ Demo.oneFileCompiler Demo.silentLinter
           ∅ projectWithoutLanguage None [] []); try reflexivity.
  discriminate.
Defined.

End AggregatorPaths.

(** ** Reading the source context of the report ([error-formatting.ts], l. 32-68) *)

Module ReportFiles.
Import ProjectErrors ErrorFormatting.

(** A string without colon. *)
Fixpoint colonFree (s : string) : bool :=
  match s with
  | EmptyString => true
  | String c s' => negb (Ascii.eqb c ":") && colonFree s'
  end.

Lemma colonFree_digits d : colonFree (NilEmpty.string_of_uint d) = true.
Proof. induction d; cbn [NilEmpty.string_of_uint colonFree]; try rewrite IHd; reflexivity. Qed.

Lemma colonFree_uint d : colonFree (NilZero.string_of_uint d) = true.
Proof. destruct d; try apply colonFree_digits. reflexivity. Qed.

Lemma colonFree_toString n : colonFree (toString n) = true.
Proof.
  unfold toString, NilZero.string_of_int.
  destruct (Z.to_int n); cbn [colonFree]; rewrite colonFree_uint; reflexivity.
Qed.

Lemma colonFree_with_colon a b : colonFree (a +:+ ":" +:+ b) = false.
Proof.
  induction a as [|c a IH]; [reflexivity |].
  change (colonFree (String c (a +:+ ":" +:+ b)) = false).
  cbn [colonFree]. rewrite IH. apply andb_false_r.
Qed.

(** The key [`${filePath}:${line}`] determines the path (and the line's text). *)
Lemma key_injective a b s t :
  colonFree s = true -> colonFree t = true ->
  a +:+ ":" +:+ s = b +:+ ":" +:+ t -> a = b /\ s = t.
Proof.
  intros Hs Ht. revert b. induction a as [|c a IH]; intros b Heq.
  - destruct b as [|c' b].
    + inversion Heq. auto.
    + change (String ":" s = String c' (b +:+ ":" +:+ t)) in Heq.
      inversion Heq; subst. rewrite colonFree_with_colon in Hs. discriminate.
  - destruct b as [|c' b].
    + change (String c (a +:+ ":" +:+ s) = String ":" t) in Heq.
      inversion Heq; subst. rewrite colonFree_with_colon in Ht. discriminate.
    + change (String c (a +:+ ":" +:+ s) = String c' (b +:+ ":" +:+ t)) in Heq.
      inversion Heq; subst. destruct (IH b) as [-> ->]; auto.
Qed.

Definition keyOf (e : ProjectError) : string :=
  filePath e +:+ ":" +:+ toString (line e - 1).

Lemma keyOf_path e1 e2 : keyOf e1 = keyOf e2 -> filePath e1 = filePath e2.
Proof.
  intros Heq. apply (key_injective _ _ _ _ (colonFree_toString _) (colonFree_toString _)) in Heq.
  tauto.
Qed.

Lemma map_get_key m k v : map_get m k = Some v -> k ∈ List.map fst m.
Proof.
  induction m as [|[k0 v0] m IH]; simpl; [discriminate |].
  destruct (String.eqb_spec k0 k) as [-> | Hne]; intros Hget; [left | right; auto].
Qed.

Lemma map_push_keys m k e : List.map fst (map_push m k e) = List.map fst m.
Proof.
  induction m as [|[k0 v0] m IH]; simpl; [reflexivity |].
  destruct (String.eqb k0 k); simpl; [reflexivity | rewrite IH; reflexivity].
Qed.

(** The keys of the map all come from diagnostics whose file was read. *)
Definition readable (disk : Disk) (m : LocationMap) : Prop :=
  forall k, k ∈ List.map fst m ->
    exists e, k = keyOf e /\ is_Some (disk !! filePath e).

Lemma groupStep_readable disk contextSize m e :
  readable disk m -> is_Some (disk !! filePath e) ->
  exists m', groupStep disk contextSize m e = Return m' /\ readable disk m'.
Proof.
  intros Hm [content Hcontent]. unfold groupStep. fold (keyOf e).
  destruct (map_get m (keyOf e)) as [v|] eqn:Hget.
  - eexists. split; [reflexivity |].
    intros k Hk. rewrite map_push_keys in Hk. apply Hm. exact Hk.
  - unfold formatCodeContext, readFile. rewrite Hcontent.
    cbn [mbind completion_bind bind]. eexists. split; [reflexivity |].
    intros k Hk. rewrite List.map_app in Hk. apply elem_of_app in Hk as [Hk | Hk].
    + apply Hm. exact Hk.
    + apply list_elem_of_singleton in Hk. exists e. split; [exact Hk | eauto].
Qed.

Lemma groupLoop_readable disk contextSize es :
  forall m,
    readable disk m ->
    (forall e, e ∈ es -> is_Some (disk !! filePath e)) ->
    exists m', groupLoop disk contextSize m es = Return m' /\ readable disk m'.
Proof.
  induction es as [|e es IH]; intros m Hm Hes; simpl.
  - exists m. auto.
  - destruct (groupStep_readable disk contextSize m e Hm (Hes e ltac:(left)))
      as (m1 & -> & Hm1).
    cbn [mbind completion_bind bind]. apply IH; [exact Hm1 |].
    intros x Hx. apply Hes. right. exact Hx.
Qed.

Lemma groupStep_missing disk contextSize m e :
  readable disk m -> disk !! filePath e = None ->
  groupStep disk contextSize m e
    = Throw (error ("ENOENT: no such file or directory, open '" +:+ filePath e +:+ "'")).
Proof.
  intros Hm Hnone. unfold groupStep. fold (keyOf e).
  destruct (map_get m (keyOf e)) as [v|] eqn:Hget.
  - exfalso. apply map_get_key in Hget.
    destruct (Hm _ Hget) as (e0 & Hkey & [content Hcontent]).
    apply keyOf_path in Hkey. rewrite Hkey, Hcontent in Hnone. discriminate.
  - unfold formatCodeContext, readFile. rewrite Hnone. reflexivity.
Qed.

(** X6: The report is produced whenever every file named by one of the first
    100 diagnostics can be read; the files of later diagnostics are never
    opened. *)
Theorem report_is_produced disk (es : list ProjectError) project :
  (forall e, e ∈ take 100 es -> is_Some (disk !! filePath e)) ->
  exists report, formatErrorsWithContext disk es project = Return report.
Proof.
  intros Hes. unfold formatErrorsWithContext, groupErrorsByLocation.
  change (Z.to_nat MAX_ERRORS_PER_BATCH) with 100%nat.
  destruct (groupLoop_readable disk (determineContextSize (Z.of_nat (length es)))
              (take 100 es) []) as (m & -> & _); [intros k Hk; inversion Hk | exact Hes |].
  cbn [mbind completion_bind bind].
  destruct (MAX_ERRORS_PER_BATCH <? Z.of_nat (length es)); eexists; reflexivity.
Qed.

(** X7: If one of the first 100 diagnostics names a file that cannot be read,
    no report is produced: formatting throws the error of reading the first
    such file. *)
Theorem report_needs_the_files disk (es : list ProjectError) project pre e post :
  take 100 es = pre ++ e :: post ->
  (forall x, x ∈ pre -> is_Some (disk !! filePath x)) ->
  disk !! filePath e = None ->
  formatErrorsWithContext disk es project
    = Throw (error ("ENOENT: no such file or directory, open '" +:+ filePath e +:+ "'")).
Proof.
  intros Htake Hpre Hnone. unfold formatErrorsWithContext, groupErrorsByLocation.
  change (Z.to_nat MAX_ERRORS_PER_BATCH) with 100%nat. rewrite Htake.
  set (c := determineContextSize (Z.of_nat (length es))).
  assert (Hloop : forall xs m,
            readable disk m ->
            (forall x, x ∈ xs -> is_Some (disk !! filePath x)) ->
            groupLoop disk c m (xs ++ e :: post)
              = Throw (error ("ENOENT: no such file or directory, open '"
                                +:+ filePath e +:+ "'"))).
  { induction xs as [|x xs IH]; intros m Hm Hxs; simpl.
    - rewrite (groupStep_missing disk c m e Hm Hnone). reflexivity.
    - destruct (groupStep_readable disk c m x Hm (Hxs x ltac:(left))) as (m1 & -> & Hm1).
      cbn [mbind completion_bind bind]. apply IH; [exact Hm1 |].
      intros y Hy. apply Hxs. right. exact Hy. }
  rewrite (Hloop pre []); [reflexivity | intros k Hk; inversion Hk | exact Hpre].
Qed.

Lemma report_is_produced_witness :
  exists report,
    formatErrorsWithContext ReportExample.disk ReportExample.diagnostics Demo.project1
      = Return report.
Proof.
  apply report_is_produced. intros e He.
  assert (Hpath : filePath e = "/p/a.js").
  { unfold ReportExample.diagnostics in He. rewrite take_app_le in He by (simpl; lia).
    rewrite take_ge in He by (simpl; lia).
    apply list_elem_of_In, List.repeat_spec in He. subst e. reflexivity. }
  rewrite Hpath. exists "function f(x) {}". reflexivity.
Defined.

Lemma report_needs_the_files_witness :
  formatErrorsWithContext ∅ [ReportExample.diagnosticAt 7006] Demo.project1
    = Throw (error "ENOENT: no such file or directory, open '/p/a.js'").
Proof.
  apply (report_needs_the_files ∅ [ReportExample.diagnosticAt 7006] Demo.project1
           [] (ReportExample.diagnosticAt 7006) []).
  - reflexivity.
  - intros x Hx. inversion Hx.
  - reflexivity.
Defined.

End ReportFiles.

(** ** The states of the file schedule ([file-queue.ts]) *)

Module QueueStates.
Import FileQueue Schedule.

(** A file is in at most one of the two sets, and in each at most once. *)
Definition wellFormed (q : FileQueue) : Prop :=
  NoDup (unprocessedFiles q) /\ NoDup (processingFiles q) /\
  (forall f, f ∈ unprocessedFiles q -> f ∉ processingFiles q).

Lemma delete_NoDup s x : NoDup s -> NoDup (JsSet.delete s x).
Proof.
  intros Hnd. induction Hnd as [|y s Hy Hnd IH]; simpl; [constructor |].
  destruct (negb (String.eqb y x)); [| exact IH].
  constructor; [| exact IH].
  intros Hin. apply JsSetFacts.elem_of_delete in Hin as [Hin _]. auto.
Qed.

Lemma selectLoop_member q files :
  forall bestFile minDeps f,
    selectLoop q files bestFile minDeps = Return (Some f) ->
    f ∈ files \/ bestFile = Some f.
Proof.
  induction files as [|g files IH]; intros bestFile minDeps f; simpl.
  - intros Hr. inversion Hr. auto.
  - destruct (countUnprocessedDependencies q g) as [deps|]; simpl; [| discriminate].
    destruct (lt_num deps minDeps); intros Hloop; apply IH in Hloop as [Hin | Hbest].
    + left. right. exact Hin.
    + inversion Hbest. left. left.
    + left. right. exact Hin.
    + auto.
Qed.

Lemma shift_member q f q' :
  shift q = Return (f, q') ->
  f ∈ unprocessedFiles q /\
  dependencies q' = dependencies q /\
  unprocessedFiles q' = JsSet.delete (unprocessedFiles q) f /\
  processingFiles q' = JsSet.add (processingFiles q) f.
Proof.
  unfold shift, selectFileWithLeastDependencies.
  destruct (selectLoop q (unprocessedFiles q) None PositiveInfinity) as [[g|]|] eqn:Hloop;
    simpl; try discriminate.
  intros Hr. inversion Hr; subst. simpl.
  apply selectLoop_member in Hloop as [Hin | Hbest]; [auto | discriminate].
Qed.

(** X8: The constructor gives a well-formed queue; [shift] and
    [markAsProcessed] keep it well formed.  A file returned by [shift] was
    unprocessed, is in progress afterwards and no longer unprocessed; no
    other file changes its state; [markAsProcessed] takes its file out of
    the files in progress and touches nothing else. *)
Theorem queue_states graph files q :
  wellFormed (FileQueue.new graph files) /\
  (wellFormed q ->
   (forall f q',
      shift q = Return (f, q') ->
      wellFormed q' /\
      f ∈ unprocessedFiles q /\ (f ∉ unprocessedFiles q') /\ f ∈ processingFiles q' /\
      (forall g, g <> f ->
         (g ∈ unprocessedFiles q' <-> g ∈ unprocessedFiles q) /\
         (g ∈ processingFiles q' <-> g ∈ processingFiles q))) /\
   (forall f,
      wellFormed (markAsProcessed q f) /\
      (f ∉ processingFiles (markAsProcessed q f)) /\
      unprocessedFiles (markAsProcessed q f) = unprocessedFiles q /\
      (forall g, g <> f ->
         (g ∈ processingFiles (markAsProcessed q f) <-> g ∈ processingFiles q)))).
Proof.
  split; [| intros (Hu & Hp & Hdisj); split].
  - unfold wellFormed, FileQueue.new. simpl.
    split; [apply JsSetFacts.of_list_NoDup |].
    split; [constructor | intros f _ Hin; inversion Hin].
  - intros f q' Hshift.
    destruct (shift_member q f q' Hshift) as (Hf & _ & Hu' & Hp').
    split; [| split; [exact Hf | split; [| split]]].
    + unfold wellFormed. rewrite Hu', Hp'.
      split; [apply delete_NoDup; exact Hu |].
      split; [apply JsSetFacts.add_NoDup; exact Hp |].
      intros g Hg Hg'. apply JsSetFacts.elem_of_delete in Hg as [Hg Hne].
      apply JsSetFacts.elem_of_add in Hg' as [Hg' | Hg']; [exact (Hdisj g Hg Hg') | auto].
    + rewrite Hu'. intros Hin. apply JsSetFacts.elem_of_delete in Hin as [_ Hne]. auto.
    + rewrite Hp'. apply JsSetFacts.elem_of_add. auto.
    + intros g Hne. rewrite Hu', Hp', JsSetFacts.elem_of_delete, JsSetFacts.elem_of_add.
      tauto.
  - intros f. unfold wellFormed, markAsProcessed. simpl.
    split; [| split; [| split; [reflexivity |]]].
    + split; [exact Hu |]. split; [apply delete_NoDup; exact Hp |].
      intros g Hg Hg'. apply JsSetFacts.elem_of_delete in Hg' as [Hg' _].
      exact (Hdisj g Hg Hg').
    + intros Hin. apply JsSetFacts.elem_of_delete in Hin as [_ Hne]. auto.
    + intros g Hne. rewrite JsSetFacts.elem_of_delete. tauto.
Qed.

Lemma queue_states_witness :
  wellFormed (FileQueue.new Scenario.graph [Scenario.fileC; Scenario.fileB; Scenario.fileC]) /\
  wellFormed
    (markAsProcessed
       (FileQueue.new Scenario.graph [Scenario.fileC; Scenario.fileB; Scenario.fileC])
       Scenario.fileB).
Proof.
  pose proof (queue_states Scenario.graph [Scenario.fileC; Scenario.fileB; Scenario.fileC]
                (FileQueue.new Scenario.graph [Scenario.fileC; Scenario.fileB; Scenario.fileC]))
    as [Hnew Hkeep].
  split; [exact Hnew |].
  exact (proj1 (proj2 (Hkeep Hnew) Scenario.fileB)).
Defined.

(** X9: A queued file that the dependency graph does not know makes [shift]
    throw the graph's error, for the first such file in iteration order,
    even when other files could be selected. *)
Theorem shift_unindexed q pre f post :
  unprocessedFiles q = pre ++ f :: post ->
  indexed q pre ->
  dependencies q !! f = None ->
  shift q = Throw (error ("No dependencies found for file: " +:+ f)).
Proof.
  intros Hfiles Hpre Hnone. unfold shift, selectFileWithLeastDependencies.
  rewrite Hfiles.
  assert (Hloop : forall xs bestFile minDeps,
            indexed q xs ->
            selectLoop q (xs ++ f :: post) bestFile minDeps
              = Throw (error ("No dependencies found for file: " +:+ f))).
  { induction xs as [|x xs IH]; intros bestFile minDeps Hxs; simpl.
    - unfold countUnprocessedDependencies, FileDependencies.get. rewrite Hnone. reflexivity.
    - rewrite (count_indexed q x (x :: xs) Hxs ltac:(left)). simpl.
      assert (Hxs' : indexed q xs) by (intros g Hg; apply Hxs; right; exact Hg).
      destruct (lt_num (count q x) minDeps); apply IH; exact Hxs'. }
  rewrite (Hloop pre None PositiveInfinity Hpre). reflexivity.
Qed.

Lemma shift_unindexed_witness :
  shift (FileQueue.new Scenario.graph [Scenario.fileA; "/p/types.d.ts"; Scenario.fileB])
    = Throw (error "No dependencies found for file: /p/types.d.ts").
Proof.
  apply (shift_unindexed _ [Scenario.fileA] "/p/types.d.ts" [Scenario.fileB]).
  - reflexivity.
  - intros g Hg. apply list_elem_of_singleton in Hg. subst g. exists []. reflexivity.
  - reflexivity.
Defined.

End QueueStates.

(** ** Emptying the file schedule *)

Module QueueDrain.
Import FileQueue Schedule QueueStates.

(** [n] calls of [shift] in a row; in the serial regime each returned file
    is marked as processed before the next call, as a single worker does. *)
Fixpoint shifts (serial : bool) (n : nat) (q : FileQueue)
  : Completion (list string * FileQueue) :=
  match n with
  | O => Return ([], q)
  | S n' =>
      '(f, q1) ← shift q;
      let q1 := if serial then markAsProcessed q1 f else q1 in
      '(fs, q2) ← shifts serial n' q1;
      Return (f :: fs, q2)
  end.

Lemma delete_Permutation s x : NoDup s -> x ∈ s -> s ≡ₚ x :: JsSet.delete s x.
Proof.
  intros Hnd. induction Hnd as [|y s Hy Hnd IH]; intros Hin; [inversion Hin |].
  simpl. destruct (String.eqb_spec y x) as [-> | Hne]; simpl.
  - assert (Hsame : JsSet.delete s x = s).
    { clear IH Hnd Hin. induction s as [|z s IHs]; [reflexivity |].
      simpl. destruct (String.eqb_spec z x) as [-> | _]; simpl.
      - exfalso. apply Hy. left.
      - rewrite IHs; [reflexivity |]. intros Hx. apply Hy. right. exact Hx. }
    fold (JsSet.delete s x). rewrite Hsame. reflexivity.
  - apply elem_of_cons in Hin as [-> | Hin]; [contradiction |].
    fold (JsSet.delete s x). rewrite (IH Hin) at 1. apply Permutation_swap.
Qed.

Lemma shift_some q :
  indexed q (unprocessedFiles q) -> unprocessedFiles q <> [] ->
  exists f q', shift q = Return (f, q').
Proof.
  intros Hidx Hne.
  destruct (selectLoop_selection q (unprocessedFiles q) [] None PositiveInfinity Hidx)
    as (r & minDeps' & Hloop & Hsel); [split; reflexivity |].
  unfold shift, selectFileWithLeastDependencies. rewrite Hloop. simpl.
  destruct r as [f|]; [eexists _, _; reflexivity |].
  simpl in Hsel. destruct Hsel as [Hnil _]. contradiction.
Qed.

Lemma shift_none q :
  unprocessedFiles q = [] -> shift q = Throw (error "No more files to process").
Proof.
  intros Hnil. unfold shift, selectFileWithLeastDependencies. rewrite Hnil. reflexivity.
Qed.

(** X10: Exhaustion: on a queue whose files are all indexed, as many calls of
    [shift] as there are unprocessed files succeed, whether or not the files
    are marked as processed in between; together they return every
    unprocessed file exactly once, and the next call throws. *)
Theorem shift_exhausts serial q :
  indexed q (unprocessedFiles q) ->
  NoDup (unprocessedFiles q) ->
  exists fs q',
    shifts serial (length (unprocessedFiles q)) q = Return (fs, q') /\
    fs ≡ₚ unprocessedFiles q /\
    unprocessedFiles q' = [] /\
    shift q' = Throw (error "No more files to process").
Proof.
  remember (length (unprocessedFiles q)) as n eqn:Hn.
  revert q Hn. induction n as [|n IH]; intros q Hn Hidx Hnd.
  - exists [], q. symmetry in Hn. apply nil_length_inv in Hn.
    simpl. rewrite Hn. repeat split; [reflexivity | apply shift_none; exact Hn].
  - destruct (shift_some q Hidx) as (f & q1 & Hshift).
    { intros Hnil. rewrite Hnil in Hn. discriminate. }
    destruct (shift_member q f q1 Hshift) as (Hf & Hdeps & Hu & Hp).
    set (q1' := if serial then markAsProcessed q1 f else q1).
    assert (Hu' : unprocessedFiles q1' = JsSet.delete (unprocessedFiles q) f)
      by (subst q1'; destruct serial; exact Hu).
    assert (Hdeps' : dependencies q1' = dependencies q)
      by (subst q1'; destruct serial; exact Hdeps).
    pose proof (delete_Permutation _ f Hnd Hf) as Hperm.
    destruct (IH q1') as (fs & q2 & Hrest & Hfs & Hnil & Hthrow).
    + rewrite Hu'. apply Permutation_length in Hperm. simpl in Hperm. lia.
    + intros g Hg. rewrite Hdeps'. apply Hidx. rewrite Hu' in Hg.
      apply JsSetFacts.elem_of_delete in Hg as [Hg _]. exact Hg.
    + rewrite Hu'. apply delete_NoDup. exact Hnd.
    + exists (f :: fs), q2. simpl. rewrite Hshift.
      cbn [mbind completion_bind bind]. fold q1'. rewrite Hrest.
      cbn [bind]. split; [reflexivity |]. split; [| auto].
      rewrite Hperm, Hfs, Hu'. reflexivity.
Qed.

Lemma shift_exhausts_witness :
  exists fs q',
    shifts true 3 ScheduleClaims.queue0 = Return (fs, q') /\
    fs ≡ₚ [Scenario.fileC; Scenario.fileB; Scenario.fileA].
Proof.
  destruct (shift_exhausts true ScheduleClaims.queue0 ScheduleClaims.queue0_indexed)
    as (fs & q' & Hshifts & Hperm & _).
  - apply (JsSetFacts.of_list_NoDup [Scenario.fileC; Scenario.fileB; Scenario.fileA]).
  - exists fs, q'. split; [exact Hshifts | exact Hperm].
Defined.

End QueueDrain.

(** ** Dependencies first *)

Module DependencyOrder.
Import FileQueue Schedule QueueStates QueueDrain.

(** The imports among the unprocessed files are acyclic: some rank
    decreases along each of them. *)
Definition ranked (q : FileQueue) (rank : string -> nat) : Prop :=
  forall f deps d,
    f ∈ unprocessedFiles q -> dependencies q !! f = Some deps ->
    d ∈ deps -> d ∈ unprocessedFiles q -> (rank d < rank f)%nat.

Lemma least_rank (rank : string -> nat) (l : list string) :
  l <> [] -> exists m, m ∈ l /\ forall g, g ∈ l -> (rank m <= rank g)%nat.
Proof.
  induction l as [|x l IH]; intros Hne; [contradiction |].
  destruct l as [|y l].
  - exists x. split; [left |]. intros g Hg. apply list_elem_of_singleton in Hg. subst. lia.
  - destruct IH as (m & Hm & Hleast); [discriminate |].
    destruct (le_lt_dec (rank x) (rank m)) as [Hle | Hlt].
    + exists x. split; [left |]. intros g Hg.
      apply elem_of_cons in Hg as [-> | Hg]; [lia | specialize (Hleast g Hg); lia].
    + exists m. split; [right; exact Hm |]. intros g Hg.
      apply elem_of_cons in Hg as [-> | Hg]; [lia | auto].
Qed.

Lemma filter_none {A} (p : A -> bool) (l : list A) :
  List.filter p l = [] <-> forall x, x ∈ l -> p x = false.
Proof.
  induction l as [|y l IH]; simpl.
  - split; [intros _ x Hx; inversion Hx | reflexivity].
  - destruct (p y) eqn:Hy.
    + split; [discriminate |]. intros Hall. rewrite (Hall y ltac:(left)) in Hy. discriminate.
    + rewrite IH. split.
      * intros Hall x Hx. apply elem_of_cons in Hx as [-> | Hx]; auto.
      * intros Hall x Hx. apply Hall. right. exact Hx.
Qed.

(** With nothing in progress and acyclic imports, the file that [shift]
    returns has no unprocessed dependency. *)
Lemma shift_resolved q rank f q' :
  processingFiles q = [] ->
  indexed q (unprocessedFiles q) ->
  ranked q rank ->
  shift q = Return (f, q') ->
  forall deps d, dependencies q !! f = Some deps -> d ∈ deps -> d ∉ unprocessedFiles q.
Proof.
  intros Hproc Hidx Hrank Hshift deps d Hdeps Hd Hin.
  destruct (selectLoop_selection q (unprocessedFiles q) [] None PositiveInfinity Hidx)
    as (r & minDeps' & Hloop & Hsel); [split; reflexivity |].
  unfold shift, selectFileWithLeastDependencies in Hshift. rewrite Hloop in Hshift.
  simpl in Hshift. destruct r as [f0|]; [| discriminate].
  inversion Hshift; subst f0. clear Hshift.
  simpl in Hsel. destruct Hsel as (_ & before & after & Heq & Hbefore & Hafter).
  assert (Hf : f ∈ unprocessedFiles q) by (rewrite Heq; apply elem_of_app; right; left).
  (* a file of least rank has count 0 *)
  destruct (least_rank rank (unprocessedFiles q)) as (m & Hm & Hleast).
  { intros Hnil. rewrite Hnil in Hf. inversion Hf. }
  assert (Hcm : count q m = 0).
  { destruct (Hidx m Hm) as [mdeps Hmdeps]. unfold count, unresolved. rewrite Hmdeps.
    replace (List.filter _ mdeps) with (@nil string); [reflexivity |].
    symmetry. apply filter_none. intros x Hx. apply bool_decide_eq_false.
    intros [Hux | Hpx].
    - specialize (Hrank m mdeps x Hm Hmdeps Hx Hux). specialize (Hleast x Hux). lia.
    - rewrite Hproc in Hpx. inversion Hpx. }
  (* so the selected file has count 0 as well *)
  assert (Hcf : count q f <= 0).
  { rewrite <- Hcm. rewrite Heq in Hm.
    apply elem_of_app in Hm as [Hm | Hm]; [specialize (Hbefore m Hm); lia |].
    apply elem_of_cons in Hm as [-> | Hm]; [lia | apply Hafter; exact Hm]. }
  unfold count, unresolved in Hcf. rewrite Hdeps in Hcf.
  assert (Hnil : List.filter
                   (fun dep => bool_decide (dep ∈ unprocessedFiles q \/ dep ∈ processingFiles q))
                   deps = []).
  { apply nil_length_inv. lia. }
  pose proof (proj1 (filter_none _ _) Hnil d Hd) as Hfalse.
  apply bool_decide_eq_false in Hfalse. apply Hfalse. left. exact Hin.
Qed.

(** X11: Dependency-first order of a single worker: when the imports among the
    queued files are acyclic and nothing is in progress, every file that a
    run of [shift], [markAsProcessed], [shift], ... returns comes after all
    the queued files it imports. *)
Theorem serial_order_is_dependency_first rank n :
  forall q fs q',
    processingFiles q = [] ->
    indexed q (unprocessedFiles q) ->
    ranked q rank ->
    shifts true n q = Return (fs, q') ->
    forall i f deps d,
      fs !! i = Some f -> dependencies q !! f = Some deps ->
      d ∈ deps -> d ∈ unprocessedFiles q -> d ∈ take i fs.
Proof.
  induction n as [|n IH]; intros q fs q' Hproc Hidx Hrank Hshifts i f deps d Hi Hdeps Hd Hin.
  - simpl in Hshifts. inversion Hshifts; subst. inversion Hi.
  - simpl in Hshifts.
    destruct (shift q) as [[f0 q1]|] eqn:Hshift; [| discriminate].
    cbn [mbind completion_bind bind] in Hshifts.
    destruct (shifts true n (markAsProcessed q1 f0)) as [[fs' q2]|] eqn:Hrest;
      [| discriminate].
    cbn [bind] in Hshifts. inversion Hshifts; subst fs q'. clear Hshifts.
    destruct (shift_member q f0 q1 Hshift) as (Hf0 & Hdeps1 & Hu1 & Hp1).
    destruct i as [|j]; simpl in Hi.
    + inversion Hi; subst f0. exfalso.
      exact (shift_resolved q rank f q1 Hproc Hidx Hrank Hshift deps d Hdeps Hd Hin).
    + destruct (String.eqb_spec d f0) as [-> | Hne]; [left |].
      simpl. right.
      apply (IH (markAsProcessed q1 f0) fs' q2) with (f := f) (deps := deps); auto.
      * simpl. rewrite Hp1, Hproc. unfold JsSet.add, JsSet.has. simpl.
        rewrite String.eqb_refl. reflexivity.
      * intros g Hg. simpl in *. rewrite Hdeps1. apply Hidx. rewrite Hu1 in Hg.
        apply JsSetFacts.elem_of_delete in Hg as [Hg _]. exact Hg.
      * intros g gdeps x Hg Hgdeps Hx Hxu. simpl in *.
        rewrite Hu1 in Hg, Hxu. rewrite Hdeps1 in Hgdeps.
        apply JsSetFacts.elem_of_delete in Hg as [Hg _].
        apply JsSetFacts.elem_of_delete in Hxu as [Hxu _].
        exact (Hrank g gdeps x Hg Hgdeps Hx Hxu).
      * simpl. rewrite Hdeps1. exact Hdeps.
      * simpl. rewrite Hu1. apply JsSetFacts.elem_of_delete. auto.
Qed.

Definition scenarioRank (f : string) : nat :=
  if String.eqb f Scenario.fileA then 0
  else if String.eqb f Scenario.fileB then 1 else 2.

Lemma scenario_ranked : ranked ScheduleClaims.queue0 scenarioRank.
Proof.
  intros f deps d Hf Hdeps Hd _.
  apply elem_of_cons in Hf as [-> | Hf];
    [| apply elem_of_cons in Hf as [-> | Hf];
       [| apply list_elem_of_singleton in Hf; subst f]];
    vm_compute in Hdeps; inversion Hdeps; subst deps.
  - apply list_elem_of_singleton in Hd. subst d. vm_compute. lia.
  - apply list_elem_of_singleton in Hd. subst d. vm_compute. lia.
  - inversion Hd.
Defined.

Lemma serial_order_is_dependency_first_witness :
  exists fs q',
    shifts true 3 ScheduleClaims.queue0 = Return (fs, q') /\
    forall i, fs !! i = Some Scenario.fileC -> Scenario.fileB ∈ take i fs.
Proof.
  destruct (shifts true 3 ScheduleClaims.queue0) as [[fs q']|e] eqn:Hshifts;
    [| vm_compute in Hshifts; discriminate].
  exists fs, q'. split; [reflexivity |]. intros i Hi.
  apply (serial_order_is_dependency_first scenarioRank 3 ScheduleClaims.queue0 fs q'
           eq_refl ScheduleClaims.queue0_indexed scenario_ranked Hshifts
           i Scenario.fileC [Scenario.fileB] Scenario.fileB Hi).
  - reflexivity.
  - left.
  - right. left.
Defined.

End DependencyOrder.

(** ** Building the dependency graph ([file-dependencies.ts], l. 19-44) *)

Module GraphFacts.
Import FileDependencies.

Section WithCompiler.
Context `{NodePath} `{TypeScript} `{!ModuleResolution}.

Lemma fold_insert_lookup program (files : list SourceFile) :
  forall (graph : DependencyGraph) f,
    is_Some
      (List.fold_left
         (fun graph sourceFile =>
            <[fileName sourceFile := extractFileDependencies program sourceFile]> graph)
         files graph !! f)
    <-> is_Some (graph !! f) \/ exists sf, sf ∈ files /\ fileName sf = f.
Proof.
  induction files as [|sf0 files IH]; intros graph f; simpl.
  - split; [auto |]. intros [Hs | (sf & Hin & _)]; [exact Hs | inversion Hin].
  - rewrite IH. rewrite lookup_insert_is_Some. split.
    + intros [[Heq | [_ Hs]] | (sf & Hin & Heq)].
      * right. exists sf0. split; [left | exact Heq].
      * left. exact Hs.
      * right. exists sf. split; [right; exact Hin | exact Heq].
    + intros [Hs | (sf & Hin & Heq)].
      * left. destruct (decide (fileName sf0 = f)); [left | right]; auto.
      * apply elem_of_cons in Hin as [-> | Hin]; [left; left; exact Heq |].
        right. exists sf. auto.
Qed.

(** X12: The graph knows exactly the names of the program's source files that
    are not declaration files; [get] throws for every other path, a
    declaration file of the program included. *)
Theorem graph_knows_source_files program f :
  (is_Some (buildGraph program !! f) <->
   exists sf, sf ∈ getSourceFiles program /\ isDeclarationFile sf = false /\ fileName sf = f) /\
  ((forall sf, sf ∈ getSourceFiles program -> fileName sf = f -> isDeclarationFile sf = true) ->
   get (buildGraph program) f = Throw (error ("No dependencies found for file: " +:+ f))).
Proof.
  assert (Hdom : is_Some (buildGraph program !! f) <->
                 exists sf, sf ∈ getSourceFiles program /\ isDeclarationFile sf = false /\
                            fileName sf = f).
  { unfold buildGraph, getProjectSourceFiles. rewrite fold_insert_lookup. split.
    - intros [Hs | (sf & Hin & Heq)].
      + rewrite lookup_empty in Hs. destruct Hs as [? Hs]. discriminate.
      + apply list_elem_of_In, List.filter_In in Hin as [Hin Hdecl].
        exists sf. apply list_elem_of_In in Hin. apply negb_true_iff in Hdecl. auto.
    - intros (sf & Hin & Hdecl & Heq). right. exists sf. split; [| exact Heq].
      apply list_elem_of_In, List.filter_In. split; [apply list_elem_of_In; exact Hin |].
      rewrite Hdecl. reflexivity. }
  split; [exact Hdom |].
  intros Hdecl. unfold get.
  destruct (buildGraph program !! f) as [deps|] eqn:Hlookup; [| reflexivity].
  exfalso. destruct (proj1 Hdom ltac:(eauto)) as (sf & Hin & Hfalse & Heq).
  rewrite (Hdecl sf Hin Heq) in Hfalse. discriminate.
Qed.

Lemma fold_insert_fresh program (files : list SourceFile) :
  forall (graph : DependencyGraph) f,
    (forall sf, sf ∈ files -> fileName sf <> f) ->
    List.fold_left
      (fun graph sourceFile =>
         <[fileName sourceFile := extractFileDependencies program sourceFile]> graph)
      files graph !! f = graph !! f.
Proof.
  induction files as [|sf0 files IH]; intros graph f Hfresh; simpl; [reflexivity |].
  rewrite IH by (intros sf Hsf; apply Hfresh; right; exact Hsf).
  apply lookup_insert_ne. apply Hfresh. left.
Qed.

(** X13: When the source files have distinct names, [get] returns for each of
    them the dependencies extracted from that very file. *)
Theorem graph_returns_dependencies program sf :
  NoDup (List.map fileName (getProjectSourceFiles program)) ->
  sf ∈ getProjectSourceFiles program ->
  get (buildGraph program) (fileName sf) = Return (extractFileDependencies program sf).
Proof.
  unfold buildGraph. generalize (∅ : DependencyGraph).
  induction (getProjectSourceFiles program) as [|sf0 files IH]; intros graph Hnd Hin;
    [inversion Hin |].
  simpl in Hnd. apply NoDup_cons in Hnd as [Hfresh Hnd].
  apply elem_of_cons in Hin as [-> | Hin]; simpl.
  - unfold get. rewrite fold_insert_fresh.
    + rewrite lookup_insert_eq. reflexivity.
    + intros sf Hsf Heq. apply Hfresh. rewrite <- Heq.
      apply list_elem_of_fmap. exists sf. auto.
  - apply IH; assumption.
Qed.

End WithCompiler.

#[local] Existing Instances Demo.nodePath Demo.types.

(** The imports of the three files of the scenario. *)
Definition scenarioImports : ModuleResolution :=
  {| extractFileDependencies := fun _ (sf : SourceFile) =>
       if String.eqb sf Scenario.fileB then [Scenario.fileA]
       else if String.eqb sf Scenario.fileC then [Scenario.fileB] else [] |}.

Definition scenarioCompiler : TypeScript :=
  Demo.compiler [Scenario.fileA; Scenario.fileB; "/p/types.d.ts"; Scenario.fileC] (fun _ => []).

Lemma graph_returns_dependencies_witness :
  get (@buildGraph _ scenarioCompiler scenarioImports
         ([Scenario.fileA; Scenario.fileB; "/p/types.d.ts"; Scenario.fileC], []))
      Scenario.fileC
  = Return [Scenario.fileB].
Proof.
  apply (@graph_returns_dependencies _ scenarioCompiler scenarioImports
           ([Scenario.fileA; Scenario.fileB; "/p/types.d.ts"; Scenario.fileC], [])
           Scenario.fileC).
  - change (NoDup ([Scenario.fileA; Scenario.fileB; Scenario.fileC] : list string)).
    compute_done.
  - change (Scenario.fileC ∈ ([Scenario.fileA; Scenario.fileB; Scenario.fileC] : list string)).
    compute_done.
Defined.

Example scenario_graph :
  @buildGraph _ scenarioCompiler scenarioImports
    ([Scenario.fileA; Scenario.fileB; "/p/types.d.ts"; Scenario.fileC], [])
  = Scenario.graph.
Proof. vm_compute. reflexivity. Qed.

End GraphFacts.

(** ** The pool of workers ([fix-project-errors.ts], l. 51-80) *)

Module PoolFacts.
Import FixProjectErrors Schedule QueueStates QueueDrain.

(** The pool when the initial workers have taken their files (l. 55-61). *)
Definition started (project : Project) (graph : FileDependencies.DependencyGraph)
    (files : list string) : Pool :=
  Nat.iter
    (Z.to_nat (Z.min (maxConcurrency project) (Z.of_nat (length files)))) spawn
    {| queue := FileQueue.new graph files; running := []; order := []; rejected := None |}.

(** The pool after some of the controllers have ended. *)
Definition progressed (project : Project) (graph : FileDependencies.DependencyGraph)
    (files : list string) (ends : list (nat * option Thrown)) : Pool :=
  List.fold_left (fun p '(i, failure) => complete p i failure) ends
    (started project graph files).

Lemma fixErrorsInAllFiles_unfold project graph files ends :
  fixErrorsInAllFiles project graph files ends
    = drain (length files) (progressed project graph files ends).
Proof. reflexivity. Qed.

(** What was handed out and what is still unprocessed make up the files. *)
Definition accounted (files : list string) (p : Pool) : Prop :=
  order p ++ FileQueue.unprocessedFiles (queue p) ≡ₚ JsSet.of_list files.

Lemma accounted_NoDup files p :
  accounted files p -> NoDup (FileQueue.unprocessedFiles (queue p)) /\ NoDup (order p).
Proof.
  intros Hacc. pose proof (JsSetFacts.of_list_NoDup files) as Hnd.
  rewrite <- Hacc in Hnd. apply NoDup_app in Hnd as (Ho & _ & Hu). auto.
Qed.

Lemma spawn_accounted files p : accounted files p -> accounted files (spawn p).
Proof.
  intros Hacc. unfold spawn.
  destruct (FileQueue.shift (queue p)) as [[f q']|] eqn:Hshift; [| exact Hacc].
  destruct (shift_member _ _ _ Hshift) as (Hf & _ & Hu & _).
  destruct (accounted_NoDup files p Hacc) as [Hnd _].
  unfold accounted in *. simpl. rewrite Hu, <- Hacc, <- app_assoc.
  apply Permutation_app_head. simpl. symmetry. apply delete_Permutation; assumption.
Qed.

Lemma complete_accounted files p i failure :
  accounted files p -> accounted files (complete p i failure).
Proof.
  intros Hacc. unfold complete.
  destruct (running p !! i) as [file|]; [| exact Hacc].
  destruct failure as [e|]; [exact Hacc |].
  match goal with |- context [if ?c then _ else _] => destruct c end.
  - apply spawn_accounted. exact Hacc.
  - exact Hacc.
Qed.

Lemma drain_accounted files fuel : forall p, accounted files p -> accounted files (drain fuel p).
Proof.
  induction fuel as [|fuel IH]; intros p Hacc; simpl; [exact Hacc |].
  destruct (running p); [exact Hacc |].
  apply IH, complete_accounted. exact Hacc.
Qed.

Lemma progressed_accounted project graph files ends :
  accounted files (progressed project graph files ends).
Proof.
  unfold progressed.
  assert (Hstart : accounted files (started project graph files)).
  { unfold started.
    induction (Z.to_nat (Z.min (maxConcurrency project) (Z.of_nat (length files))))
      as [|k IH]; simpl.
    - unfold accounted. simpl. reflexivity.
    - apply spawn_accounted. exact IH. }
  revert Hstart. generalize (started project graph files).
  induction ends as [|[i failure] ends IH]; intros p Hp; simpl; [exact Hp |].
  apply IH, complete_accounted. exact Hp.
Qed.

(** X14: Whatever the order in which the controllers end or fail, no file is
    handed to two workers, only files of the list are handed out, and the
    files handed out together with the files still unprocessed are the files
    of the list, each once. *)
Theorem pool_hands_out_each_file_once project graph files ends :
  let p := fixErrorsInAllFiles project graph files ends in
  NoDup (order p) /\
  (forall f, f ∈ order p -> f ∈ files) /\
  order p ++ FileQueue.unprocessedFiles (queue p) ≡ₚ JsSet.of_list files.
Proof.
  intros p.
  assert (Hacc : accounted files p).
  { subst p. rewrite fixErrorsInAllFiles_unfold.
    apply drain_accounted, progressed_accounted. }
  split; [exact (proj2 (accounted_NoDup files p Hacc)) |].
  split; [| exact Hacc].
  intros f Hf. apply JsSetFacts.elem_of_of_list. rewrite <- Hacc.
  apply elem_of_app. left. exact Hf.
Qed.

Lemma spawn_running p : (length (running (spawn p)) <= S (length (running p)))%nat.
Proof.
  unfold spawn. destruct (FileQueue.shift (queue p)) as [[f q']|]; simpl; [| lia].
  rewrite length_app. simpl. lia.
Qed.

Lemma remove_length {A} (l : list A) i x :
  l !! i = Some x -> S (length (List.firstn i l ++ List.skipn (S i) l)) = length l.
Proof.
  intros Hi. pose proof (lookup_lt_Some _ _ _ Hi) as Hlt.
  rewrite length_app, List.length_firstn, List.length_skipn. lia.
Qed.

Lemma complete_running p i failure :
  (length (running (complete p i failure)) <= length (running p))%nat.
Proof.
  unfold complete. destruct (running p !! i) as [file|] eqn:Hi; [| lia].
  pose proof (remove_length _ _ _ Hi) as Hlen.
  destruct failure as [e|]; simpl; [lia |].
  match goal with |- context [if ?c then _ else _] => destruct c end.
  - etransitivity; [apply spawn_running |]. simpl. lia.
  - simpl. lia.
Qed.

(** X15: At no moment are more controllers running than the phase allows: ten in
    the baseline phase, one otherwise, and never more than there are files. *)
Theorem pool_respects_concurrency project graph files ends :
  Z.of_nat (length (running (progressed project graph files ends)))
    <= Z.min (maxConcurrency project) (Z.of_nat (length files)) /\
  Z.min (maxConcurrency project) (Z.of_nat (length files))
    <= (if bool_decide (Project.phase project = 1) then 10 else 1).
Proof.
  split; [| unfold maxConcurrency; lia].
  assert (Hmin : 0 <= Z.min (maxConcurrency project) (Z.of_nat (length files)))
    by (unfold maxConcurrency; destruct (bool_decide _); lia).
  assert (Hstart : (length (running (started project graph files))
                    <= Z.to_nat (Z.min (maxConcurrency project) (Z.of_nat (length files))))%nat).
  { unfold started.
    induction (Z.to_nat (Z.min (maxConcurrency project) (Z.of_nat (length files))))
      as [|k IH]; simpl; [lia |].
    etransitivity; [apply spawn_running |]. lia. }
  assert (Hfold : forall es p,
            (length (running (List.fold_left (fun p '(i, failure) => complete p i failure) es p))
             <= length (running p))%nat).
  { induction es as [|[i failure] es IH]; intros p; simpl; [lia |].
    etransitivity; [apply IH | apply complete_running]. }
  specialize (Hfold ends (started project graph files)). unfold progressed. lia.
Qed.

End PoolFacts.

Module PoolCompletion.
Import FixProjectErrors Schedule QueueStates QueueDrain PoolFacts.

(** The work left in a pool: files to hand out and controllers to end. *)
Definition work (p : Pool) : nat :=
  (length (FileQueue.unprocessedFiles (queue p)) + length (running p))%nat.

(** A pool none of whose workers has failed and that can go on. *)
Definition healthy (p : Pool) : Prop :=
  indexed (queue p) (FileQueue.unprocessedFiles (queue p)) /\
  NoDup (FileQueue.unprocessedFiles (queue p)) /\
  rejected p = None /\
  (running p = [] -> FileQueue.unprocessedFiles (queue p) = []).

Lemma delete_length s x : NoDup s -> x ∈ s -> S (length (JsSet.delete s x)) = length s.
Proof.
  intros Hnd Hin. pose proof (delete_Permutation s x Hnd Hin) as Hperm.
  apply Permutation_length in Hperm. simpl in Hperm. lia.
Qed.

Lemma spawn_takes p :
  indexed (queue p) (FileQueue.unprocessedFiles (queue p)) ->
  NoDup (FileQueue.unprocessedFiles (queue p)) ->
  FileQueue.unprocessedFiles (queue p) <> [] ->
  indexed (queue (spawn p)) (FileQueue.unprocessedFiles (queue (spawn p))) /\
  NoDup (FileQueue.unprocessedFiles (queue (spawn p))) /\
  rejected (spawn p) = rejected p /\
  S (length (FileQueue.unprocessedFiles (queue (spawn p))))
    = length (FileQueue.unprocessedFiles (queue p)) /\
  length (running (spawn p)) = S (length (running p)).
Proof.
  intros Hidx Hnd Hne. unfold spawn.
  destruct (shift_some (queue p) Hidx Hne) as (f & q' & Hshift). rewrite Hshift.
  destruct (shift_member _ _ _ Hshift) as (Hf & Hdeps & Hu & _). simpl.
  rewrite Hu. split; [| split; [| split; [| split]]].
  - intros g Hg. rewrite Hdeps. apply Hidx.
    apply JsSetFacts.elem_of_delete in Hg as [Hg _]. exact Hg.
  - apply delete_NoDup. exact Hnd.
  - reflexivity.
  - apply delete_length; assumption.
  - rewrite length_app. simpl. lia.
Qed.

Lemma of_list_distinct files : NoDup files -> JsSet.of_list files ≡ₚ files.
Proof.
  intros Hnd. apply NoDup_Permutation; [apply JsSetFacts.of_list_NoDup | exact Hnd |].
  intros x. apply JsSetFacts.elem_of_of_list.
Qed.

Lemma started_healthy project graph files :
  NoDup files ->
  (forall f, f ∈ files -> is_Some (graph !! f)) ->
  healthy (started project graph files) /\
  work (started project graph files) = length files.
Proof.
  intros Hnd Hidx.
  pose proof (Permutation_length (of_list_distinct files Hnd)) as Hlen.
  set (k := Z.to_nat (Z.min (maxConcurrency project) (Z.of_nat (length files)))).
  assert (Hk : (k <= length files)%nat) by (subst k; lia).
  assert (Hk0 : k = 0%nat -> files = []).
  { subst k. unfold maxConcurrency. intros Hz.
    apply nil_length_inv. destruct (bool_decide _); lia. }
  assert (Hiter : forall j, (j <= length files)%nat ->
            let p := Nat.iter j spawn
                       {| queue := FileQueue.new graph files; running := [];
                          order := []; rejected := None |} in
            indexed (queue p) (FileQueue.unprocessedFiles (queue p)) /\
            NoDup (FileQueue.unprocessedFiles (queue p)) /\
            rejected p = None /\
            (length (FileQueue.unprocessedFiles (queue p)) + j)%nat = length files /\
            length (running p) = j).
  { induction j as [|j IH]; intros Hj; simpl.
    - split; [| split; [apply JsSetFacts.of_list_NoDup | split; [reflexivity | split]]].
      + intros f Hf. apply Hidx. apply JsSetFacts.elem_of_of_list. exact Hf.
      + lia.
      + reflexivity.
    - destruct (IH ltac:(lia)) as (Hi & Hn & Hr & Hl & Hrun).
      destruct (spawn_takes _ Hi Hn) as (Hi' & Hn' & Hr' & Hl' & Hrun').
      { intros Hnil. rewrite Hnil in Hl. simpl in Hl. lia. }
      split; [exact Hi' |]. split; [exact Hn' |].
      split; [rewrite Hr'; exact Hr |]. split; lia. }
  destruct (Hiter k Hk) as (Hi & Hn & Hr & Hl & Hrun).
  unfold started. fold k. split.
  - split; [exact Hi |]. split; [exact Hn |]. split; [exact Hr |].
    intros Hnil. rewrite Hnil in Hrun. simpl in Hrun. symmetry in Hrun.
    specialize (Hk0 Hrun). subst files. apply nil_length_inv. simpl in Hl. lia.
  - unfold work. lia.
Qed.

Lemma complete_healthy p i :
  healthy p ->
  healthy (complete p i None) /\ (work (complete p i None) <= work p)%nat /\
  (is_Some (running p !! i) -> S (work (complete p i None)) = work p).
Proof.
  intros (Hi & Hn & Hr & Hempty). unfold complete.
  destruct (running p !! i) as [file|] eqn:Hlookup.
  - pose proof (remove_length _ _ _ Hlookup) as Hlen.
    set (running' := List.firstn i (running p) ++ List.skipn (S i) (running p)) in *.
    unfold FileQueue.hasUnprocessedFiles, JsSet.size. simpl.
    destruct (FileQueue.unprocessedFiles (queue p)) as [|g rest] eqn:Hu.
    + simpl. split; [| split].
      * unfold healthy. simpl. rewrite Hu.
        split; [intros f Hf; inversion Hf |]. split; [constructor | auto].
      * unfold work. simpl. rewrite Hu. simpl. lia.
      * intros _. unfold work. simpl. rewrite Hu. simpl. lia.
    + replace (0 <? Z.of_nat (length (g :: rest))) with true
        by (symmetry; apply Z.ltb_lt; simpl; lia).
      set (p' := {| queue := FileQueue.markAsProcessed (queue p) file; running := running';
                    order := order p; rejected := rejected p |}).
      destruct (spawn_takes p') as (Hi' & Hn' & Hr' & Hl' & Hrun').
      { simpl. rewrite Hu. exact Hi. }
      { simpl. rewrite Hu. exact Hn. }
      { simpl. rewrite Hu. discriminate. }
      simpl in Hl', Hrun'. rewrite Hu in Hl'.
      split; [| split].
      * split; [exact Hi' |]. split; [exact Hn' |]. split; [rewrite Hr'; exact Hr |].
        intros Hnil. rewrite Hnil in Hrun'. discriminate.
      * unfold work. rewrite Hrun', Hu. simpl in *. lia.
      * intros _. unfold work. rewrite Hrun', Hu. simpl in *. lia.
  - split; [repeat split; assumption |]. split; [lia |].
    intros [x Hx]. discriminate.
Qed.

Lemma drain_completes fuel :
  forall p, healthy p -> (work p <= fuel)%nat ->
    healthy (drain fuel p) /\ running (drain fuel p) = [].
Proof.
  induction fuel as [|fuel IH]; intros p Hp Hwork; simpl.
  - split; [exact Hp |]. unfold work in Hwork. apply nil_length_inv. lia.
  - destruct (running p) as [|f rest] eqn:Hrun; [auto |].
    destruct (complete_healthy p 0 Hp) as (Hp' & _ & Hless).
    apply IH; [exact Hp' |].
    specialize (Hless ltac:(rewrite Hrun; eauto)). lia.
Qed.

(** X16: When the files are distinct and all indexed and no controller throws,
    the pool comes to an end: every file has been handed out exactly once,
    nothing is left unprocessed, no worker is running and no promise is
    rejected. *)
Theorem pool_completes project graph files ends :
  NoDup files ->
  (forall f, f ∈ files -> is_Some (graph !! f)) ->
  Forall (fun e : nat * option Thrown => snd e = None) ends ->
  let p := fixErrorsInAllFiles project graph files ends in
  running p = [] /\ rejected p = None /\
  FileQueue.unprocessedFiles (queue p) = [] /\ order p ≡ₚ files.
Proof.
  intros Hnd Hidx Hends p.
  destruct (started_healthy project graph files Hnd Hidx) as [Hstart Hwork].
  assert (Hprog : healthy (progressed project graph files ends) /\
                  (work (progressed project graph files ends) <= length files)%nat).
  { unfold progressed. rewrite <- Hwork. revert Hstart.
    generalize (started project graph files).
    induction Hends as [|[i failure] ends Hnone Hends IH]; intros p0 Hp0; simpl; [auto |].
    simpl in Hnone. subst failure.
    destruct (complete_healthy p0 i Hp0) as (Hp1 & Hle & _).
    destruct (IH _ Hp1) as [Hh Hw]. split; [exact Hh | lia]. }
  destruct Hprog as [Hh Hw].
  destruct (drain_completes (length files) _ Hh Hw) as [(_ & _ & Hrej & Hempty) Hrun].
  subst p. rewrite fixErrorsInAllFiles_unfold.
  split; [exact Hrun |]. split; [exact Hrej |].
  specialize (Hempty Hrun). split; [exact Hempty |].
  pose proof (drain_accounted files (length files) _
                (progressed_accounted project graph files ends)) as Hacc.
  unfold accounted in Hacc. rewrite Hempty, app_nil_r in Hacc.
  rewrite Hacc. apply of_list_distinct. exact Hnd.
Qed.

Lemma pool_completes_witness :
  let p := fixErrorsInAllFiles Demo.project1 Scenario.graph
             [Scenario.fileC; Scenario.fileB; Scenario.fileA] [(2%nat, None)] in
  running p = [] /\ rejected p = None /\
  FileQueue.unprocessedFiles (queue p) = [] /\
  order p ≡ₚ [Scenario.fileC; Scenario.fileB; Scenario.fileA].
Proof.
  apply (pool_completes Demo.project1 Scenario.graph
           [Scenario.fileC; Scenario.fileB; Scenario.fileA] [(2%nat, None)]).
  - compute_done.
  - exact ScheduleClaims.queue0_indexed.
  - repeat constructor.
Defined.

End PoolCompletion.

(** ** What the hook observes and counts ([file-modification-hook.ts]) *)

Module HookAccounting.
Import FileModificationHook HookFacts.

Section WithProject.
Context `{NodePath} `{TypeScript} `{DiffApi}.
Variable project : Project.

(** An event that the hook does not look at: another kind of event, or a
    tool other than [Edit] and [MultiEdit]. *)
Definition unobserved (input : HookInput) : Prop :=
  hook_event_name input = OtherEvent \/ isFileModificationTool (tool_name input) = false.

Lemma hook_unobserved disk input w :
  unobserved input -> hook project disk input w = (EmptyOutput, w).
Proof.
  intros [Hev | Htool]; unfold hook.
  - rewrite Hev. reflexivity.
  - destruct (hook_event_name input); [| | reflexivity].
    + unfold handlePreToolUseEvent. rewrite Htool. reflexivity.
    + unfold handlePostToolUseEvent. rewrite Htool. reflexivity.
Qed.

(** X17: Edits made with any other tool ([Write], [Bash], ...) pass unseen: over
    any run of such events, on whatever working copies, the hook answers
    with the empty output every time, stores no snapshot, counts nothing and
    prints nothing. *)
Theorem other_tools_are_not_observed (events : list (HookInput * Disk)) w :
  Forall (fun e => unobserved (fst e)) events ->
  hooks project events w = (repeat EmptyOutput (length events), w).
Proof.
  intros Hall. induction Hall as [|[input disk] events Hun Hall IH]; simpl; [reflexivity |].
  simpl in Hun. rewrite (hook_unobserved disk input w Hun), IH. reflexivity.
Qed.

(** An answer that carries a correction directive. *)
Definition reports (out : HookJSONOutput) : bool :=
  match out with
  | EmptyOutput => false
  | HookSpecificOutput _ _ => true
  end.

Lemma hook_counts disk input w :
  behaviorModificationsDetected (snd (hook project disk input w))
    = behaviorModificationsDetected w
      + (if reports (fst (hook project disk input w)) then 1 else 0).
Proof.
  unfold hook. destruct (hook_event_name input).
  - unfold handlePreToolUseEvent.
    destruct (negb (isFileModificationTool (tool_name input))); [simpl; lia |].
    destruct (extractFilePath project (tool_input input)) as [f|[cls msg|]];
      [| simpl; lia | simpl; lia].
    destruct (original w !! f); [simpl; lia |].
    destruct (Typescript.transpile disk f project) as [t|[cls msg|]]; simpl; lia.
  - unfold handlePostToolUseEvent.
    destruct (negb (isFileModificationTool (tool_name input))); [simpl; lia |].
    destruct (extractFilePath project (tool_input input)) as [f|[cls msg|]];
      [| simpl; lia | simpl; lia].
    destruct (detectRuntimeChange project disk w f) as [[d|]|[cls msg|]]; simpl; lia.
  - simpl. lia.
Qed.

(** X18: The violation counter is exact: after any events it has grown by the
    number of answers that carried a correction directive, and it never
    decreases. *)
Theorem counter_counts_directives (events : list (HookInput * Disk)) :
  forall w,
    behaviorModificationsDetected (snd (hooks project events w))
      = behaviorModificationsDetected w
        + Z.of_nat (length (List.filter reports (fst (hooks project events w)))) /\
    behaviorModificationsDetected w
      <= behaviorModificationsDetected (snd (hooks project events w)).
Proof.
  assert (Heq : forall w,
            behaviorModificationsDetected (snd (hooks project events w))
              = behaviorModificationsDetected w
                + Z.of_nat (length (List.filter reports (fst (hooks project events w))))).
  { induction events as [|[input disk] events IH]; intros w; simpl; [lia |].
    pose proof (hook_counts disk input w) as Hstep.
    destruct (hook project disk input w) as [out w1]. simpl in Hstep.
    specialize (IH w1). destruct (hooks project events w1) as [outs w2]. simpl in *.
    destruct (reports out); simpl; lia. }
  intros w. split; [apply Heq |]. rewrite Heq. lia.
Qed.

(** X19: A post-edit observation of a file that has a snapshot but can no
    longer be read (the edit removed it) is not counted as a violation: the
    read error is printed, the answer is empty and the counter and the
    snapshot stay as they are. *)
Theorem removed_file_is_not_reported disk input w filePath snapshot :
  observes project PostToolUse input filePath ->
  original w !! filePath = Some snapshot ->
  disk !! filePath = None ->
  hook project disk input w
    = (EmptyOutput,
       console_error
         ("Error in file modification hook: Error: ENOENT: no such file or directory, open '"
            +:+ filePath +:+ "'") w).
Proof.
  intros (Hev & Htool & Hpath) Hsome Hnone.
  unfold hook, handlePostToolUseEvent, detectRuntimeChange, Typescript.transpile, readFile.
  rewrite Hev, Htool, Hpath, Hsome, Hnone. reflexivity.
Qed.

End WithProject.

#[local] Existing Instances Demo.nodePath Demo.types Demo.diff HookClaims.compiler.

Definition writeA : HookInput :=
  {| hook_event_name := PostToolUse; tool_name := "Write";
     tool_input := WithFilePath "a.js" |}.

Lemma other_tools_are_not_observed_witness :
  hooks Demo.project1 [(writeA, HookClaims.diskAfter)] HookClaims.snapshotTaken
    = ([EmptyOutput], HookClaims.snapshotTaken).
Proof.
  apply (other_tools_are_not_observed Demo.project1
           [(writeA, HookClaims.diskAfter)] HookClaims.snapshotTaken).
  constructor; [right; reflexivity | constructor].
Defined.

Lemma removed_file_is_not_reported_witness :
  hook Demo.project1 ∅ (HookClaims.editA PostToolUse) HookClaims.snapshotTaken
    = (EmptyOutput,
       console_error
         "Error in file modification hook: Error: ENOENT: no such file or directory, open '/p/a.js'"
         HookClaims.snapshotTaken).
Proof.
  apply (removed_file_is_not_reported Demo.project1 ∅ (HookClaims.editA PostToolUse)
           HookClaims.snapshotTaken "/p/a.js" "f(x)"
           (HookClaims.observes_editA PostToolUse) eq_refl (lookup_empty _)).
Defined.

End HookAccounting.

(** ** The message stream of one invocation ([claude-code.ts]) *)

Module AgentStream.
Import ClaudeCode.

(** The result that [claudeCode] builds from a successful result message
    (l. 36-42). *)
Definition resultOf (r : SDKResultMessage) : ClaudeResult :=
  {| costUsd := total_cost_usd r;
     durationSeconds := (duration_ms r / 1000)%Q;
     result := result_text r;
     sessionId := session_id r;
     turns := num_turns r |}.

(** A message that neither ends the loop nor throws when it is not
    printed: anything but a successful result and an assistant message on
    which [isErrorAndMayContinue] throws. *)
Definition passes (m : SDKMessage) : Prop :=
  match m with
  | ResultMessage r => success r = false
  | AssistantMessage content => exists b, isErrorAndMayContinue content = Return b
  | _ => True
  end.

Lemma api_error_message text :
  startsWith text "API Error: 400" = true ->
  isErrorAndMayContinue (TextContent text) = Return true.
Proof.
  intros Hp. unfold isErrorAndMayContinue, assistantMessageStartsWith.
  rewrite Hp. reflexivity.
Qed.

Lemma consume_passes m flag rest :
  passes m -> exists flag', consume false flag (m :: rest) = consume false flag' rest /\
                            (flag = true -> flag' = true).
Proof.
  destruct m as [|content|r| |type]; simpl; intros Hm.
  - exists flag. split; [reflexivity | tauto].
  - destruct Hm as [b ->]. simpl. exists (if b then true else flag).
    split; [reflexivity |]. intros ->. destruct b; reflexivity.
  - rewrite Hm. exists flag. split; [reflexivity | tauto].
  - exists flag. split; [reflexivity | tauto].
  - exists flag. split; [reflexivity | tauto].
Qed.

Lemma consume_ends messages :
  Forall passes messages -> forall flag, consume false flag messages = Return Ended.
Proof.
  induction 1 as [|m messages Hm Hall IH]; intros flag; [reflexivity |].
  destruct (consume_passes m flag messages Hm) as (flag' & -> & _). apply IH.
Qed.

Lemma consume_first_success pre r post :
  Forall passes pre -> success r = true ->
  forall flag, exists flag',
    consume false flag (pre ++ ResultMessage r :: post) = Return (Succeeded (resultOf r) flag') /\
    (flag = true -> flag' = true).
Proof.
  intros Hpre Hr. induction Hpre as [|m pre Hm Hpre IH]; intros flag.
  - exists flag. simpl. rewrite Hr. split; [reflexivity | tauto].
  - rewrite <- app_comm_cons.
    destruct (consume_passes m flag (pre ++ ResultMessage r :: post) Hm) as (flag1 & -> & H1).
    destruct (IH flag1) as (flag' & Heq & H2). exists flag'. split; [exact Heq |].
    intros Hflag. apply H2, H1, Hflag.
Qed.

(** X20: The loop over the stream stops at the first successful result, whatever
    follows it, and the continuation flag is raised as soon as an assistant
    message before that result begins with ["API Error: 400"], whatever
    harmless messages lie between them. *)
Theorem api_error_raises_continuation pre text mid r post :
  Forall passes pre -> startsWith text "API Error: 400" = true ->
  Forall passes mid -> success r = true ->
  consume false false
    (pre ++ AssistantMessage (TextContent text) :: mid ++ ResultMessage r :: post)
    = Return (Succeeded (resultOf r) true).
Proof.
  intros Hpre Htext Hmid Hr.
  assert (Hgo : forall flag,
            consume false flag
              (pre ++ AssistantMessage (TextContent text) :: mid ++ ResultMessage r :: post)
            = Return (Succeeded (resultOf r) true)).
  { induction Hpre as [|m pre Hm Hpre IH]; intros flag.
    - cbn [app consume]. rewrite (api_error_message text Htext). simpl.
      destruct (consume_first_success mid r post Hmid Hr true) as (flag' & -> & Hflag).
      rewrite (Hflag eq_refl). reflexivity.
    - rewrite <- app_comm_cons.
      destruct (consume_passes m flag
                  (pre ++ AssistantMessage (TextContent text) :: mid ++ ResultMessage r :: post)
                  Hm) as (flag1 & -> & _).
      apply IH. }
  apply Hgo.
Qed.

(** X21: Without [verbose] a message of a kind that the printer rejects is
    skipped, wherever it stands in the stream. *)
Theorem quiet_run_skips_unsupported_messages pre type rest :
  forall flag,
    consume false flag (pre ++ UnsupportedMessage type :: rest)
      = consume false flag (pre ++ rest).
Proof.
  induction pre as [|m pre IH]; intros flag; [reflexivity |].
  rewrite <- !app_comm_cons. cbn [consume].
  destruct m as [|content|r| |type']; simpl; try apply IH.
  - destruct (isErrorAndMayContinue content) as [b|e]; simpl; [apply IH | reflexivity].
  - destruct (success r); [reflexivity | apply IH].
Qed.

Section WithSdk.
Context `{AgentSdk}.

(** The messages that [query] answers with in world [w]. *)
Definition answer (w : Run.World) (prompt : string) (options : Options) : list SDKMessage :=
  fst (query (Run.agent w) (Run.disk w) (Run.hookWorld w) prompt options).

Lemma claudeCode_unfold fuel prompt options verbose w outcome :
  consume verbose false (answer w prompt options) = Return outcome ->
  ClaudeCodeRun.claudeCode (S fuel) prompt options verbose w
    = match outcome with
      | Ended => Run.throw (error "Claude API query failed")
      | Succeeded intermediateResult false => Run.ret intermediateResult
      | Succeeded intermediateResult true =>
          _ ← Run.console_log "Claude API Error detected, continuing the session...";
          continueResult ←
            ClaudeCodeRun.claudeCode fuel "Continue"
              {| cwd := cwd options; permissionMode := permissionMode options;
                 resume := Some (sessionId intermediateResult) |} verbose;
          Run.ret
            {| costUsd := (costUsd continueResult + costUsd intermediateResult)%Q;
               durationSeconds :=
                 (durationSeconds continueResult + durationSeconds intermediateResult)%Q;
               result := result continueResult;
               sessionId := sessionId continueResult;
               turns := turns continueResult |}
      end (AgentErrors.queried w prompt options).
Proof.
  unfold answer, AgentErrors.queried. intros Hout. cbn [ClaudeCodeRun.claudeCode].
  unfold mbind at 1 2, run_bind, Run.bindM at 1 2, Run.run_query, Run.lift.
  destruct (query _ _ _ prompt options) as [messages [[a d] h]]. simpl in Hout.
  rewrite Hout. reflexivity.
Qed.

(** X22: A stream without a successful result, for instance one that ends with
    an error result, makes the invocation throw
    ["Claude API query failed"] after its one query; there is no
    continuation, even when the stream carried the ["API Error: 400"]
    message. *)
Theorem stream_without_success_fails fuel prompt options w :
  Forall passes (answer w prompt options) ->
  ClaudeCodeRun.claudeCode (S fuel) prompt options false w
    = Some (Throw (error "Claude API query failed"), AgentErrors.queried w prompt options).
Proof.
  intros Hall.
  rewrite (claudeCode_unfold fuel prompt options false w Ended
             (consume_ends _ Hall false)).
  reflexivity.
Qed.

(** The world after the announcement of a continuation. *)
Definition announced (w : Run.World) : Run.World :=
  {| Run.agent := Run.agent w; Run.disk := Run.disk w; Run.hookWorld := Run.hookWorld w;
     Run.queries := Run.queries w;
     Run.log := Run.log w ++ ["Claude API Error detected, continuing the session..."] |}.

(** The options of the continuation (l. 84). *)
Definition resumed (options : Options) (intermediateResult : ClaudeResult) : Options :=
  {| cwd := cwd options; permissionMode := permissionMode options;
     resume := Some (sessionId intermediateResult) |}.

(** X23: A first stream that succeeds with the continuation flag raised is
    followed by exactly one further query, with the prompt ["Continue"] and
    the session of the first result to resume.  When that one succeeds
    without the flag, the invocation returns the text, session and turns of
    the second result, and the cost and duration of both added up: the turns
    of the first result are not added. *)
Theorem continuation_after_api_error fuel prompt options w r1 r2 :
  consume false false (answer w prompt options) = Return (Succeeded r1 true) ->
  consume false false
    (answer (announced (AgentErrors.queried w prompt options)) "Continue" (resumed options r1))
    = Return (Succeeded r2 false) ->
  ClaudeCodeRun.claudeCode (S (S fuel)) prompt options false w
    = Some (Return {| costUsd := (costUsd r2 + costUsd r1)%Q;
                      durationSeconds := (durationSeconds r2 + durationSeconds r1)%Q;
                      result := result r2;
                      sessionId := sessionId r2;
                      turns := turns r2 |},
            AgentErrors.queried (announced (AgentErrors.queried w prompt options))
              "Continue" (resumed options r1)) /\
  Run.queries (AgentErrors.queried (announced (AgentErrors.queried w prompt options))
                 "Continue" (resumed options r1))
    = S (S (Run.queries w)).
Proof.
  intros Hfirst Hsecond. split.
  - rewrite (claudeCode_unfold (S fuel) prompt options false w _ Hfirst).
    unfold mbind at 1, run_bind, Run.bindM at 1, Run.console_log.
    fold (announced (AgentErrors.queried w prompt options)). fold (resumed options r1).
    unfold mbind, run_bind, Run.bindM.
    rewrite (claudeCode_unfold fuel "Continue" (resumed options r1) false _ _ Hsecond).
    reflexivity.
  - unfold AgentErrors.queried, announced.
    destruct (query (Run.agent w) _ _ prompt options) as [m1 [[a1 d1] h1]]. simpl.
    destruct (query a1 d1 h1 "Continue" _) as [m2 [[a2 d2] h2]]. reflexivity.
Qed.

End WithSdk.

Section WithCollaborators.
Context `{NodePath} `{TypeScript} `{!ESLint.ESLintApi} `{AgentSdk} `{PromptFiles}.

(** The options that [runClaudeCode] passes (l. 136-142). *)
Definition optionsOf (a : FixErrors.FixErrorsAgent) : Options :=
  {| cwd := Project.path (FixErrors.project a);
     permissionMode := "acceptEdits";
     resume := FixErrors.sessionId a |}.

(** X24: In phase 2 the controller runs the agent with [verbose], and there a
    message of a kind that the printer does not know ends the invocation:
    after system messages only, a message of any other type than the four
    printed ones makes [runClaudeCode] throw, and the answer that may follow
    it in the stream is never read. *)
Theorem phase2_rejects_unsupported_messages fuel a prompt w n type rest :
  Project.phase (FixErrors.project a) = 2 ->
  answer w prompt (optionsOf a) = repeat SystemMessage n ++ UnsupportedMessage type :: rest ->
  FixErrors.runClaudeCode (S fuel) a prompt w
    = Some (Throw (error (if bool_decide (type ∈ ["stream_event"; "tool_progress"; "auth_status"])
                          then "Message type " +:+ type +:+ " are not supported"
                          else "Unknown message type")),
            AgentErrors.queried w prompt (optionsOf a)).
Proof.
  intros Hphase Hanswer. unfold FixErrors.runClaudeCode. fold (optionsOf a).
  rewrite bool_decide_eq_true_2 by exact Hphase.
  unfold mbind at 1, run_bind, Run.bindM at 1.
  rewrite (AgentErrors.claudeCode_throws fuel prompt (optionsOf a) true w
             (error (if bool_decide (type ∈ ["stream_event"; "tool_progress"; "auth_status"])
                     then "Message type " +:+ type +:+ " are not supported"
                     else "Unknown message type"))); [reflexivity |].
  fold (answer w prompt (optionsOf a)). rewrite Hanswer.
  clear Hanswer. induction n as [|n IH]; [| exact IH].
  cbn [repeat app consume logMessage].
  destruct (bool_decide (type ∈ ["stream_event"; "tool_progress"; "auth_status"]));
    reflexivity.
Qed.

End WithCollaborators.

#[local] Existing Instances Demo.nodePath Demo.types Demo.prompts
  Demo.oneFileCompiler Demo.silentLinter.

Definition apiError : SDKMessage := AssistantMessage (TextContent "API Error: 400 bad request").

Definition failedResult : SDKResultMessage :=
  {| success := false; total_cost_usd := 1; duration_ms := 1000; result_text := "";
     session_id := "s0"; num_turns := 1 |}.

Definition doneResult (session : string) : SDKResultMessage :=
  {| success := true; total_cost_usd := 1; duration_ms := 1000; result_text := "done";
     session_id := session; num_turns := 3 |}.

Definition options0 : Options :=
  {| cwd := "/p"; permissionMode := "acceptEdits"; resume := None |}.

Definition world0 `{AgentSdk} (a : Agent) : Run.World :=
  {| Run.agent := a; Run.disk := ∅; Run.hookWorld := Demo.emptyHooks;
     Run.queries := 0; Run.log := [] |}.

Lemma api_error_raises_continuation_witness :
  consume false false
    ([SystemMessage] ++ apiError :: [UserMessage] ++ ResultMessage (doneResult "s1")
       :: [ResultMessage (doneResult "s2")])
    = Return (Succeeded (resultOf (doneResult "s1")) true).
Proof.
  apply (api_error_raises_continuation [SystemMessage] "API Error: 400 bad request"
           [UserMessage] (doneResult "s1") [ResultMessage (doneResult "s2")]).
  - repeat constructor.
  - reflexivity.
  - repeat constructor.
  - reflexivity.
Defined.

(** An agent whose stream ends with an error result. *)
Definition failingSdk : AgentSdk :=
  Demo.sdk (fun _ => [SystemMessage; apiError; ResultMessage failedResult]) (fun _ disk => disk).

Lemma stream_without_success_fails_witness :
  @ClaudeCodeRun.claudeCode failingSdk 1 "Fix." options0 false (@world0 failingSdk 0%nat)
    = Some (Throw (error "Claude API query failed"),
            @AgentErrors.queried failingSdk (@world0 failingSdk 0%nat) "Fix." options0).
Proof.
  apply (@stream_without_success_fails failingSdk 0 "Fix." options0 (@world0 failingSdk 0%nat)).
  repeat constructor. exists true. reflexivity.
Defined.

(** An agent whose first stream carries the API error and whose second one
    does not. *)
Definition interruptedSdk : AgentSdk :=
  Demo.sdk
    (fun n => match n with
              | O => [apiError; ResultMessage (doneResult "s1")]
              | _ => [ResultMessage (doneResult "s2")]
              end)
    (fun _ disk => disk).

Lemma continuation_after_api_error_witness :
  @ClaudeCodeRun.claudeCode interruptedSdk 2 "Fix." options0 false (@world0 interruptedSdk 0%nat)
    = Some (Return {| costUsd := (1 + 1)%Q; durationSeconds := (1000 / 1000 + 1000 / 1000)%Q;
                      result := "done"; sessionId := "s2"; turns := 3 |},
            {| Run.agent := (2%nat : @Agent interruptedSdk); Run.disk := ∅;
               Run.hookWorld := Demo.emptyHooks; Run.queries := 2;
               Run.log := ["Claude API Error detected, continuing the session..."] |}).
Proof.
  exact (proj1 (@continuation_after_api_error interruptedSdk 0 "Fix." options0
                  (@world0 interruptedSdk 0%nat)
                  (resultOf (doneResult "s1")) (resultOf (doneResult "s2"))
                  eq_refl eq_refl)).
Defined.

(** An agent that streams an event before its answer. *)
Definition streamingSdk : AgentSdk :=
  Demo.sdk
    (fun _ => [SystemMessage; UnsupportedMessage "stream_event"; ResultMessage (doneResult "s1")])
    (fun _ disk => disk).

Lemma phase2_rejects_unsupported_messages_witness :
  @FixErrors.runClaudeCode streamingSdk 1 (FixErrors.new Demo.project2 (Some "/p/a.ts")) "Fix."
    (@world0 streamingSdk 0%nat)
    = Some (Throw (error "Message type stream_event are not supported"),
            @AgentErrors.queried streamingSdk (@world0 streamingSdk 0%nat) "Fix."
              (optionsOf (FixErrors.new Demo.project2 (Some "/p/a.ts")))).
Proof.
  exact (@phase2_rejects_unsupported_messages streamingSdk 0
           (FixErrors.new Demo.project2 (Some "/p/a.ts")) "Fix."
           (@world0 streamingSdk 0%nat) 1 "stream_event"
           [ResultMessage (doneResult "s1")] eq_refl eq_refl).
Defined.

End AgentStream.

(** ** What a run of the controller records ([agents/errors/fix-errors.ts]) *)

Module ControllerFacts.
Import ProjectErrors FixErrors.

Section WithCollaborators.
Context `{NodePath} `{TypeScript} `{!ESLint.ESLintApi} `{AgentSdk} `{PromptFiles}.

(** The world after [lines] were printed. *)
Definition printed (lines : list string) (w : Run.World) : Run.World :=
  {| Run.agent := Run.agent w; Run.disk := Run.disk w; Run.hookWorld := Run.hookWorld w;
     Run.queries := Run.queries w; Run.log := Run.log w ++ lines |}.

(** X25: A scope without diagnostics is left alone: [execute] prints its two
    lines and returns the controller as it was created, with all
    statistics at zero; the agent is never invoked and the working copy is
    not touched, whatever the budget of continuations. *)
Theorem clean_scope_needs_no_agent fuel project filePath w :
  getErrors (Run.disk w) project filePath = Return [] ->
  execute fuel (new project filePath) w
    = Some (Return (new project filePath),
            printed ["Fixing errors in " +:+ scope (new project filePath) +:+ "...";
                     "All errors in " +:+ scope (new project filePath) +:+ " have been fixed."]
              w).
Proof.
  intros Herrors. unfold execute, checkErrors.
  unfold mbind, run_bind, Run.bindM, Run.console_log, Run.get_disk, Run.lift, Run.ret, printed.
  cbn [Run.disk FixErrors.project FixErrors.filePath new]. rewrite Herrors.
  cbn [length bool_decide decide_rel]. simpl. rewrite <- app_assoc. reflexivity.
Qed.

Lemma claudeCode_queries fuel :
  forall prompt options verbose w c w',
    ClaudeCodeRun.claudeCode fuel prompt options verbose w = Some (c, w') ->
    (S (Run.queries w) <= Run.queries w')%nat.
Proof.
  induction fuel as [|fuel IH]; intros prompt options verbose w c w' Hrun; [discriminate |].
  cbn [ClaudeCodeRun.claudeCode] in Hrun.
  unfold mbind at 1 2, run_bind, Run.bindM at 1 2, Run.run_query, Run.lift in Hrun.
  destruct (query _ _ _ prompt options) as [messages [[a d] h]].
  destruct (ClaudeCode.consume verbose false messages) as [[r [|]|]|e].
  - unfold mbind at 1, run_bind, Run.bindM at 1, Run.console_log in Hrun.
    unfold mbind, run_bind, Run.bindM in Hrun.
    match type of Hrun with
    | context [ClaudeCodeRun.claudeCode fuel ?p ?o ?v ?w1] =>
        pose proof (IH p o v w1) as IH1;
        destruct (ClaudeCodeRun.claudeCode fuel p o v w1) as [[[r2|e2] w2]|]
    end; [| | discriminate].
    + specialize (IH1 _ _ eq_refl). simpl in IH1.
      unfold Run.ret in Hrun. inversion Hrun; subst. lia.
    + specialize (IH1 _ _ eq_refl). simpl in IH1. inversion Hrun; subst. lia.
  - unfold Run.ret in Hrun. inversion Hrun; subst. simpl. lia.
  - unfold Run.throw in Hrun. inversion Hrun; subst. simpl. lia.
  - inversion Hrun; subst. simpl. lia.
Qed.

Lemma handleClaudeError_queries a e w u w' :
  handleClaudeError a e w = Some (Return u, w') ->
  Run.queries w' = Run.queries w /\ Run.log w' = Run.log w.
Proof.
  unfold handleClaudeError.
  destruct e as [[| |] msg|]; try (unfold Run.throw; discriminate).
  destruct (FixErrors.filePath a) as [f|]; [| unfold Run.throw; discriminate].
  unfold mbind, run_bind, Run.bindM, Run.get_disk, Run.lift, Run.put_disk.
  destruct (readFile (Run.disk w) f); [| discriminate].
  intros Heq. inversion Heq; subst. split; reflexivity.
Qed.

(** What one turn of the agent leaves as it was, and what it uses. *)
Lemma fixErrors_facts fuel a errors w a' w' :
  fixErrors fuel a errors w = Some (Return a', w') ->
  FixErrors.project a' = FixErrors.project a /\
  FixErrors.filePath a' = FixErrors.filePath a /\
  initialErrorCount (stats a') = initialErrorCount (stats a) /\
  iterations (stats a') = iterations (stats a) /\
  (S (Run.queries w) <= Run.queries w')%nat.
Proof.
  unfold fixErrors. intros Hfix.
  apply bind_returns in Hfix as (d & w1 & Hd & Hfix).
  unfold Run.get_disk in Hd. inversion Hd; subst d w1. clear Hd.
  apply bind_returns in Hfix as (formatted & w2 & Hf & Hfix).
  apply lift_returns in Hf as [_ <-].
  apply bind_returns in Hfix as (prompt & w3 & Hp & Hfix).
  apply lift_returns in Hp as [_ <-].
  apply catch_returns in Hfix as [Hrun | (e & w4 & Hrun & Hh)].
  - unfold runClaudeCode in Hrun.
    apply bind_returns in Hrun as (r & w5 & Hcc & Hrun).
    apply claudeCode_queries in Hcc.
    apply bind_returns in Hrun as (h & w6 & Hh & Hrun).
    unfold Run.get_hookWorld in Hh. inversion Hh; subst h w6. clear Hh.
    apply ret_returns in Hrun as [<- <-]. repeat split; try reflexivity. exact Hcc.
  - unfold runClaudeCode in Hrun.
    unfold mbind at 1, run_bind, Run.bindM at 1 in Hrun.
    match type of Hrun with
    | context [ClaudeCodeRun.claudeCode fuel ?p ?o ?v w] =>
        pose proof (claudeCode_queries fuel p o v w) as Hq;
        destruct (ClaudeCodeRun.claudeCode fuel p o v w) as [[[r|e1] w5]|]
    end; [| | discriminate].
    + exfalso. unfold mbind, run_bind, Run.bindM, Run.get_hookWorld, Run.ret in Hrun.
      discriminate.
    + specialize (Hq _ _ eq_refl). inversion Hrun; subst e1 w5.
      apply bind_returns in Hh as (u & w6 & Hh & Hret).
      apply handleClaudeError_queries in Hh as [Hh _].
      apply ret_returns in Hret as [<- <-]. repeat split; try reflexivity. lia.
Qed.

Lemma checkErrors_facts a w errors w' :
  checkErrors a w = Some (Return errors, w') ->
  getErrors (Run.disk w) (FixErrors.project a) (FixErrors.filePath a) = Return errors /\
  Run.disk w' = Run.disk w /\ Run.queries w' = Run.queries w.
Proof.
  unfold checkErrors. intros Hc.
  apply bind_returns in Hc as (d & w1 & Hd & Hc).
  unfold Run.get_disk in Hd. inversion Hd; subst d w1. clear Hd.
  apply bind_returns in Hc as (errs & w2 & He & Hc).
  apply lift_returns in He as [He <-].
  apply bind_returns in Hc as (u & w3 & Hlog & Hc).
  apply ret_returns in Hc as [<- <-].
  split; [exact He |].
  destruct (bool_decide (length errs = 0%nat)).
  - unfold Run.console_log in Hlog. inversion Hlog; subst. split; reflexivity.
  - apply ret_returns in Hlog as [_ <-]. split; reflexivity.
Qed.

Lemma iterate_facts fuel remaining :
  forall iteration a errors w a' errors' fixed w',
    iterate fuel remaining iteration a errors w = Some (Return (a', errors', fixed), w') ->
    (remaining = O -> a' = a /\ errors' = errors /\ w' = w) /\
    (remaining <> O ->
       Z.of_nat (Run.queries w) + (iterations (stats a') - iteration + 1)
         <= Z.of_nat (Run.queries w') /\
       getErrors (Run.disk w') (FixErrors.project a) (FixErrors.filePath a) = Return errors' /\
       remainingErrorCount (stats a') = Z.of_nat (length errors')) /\
    FixErrors.project a' = FixErrors.project a /\
    FixErrors.filePath a' = FixErrors.filePath a /\
    initialErrorCount (stats a') = initialErrorCount (stats a).
Proof.
  induction remaining as [|remaining' IH]; intros iteration a errors w a' errors' fixed w' Hit.
  - simpl in Hit. apply ret_returns in Hit as [Heq <-]. inversion Heq; subst.
    split; [intros _; repeat split; reflexivity |].
    split; [intros Hne; contradiction | repeat split; reflexivity].
  - cbn [iterate] in Hit.
    apply bind_returns in Hit as (a2 & w1 & Hfix & Hit).
    apply bind_returns in Hit as (errs & w2 & Hcheck & Hit).
    apply fixErrors_facts in Hfix as (Hproj & Hpath & Hinit & Hiter & Hq).
    apply checkErrors_facts in Hcheck as (Herrs & Hdisk & Hq2).
    simpl in Hproj, Hpath, Hinit, Hiter.
    rewrite Hproj, Hpath in Herrs.
    destruct (bool_decide (length errs = 0%nat)) eqn:Hzero.
    + apply ret_returns in Hit as [Heq <-]. inversion Heq; subst a' errors' fixed. simpl.
      rewrite Hdisk.
      split; [discriminate |]. split; [| repeat split; assumption].
      intros _. split; [lia |]. split; [exact Herrs | reflexivity].
    + set (a3 := with_stats
                   (set_remainingErrorCount (Z.of_nat (length errs)) (stats a2)) a2) in Hit.
      set (a4 := if bool_decide (iteration mod MAX_ITERATIONS_PER_100_ERRORS = 0)
                 then with_sessionId None a3 else a3) in Hit.
      assert (Hfacts : FixErrors.project a4 = FixErrors.project a /\
                   FixErrors.filePath a4 = FixErrors.filePath a /\
                   initialErrorCount (stats a4) = initialErrorCount (stats a) /\
                   iterations (stats a4) = iteration /\
                   remainingErrorCount (stats a4) = Z.of_nat (length errs)).
      { subst a4 a3.
        destruct (bool_decide (iteration mod MAX_ITERATIONS_PER_100_ERRORS = 0));
          simpl; repeat split; assumption || reflexivity. }
      clearbody a4. destruct Hfacts as (Hp4 & Hf4 & Hi4 & Hit4 & Hr4).
      apply IH in Hit as (Hnone & Hsome & Hp' & Hf' & Hi').
      split; [discriminate |].
      split; [| repeat split; congruence].
      intros _. destruct remaining' as [|remaining''].
      * destruct (Hnone eq_refl) as (-> & -> & ->).
        rewrite Hdisk, Hit4. split; [lia |]. split; [exact Herrs | exact Hr4].
      * destruct (Hsome ltac:(discriminate)) as (Hqs & Hge & Hrem).
        rewrite Hp4, Hf4 in Hge. split; [lia |]. split; [exact Hge | exact Hrem].
Qed.

Lemma runFixingIterations_facts fuel a initialErrors w a' w' :
  runFixingIterations fuel a initialErrors w = Some (Return a', w') ->
  initialErrorCount (stats a') = Z.of_nat (length initialErrors) /\
  Z.of_nat (Run.queries w) + iterations (stats a') <= Z.of_nat (Run.queries w') /\
  exists remaining,
    getErrors (Run.disk w') (FixErrors.project a) (FixErrors.filePath a) = Return remaining /\
    remainingErrorCount (stats a') = Z.of_nat (length remaining).
Proof.
  intros Hrun. unfold runFixingIterations in Hrun.
  apply bind_returns in Hrun as ([[a1 errors1] fixed] & w1 & Hit & Hrun).
  pose proof (IterationCap.cap_at_least_5 (Z.of_nat (length initialErrors))) as Hcap.
  apply iterate_facts in Hit as (_ & Hsome & Hp & Hf & Hi).
  destruct (Hsome ltac:(lia)) as (Hq & Hge & Hrem). simpl in Hi, Hge.
  assert (Ha : a' = a1 /\ Run.queries w' = Run.queries w1 /\ Run.disk w' = Run.disk w1).
  { destruct fixed.
    - apply ret_returns in Hrun as [-> ->]. repeat split; reflexivity.
    - apply bind_returns in Hrun as (u & w2 & Hlog & Hret).
      apply ret_returns in Hret as [-> <-].
      unfold Run.console_log in Hlog. inversion Hlog; subst. repeat split; reflexivity. }
  destruct Ha as (-> & Hqw & Hdw). rewrite Hqw, Hdw.
  split; [exact Hi |]. split; [lia |]. exists errors1. split; [exact Hge | exact Hrem].
Qed.

(** X26: The error counts that a completed run records are true: the initial
    count is the number of diagnostics the run started from, and the
    remaining count is the number of diagnostics that the aggregator
    reports for the scope on the working copy as the run leaves it. *)
Theorem recorded_counts_are_truthful fuel a (initialErrors : list ProjectError) w a' w' :
  runFixingIterations fuel a initialErrors w = Some (Return a', w') ->
  initialErrorCount (stats a') = Z.of_nat (length initialErrors) /\
  exists remaining,
    getErrors (Run.disk w') (FixErrors.project a) (FixErrors.filePath a) = Return remaining /\
    remainingErrorCount (stats a') = Z.of_nat (length remaining).
Proof.
  intros Hrun. apply runFixingIterations_facts in Hrun as (Hi & _ & Hrem).
  split; assumption.
Qed.

(** X27: Every iteration that a completed run counts has invoked the agent: the
    number of queries made during the run is at least the recorded number
    of iterations, the iterations that ended in the suppression of the file
    included. *)
Theorem every_iteration_invokes_the_agent fuel a (initialErrors : list ProjectError) w a' w' :
  runFixingIterations fuel a initialErrors w = Some (Return a', w') ->
  Z.of_nat (Run.queries w) + iterations (stats a') <= Z.of_nat (Run.queries w').
Proof.
  intros Hrun. apply runFixingIterations_facts in Hrun as (_ & Hq & _). exact Hq.
Qed.

(** X28: The suppression needs the file: when the prompt-limit error arrives
    for a file that cannot be read, [handleClaudeError] throws the read
    error in place of the prompt-limit error and writes nothing. *)
Theorem suppression_needs_the_file a e w f :
  SuppressionClaim.isPromptLimit e = true ->
  FixErrors.filePath a = Some f ->
  Run.disk w !! f = None ->
  handleClaudeError a e w
    = Some (Throw (error ("ENOENT: no such file or directory, open '" +:+ f +:+ "'")), w).
Proof.
  intros He Hf Hnone. unfold handleClaudeError.
  destruct e as [[| |] msg|]; try discriminate. rewrite Hf.
  unfold mbind, run_bind, Run.bindM, Run.get_disk, Run.lift, readFile.
  rewrite Hnone. reflexivity.
Qed.

(** X29: The suppression does not look for an earlier one: two prompt-limit
    errors for the same file leave it with the ["// @ts-nocheck"] line
    twice. *)
Theorem suppression_accumulates a e1 e2 w f content :
  SuppressionClaim.isPromptLimit e1 = true ->
  SuppressionClaim.isPromptLimit e2 = true ->
  FixErrors.filePath a = Some f ->
  Run.disk w !! f = Some content ->
  (_ ← handleClaudeError a e1; handleClaudeError a e2) w
    = Some (Return tt,
            SuppressionClaim.rewritten w f
              ("// @ts-nocheck" +:+ JsString.newline +:+ "// @ts-nocheck" +:+ JsString.newline
                 +:+ content)).
Proof.
  intros He1 He2 Hf Hcontent. unfold mbind, run_bind, Run.bindM.
  rewrite (SuppressionClaim.handleClaudeError_suppresses a e1 w f content He1 Hf Hcontent).
  rewrite (SuppressionClaim.handleClaudeError_suppresses a e2 _ f
             ("// @ts-nocheck" +:+ JsString.newline +:+ content) He2 Hf).
  - unfold SuppressionClaim.rewritten. simpl. rewrite insert_insert_eq.
    rewrite <- !append_assoc. reflexivity.
  - unfold SuppressionClaim.rewritten. simpl. apply lookup_insert_eq.
Qed.

End WithCollaborators.

#[local] Existing Instances Demo.nodePath Demo.types Demo.prompts
  Demo.oneFileCompiler Demo.silentLinter.

(** An agent whose every invocation rewrites the file to ["good"]. *)
Definition fixingSdk : AgentSdk :=
  Demo.sdk (fun _ => [Demo.successResult "s1"]) (fun _ disk => <["/p/a.js" := "good"]> disk).

Definition world (content : option string) : @Run.World fixingSdk :=
  {| Run.agent := (0%nat : @Agent fixingSdk);
     Run.disk := match content with Some c => {["/p/a.js" := c]} | None => ∅ end;
     Run.hookWorld := Demo.emptyHooks; Run.queries := 0; Run.log := [] |}.

Definition agent0 : FixErrorsAgent := FixErrors.new Demo.project1 (Some "/p/a.js").

Definition promptLimit : Thrown := ThrownError ClaudePromptLimitError "Prompt is too long".

Lemma clean_scope_needs_no_agent_witness :
  @execute _ _ _ _ fixingSdk _ 0 agent0 (world (Some "good"))
    = Some (Return agent0,
            printed ["Fixing errors in /p/a.js..."; "All errors in /p/a.js have been fixed."]
              (world (Some "good"))).
Proof.
  apply (@clean_scope_needs_no_agent _ _ _ _ fixingSdk _ 0 Demo.project1 (Some "/p/a.js")
           (world (Some "good"))).
  vm_compute. reflexivity.
Defined.

Lemma recorded_counts_are_truthful_witness :
  exists a' w',
    @runFixingIterations _ _ _ _ fixingSdk _ 1 agent0 Demo.oneFileErrors (world (Some "bad"))
      = Some (Return a', w') /\
    initialErrorCount (stats a') = 1.
Proof.
  destruct (@runFixingIterations _ _ _ _ fixingSdk _ 1 agent0 Demo.oneFileErrors
              (world (Some "bad"))) as [[[a'|e] w']|] eqn:Hrun;
    [| vm_compute in Hrun; discriminate | vm_compute in Hrun; discriminate].
  exists a', w'. split; [reflexivity |].
  exact (proj1 (@recorded_counts_are_truthful _ _ _ _ fixingSdk _ 1 agent0 Demo.oneFileErrors
                  (world (Some "bad")) a' w' Hrun)).
Defined.

Lemma every_iteration_invokes_the_agent_witness :
  exists a' w',
    @runFixingIterations _ _ _ _ fixingSdk _ 1 agent0 Demo.oneFileErrors (world (Some "bad"))
      = Some (Return a', w') /\
    Z.of_nat 0 + iterations (stats a') <= Z.of_nat (Run.queries w').
Proof.
  destruct (@runFixingIterations _ _ _ _ fixingSdk _ 1 agent0 Demo.oneFileErrors
              (world (Some "bad"))) as [[[a'|e] w']|] eqn:Hrun;
    [| vm_compute in Hrun; discriminate | vm_compute in Hrun; discriminate].
  exists a', w'. split; [reflexivity |].
  exact (@every_iteration_invokes_the_agent _ _ _ _ fixingSdk _ 1 agent0 Demo.oneFileErrors
           (world (Some "bad")) a' w' Hrun).
Defined.

Lemma suppression_needs_the_file_witness :
  @handleClaudeError fixingSdk agent0 promptLimit (world None)
    = Some (Throw (error "ENOENT: no such file or directory, open '/p/a.js'"), world None).
Proof.
  exact (@suppression_needs_the_file fixingSdk agent0 promptLimit (world None) "/p/a.js"
           eq_refl eq_refl (lookup_empty _)).
Defined.

Lemma suppression_accumulates_witness :
  (_ ← @handleClaudeError fixingSdk agent0 promptLimit;
   @handleClaudeError fixingSdk agent0 promptLimit) (world (Some "bad"))
    = Some (Return tt,
            SuppressionClaim.rewritten (world (Some "bad")) "/p/a.js"
              ("// @ts-nocheck" +:+ JsString.newline +:+ "// @ts-nocheck" +:+ JsString.newline
                 +:+ "bad")).
Proof.
  apply (@suppression_accumulates fixingSdk agent0 promptLimit promptLimit
           (world (Some "bad")) "/p/a.js" "bad" eq_refl eq_refl eq_refl).
  apply lookup_singleton_eq.
Defined.

End ControllerFacts.

(** ** The shape of the aggregated list ([utils/project-errors.ts]) *)

Module AggregatorShape.
Import ProjectErrors Aggregator.

(** An entry as [convertTsDiagnostic] builds it: one-based position and the
    numeric code of the diagnostic. *)
Definition fromTypeChecker (e : ProjectError) : Prop :=
  source e = src_typescript /\ 1 <= line e /\ 1 <= column e /\
  exists n, code e = CodeNumber n.

(** An entry as [convertESLintError] builds it: the code is the name of the
    rule, or null. *)
Definition fromLinter (e : ProjectError) : Prop :=
  source e = src_eslint /\ forall n, code e <> CodeNumber n.

Section WithCheckers.
Context `{NodePath} `{TypeScript} `{!ESLint.ESLintApi}.

Lemma convertTsDiagnostic_fromTypeChecker d e :
  convertTsDiagnostic d = Return e -> fromTypeChecker e.
Proof.
  unfold convertTsDiagnostic, fromTypeChecker.
  destruct (file d) as [sf|], (start d) as [pos|]; try discriminate.
  intros Hr. inversion Hr; subst; simpl.
  pose proof (lineAndCharacter_zero_based sf pos) as [Hl Hc].
  repeat split; try lia. exists (Ts.code d). reflexivity.
Qed.

Lemma convertESLintError_fromLinter e : fromLinter (convertESLintError e).
Proof.
  unfold fromLinter, convertESLintError. simpl. split; [reflexivity |].
  intros n. destruct (Eslint.ruleId e); discriminate.
Qed.

Lemma skipsLinting_without_linter project :
  Project.phase project = 1 \/ Project.data_language project = Some javascript ->
  skipsLinting project = Return true.
Proof.
  unfold skipsLinting. intros [Hphase | Hlang].
  - rewrite bool_decide_eq_true_2 by exact Hphase. reflexivity.
  - destruct (bool_decide (Project.phase project = 1)); [reflexivity |].
    unfold Project.language. rewrite Hlang. reflexivity.
Qed.

(** X30: Whatever the scope and the phase, a list that the aggregator returns
    is the entries of the type checker followed by the entries of the
    linter: the former carry one-based positions and numeric codes, the
    latter never a numeric code, and in phase 1 and in a JavaScript project
    there is no entry of the linter at all. *)
Theorem type_errors_come_first disk project file errs :
  getErrors disk project file = Return errs ->
  exists tsPart lintPart,
    errs = tsPart ++ lintPart /\
    Forall fromTypeChecker tsPart /\
    Forall fromLinter lintPart /\
    (Project.phase project = 1 \/ Project.data_language project = Some javascript ->
     lintPart = []).
Proof.
  intros Hget.
  destruct (reported disk project file) as [ds|e] eqn:Hrep.
  - rewrite (getErrors_unfold _ _ _ _ Hrep) in Hget.
    destruct (mapM convertTsDiagnostic (Typescript.filterErrors ds)) as [ts|e] eqn:Hmap;
      [| discriminate].
    apply mapM_returns in Hmap. simpl in Hget.
    assert (Hts : Forall fromTypeChecker ts).
    { clear Hget. induction Hmap as [|d e0 ds' ts' Hd Hall IH]; constructor; [| exact IH].
      exact (convertTsDiagnostic_fromTypeChecker d e0 Hd). }
    destruct (skipsLinting project) as [[|]|e] eqn:Hskip; simpl in Hget; try discriminate.
    + inversion Hget; subst. exists errs, []. rewrite app_nil_r.
      repeat split; [exact Hts | constructor].
    + destruct (Eslint.getESLintErrors disk project file) as [ls|e] eqn:Hlint;
        simpl in Hget; [| discriminate].
      inversion Hget; subst. exists ts, (List.map convertESLintError ls).
      split; [reflexivity |]. split; [exact Hts |]. split.
      * apply Forall_forall. intros e He. apply list_elem_of_In, in_map_iff in He
          as (l & <- & _). apply convertESLintError_fromLinter.
      * intros Hno. rewrite (skipsLinting_without_linter project Hno) in Hskip. discriminate.
  - exfalso. unfold reported in Hrep. unfold getErrors, Typescript.getTsErrors in Hget.
    cbn [mbind completion_bind bind] in Hget. rewrite Hrep in Hget. discriminate.
Qed.

End WithCheckers.

#[local] Existing Instances Demo.nodePath Demo.types Demo.oneFileCompiler.

(** A linter with one finding in every file it is given. *)
Definition noisyLinter : ESLint.ESLintApi :=
  Demo.linter
    (fun _ files =>
       List.map
         (fun f =>
            {| ESLint.filePath := f;
               ESLint.messages :=
                 [ {| ESLint.column := 3; ESLint.line := 2;
                      ESLint.message := "Unexpected any.";
                      ESLint.ruleId := Some "@typescript-eslint/no-explicit-any";
                      ESLint.severity := 2 |} ] |})
         files).

Definition disk : Disk := {["/p/a.js" := "bad"]}.

Lemma type_errors_come_first_witness :
  exists errs tsPart lintPart,
    @getErrors _ _ _ noisyLinter disk Demo.project2 (Some "/p/a.js") = Return errs /\
    errs = tsPart ++ lintPart /\ Forall fromTypeChecker tsPart /\ Forall fromLinter lintPart.
Proof.
  destruct (@getErrors _ _ _ noisyLinter disk Demo.project2 (Some "/p/a.js"))
    as [errs|e] eqn:Hget; [| vm_compute in Hget; discriminate].
  destruct (@type_errors_come_first _ _ _ noisyLinter disk Demo.project2 (Some "/p/a.js")
              errs Hget) as (tsPart & lintPart & Heq & Hts & Hlint & _).
  exists errs, tsPart, lintPart. repeat split; assumption.
Defined.

End AggregatorShape.
